(** * Timeline state resolver: device projectors, differs and executors

    A shallow embedding of three devices of the timeline state resolver:

    - the HTTP sender ([HTTPSend], from
      [packages/timeline-state-resolver/src/devices/httpSend.ts]),
    - the Quantel video-server controller ([Quantel], the [QuantelDevice]
      and [QuantelManager] classes),
    - the CasparCG projector ([CasparCG], from [src/devices/casparCG.ts]).

    Conventions.  Times and frame counts are JavaScript numbers holding
    integers; they are modelled as [Z].  A JavaScript object used as a
    dictionary is an association list holding its own properties in
    enumeration order (the order [_.each] visits them); a read
    [obj[key]] with a name that the device does not choose also finds
    the members of [Object.prototype] ([JSObject.read]).  A [Map] is a
    [gmap].  Functions of the JavaScript runtime and of underscore that
    the devices call ([_.isEqual], [JSON.stringify],
    [String.prototype.localeCompare]) are parameters of the sections that
    use them, with the properties the proofs rely on stated as
    hypotheses. *)

From Stdlib Require Import ZArith Lia.
From stdpp Require Import base option list strings gmap sorting pretty.

Open Scope Z_scope.

(** ** JavaScript objects used as dictionaries *)

Module JSObject.

(** The value of the own property [key], if any. *)
Fixpoint get {V : Type} (obj : list (string * V)) (key : string) : option V :=
  match obj with
  | [] => None
  | (k, v) :: rest => if String.eqb k key then Some v else get rest key
  end.

(** [Object.keys(obj)]. *)
Definition keys {V : Type} (obj : list (string * V)) : list string :=
  map fst obj.

(** The properties of [Object.prototype], which every object literal
    inherits: the ones of the language and the legacy ones of its
    annex B. *)
Definition Object_prototype : list string :=
  [ "constructor"; "hasOwnProperty"; "isPrototypeOf"; "propertyIsEnumerable";
    "toLocaleString"; "toString"; "valueOf"; "__proto__"; "__defineGetter__";
    "__defineSetter__"; "__lookupGetter__"; "__lookupSetter__" ].

Definition inherited (key : string) : bool :=
  existsb (String.eqb key) Object_prototype.

(** What [obj[key]] gives: the value of the own property; or, for a
    name of [Object.prototype] that the object has no own property for,
    the member of the prototype (a function, for [__proto__] the
    prototype itself), which is truthy and has none of the properties
    that the devices read from their values; or [undefined]. *)
Inductive Property (V : Type) :=
| Own (v : V)
| Inherited
| Missing.
Arguments Own {V} _.
Arguments Inherited {V}.
Arguments Missing {V}.

Definition read {V : Type} (obj : list (string * V)) (key : string) : Property V :=
  match get obj key with
  | Some v => Own v
  | None => if inherited key then Inherited else Missing
  end.

(** The order of the properties.  A name that is an array index (a
    decimal numeral without leading zero, below 2^32 - 1) comes before
    every other name, in the order of the numbers; the other names come
    in the order in which the properties were created. *)
Definition digit (a : Ascii.ascii) : option N :=
  let n := Ascii.N_of_ascii a in
  if ((48 <=? n) && (n <=? 57))%N then Some (n - 48)%N else None.

Fixpoint digits (s : string) (acc : N) : option N :=
  match s with
  | EmptyString => Some acc
  | String a s' =>
      match digit a with
      | Some d => digits s' (10 * acc + d)%N
      | None => None
      end
  end.

Definition arrayIndex (key : string) : option N :=
  match key with
  | EmptyString => None
  | String a rest =>
      if bool_decide (digit a = Some 0%N) && negb (String.eqb rest EmptyString)
      then None
      else match digits key 0%N with
           | Some n => if (n <? 4294967295)%N then Some n else None
           | None => None
           end
  end.

(** Whether a new property [key] is enumerated before the property [k]. *)
Definition precedes (key k : string) : bool :=
  match arrayIndex key, arrayIndex k with
  | Some i, Some j => (i <? j)%N
  | Some _, None => true
  | None, _ => false
  end.

Fixpoint replace {V : Type} (obj : list (string * V)) (key : string) (v : V)
  : list (string * V) :=
  match obj with
  | [] => []
  | (k, w) :: rest =>
      if String.eqb k key then (k, v) :: rest else (k, w) :: replace rest key v
  end.

Fixpoint add {V : Type} (obj : list (string * V)) (key : string) (v : V)
  : list (string * V) :=
  match obj with
  | [] => [(key, v)]
  | (k, w) :: rest =>
      if precedes key k then (key, v) :: obj else (k, w) :: add rest key v
  end.

(** [obj[key] = v], for a name other than [__proto__]: an existing
    property keeps its place, a new one takes its place in the
    enumeration order. *)
Definition set {V : Type} (obj : list (string * V)) (key : string) (v : V)
  : list (string * V) :=
  match get obj key with
  | Some _ => replace obj key v
  | None => add obj key v
  end.

End JSObject.

(** ** Truthiness

    What [if (x)], [!x], [x && y] and [x || y] make of an optional
    number, string or boolean. *)

Definition truthy_number (n : option Z) : bool :=
  match n with
  | Some n => negb (n =? 0)
  | None => false
  end.

Definition truthy_string (s : option string) : bool :=
  match s with
  | Some s => negb (String.eqb s EmptyString)
  | None => false
  end.

Definition truthy_bool (b : option bool) : bool := default false b.

(** [x || null] on a number; with [default 0] around it, [x || 0]. *)
Definition or_null (x : option Z) : option Z :=
  if truthy_number x then x else None.

(** [x || 0] on an optional number. *)
Definition or_zero (x : option Z) : Z := default 0 x.

(** ** [Array.prototype.sort]

    The packages run on Node 14 and 16, where [sort] is stable.  With a
    consistent comparator every stable sort returns the same array, so
    the model is the insertion sort: an element goes in front of the
    first later element that does not compare below it. *)

Module JSArray.
Section Sort.
Context {A : Type} (compareFn : A → A → Z).

Fixpoint insert (x : A) (l : list A) : list A :=
  match l with
  | [] => [x]
  | y :: l' => if compareFn x y <=? 0 then x :: l else y :: insert x l'
  end.

Definition sort (l : list A) : list A := foldr insert [] l.
End Sort.
End JSArray.

(** ** The HTTP sender *)

Module HTTPSend.

(** The interface [HTTPSendCommandContent] of the types package: the
    payload of a timeline object of this device.  The device reads the
    two optional scheduling fields; [type], [url] and [params] go to the
    HTTP client untouched. *)
Class HTTPSendCommandContent (Content : Type) := {
  temporalPriority : Content → option Z;
  queueId : Content → option string;
}.

(** [ResolvedTimelineObjectInstance], the fields the device reads. *)
Record ResolvedTimelineObjectInstance (Content : Type) := {
  id : string;
  content : Content;
}.
Arguments id {Content} _.
Arguments content {Content} _.

(** [TimelineState] *)
Record TimelineState (Content : Type) := {
  time : Z;
  layers : list (string * ResolvedTimelineObjectInstance Content);
  nextEvents : list Z;
}.
Arguments time {Content} _.
Arguments layers {Content} _.
Arguments nextEvents {Content} _.

Inductive CommandName := added | changed | removed.

#[export] Instance CommandName_eq_dec : EqDecision CommandName.
Proof. solve_decision. Defined.

Record Command (Content : Type) := {
  commandName : CommandName;
  cmd_content : Content;
  context : string;
  timelineObjId : string;
  layer : string;
}.
Arguments commandName {Content} _.
Arguments cmd_content {Content} _.
Arguments context {Content} _.
Arguments timelineObjId {Content} _.
Arguments layer {Content} _.

Section Differ.
Context {Content : Type} `{HTTPSendCommandContent Content}.
(** [_.isEqual] on payloads. *)
Variable isEqual : Content → Content → bool.
(** [a.localeCompare(b)] *)
Variable localeCompare : string → string → Z.

Definition addedCommand (layerKey : string)
    (newLayer : ResolvedTimelineObjectInstance Content) : Command Content :=
  {| timelineObjId := id newLayer;
     commandName := added;
     cmd_content := content newLayer;
     context := "added: " +:+ id newLayer;
     layer := layerKey |}.

(** The command for a changed layer; [previously] is what the template
    makes of [oldLayer.id]. *)
Definition changedCommand (layerKey : string) (previously : string)
    (newLayer : ResolvedTimelineObjectInstance Content) : Command Content :=
  {| timelineObjId := id newLayer;
     commandName := changed;
     cmd_content := content newLayer;
     context := "changed: " +:+ id newLayer +:+ " (previously: "
                  +:+ previously +:+ ")";
     layer := layerKey |}.

Definition removedCommand (layerKey : string)
    (oldLayer : ResolvedTimelineObjectInstance Content) : Command Content :=
  {| timelineObjId := id oldLayer;
     commandName := removed;
     cmd_content := content oldLayer;
     context := "removed: " +:+ id oldLayer;
     layer := layerKey |}.

(** The body of the first [_.each], over the layers of the new state.
    When [oldhttpSendState.layers[layerKey]] is a member of
    [Object.prototype], [oldLayer] is truthy, its [content] is
    [undefined], which [_.isEqual] tells from the content of [newLayer],
    and its [id] is [undefined]. *)
Definition diffNewLayer (oldLayers : list (string * ResolvedTimelineObjectInstance Content))
    (entry : string * ResolvedTimelineObjectInstance Content)
    : list (Command Content) :=
  let (layerKey, newLayer) := entry in
  match JSObject.read oldLayers layerKey with
  | JSObject.Missing => [addedCommand layerKey newLayer]
  | JSObject.Own oldLayer =>
      if negb (isEqual (content oldLayer) (content newLayer))
      then [changedCommand layerKey (id oldLayer) newLayer]
      else []
  | JSObject.Inherited => [changedCommand layerKey "undefined" newLayer]
  end.

(** The body of the second [_.each], over the layers of the old state. *)
Definition diffOldLayer (newLayers : list (string * ResolvedTimelineObjectInstance Content))
    (entry : string * ResolvedTimelineObjectInstance Content)
    : list (Command Content) :=
  let (layerKey, oldLayer) := entry in
  match JSObject.read newLayers layerKey with
  | JSObject.Missing => [removedCommand layerKey oldLayer]
  | JSObject.Own _ | JSObject.Inherited => []
  end.

Definition byLayer (a b : Command Content) : Z :=
  localeCompare (layer a) (layer b).

Definition priority (c : Command Content) : Z :=
  or_zero (temporalPriority (cmd_content c)).

Definition byTemporalPriority (a b : Command Content) : Z :=
  priority a - priority b.

(** [HTTPSendDevice._diffStates] *)
Definition _diffStates (oldhttpSendState newhttpSendState : TimelineState Content)
    : list (Command Content) :=
  let commands :=
    flat_map (diffNewLayer (layers oldhttpSendState)) (layers newhttpSendState)
    ++ flat_map (diffOldLayer (layers newhttpSendState)) (layers oldhttpSendState) in
  JSArray.sort byTemporalPriority (JSArray.sort byLayer commands).


End Differ.

(** *** Options and device fields *)

(** [HTTPSendOptions], as [init] reads them. *)
Record HTTPSendOptions (Content : Type) := {
  makeReadyCommands : option (list Content);
  makeReadyDoesReset : option bool;
  resendTime : option Z;
}.
Arguments makeReadyCommands {Content} _.
Arguments makeReadyDoesReset {Content} _.
Arguments resendTime {Content} _.

(** The private fields of [HTTPSendDevice] that the executor uses. *)
Record Device (Content : Type) := {
  _makeReadyCommands : list Content;
  _makeReadyDoesReset : bool;
  _resendTime : option Z;
  activeLayers : gmap string string;
}.
Arguments _makeReadyCommands {Content} _.
Arguments _makeReadyDoesReset {Content} _.
Arguments _resendTime {Content} _.
Arguments activeLayers {Content} _.

(** [HTTPSendDevice.init]: the fields it assigns (the device starts with
    no active layer). *)
Definition init {Content : Type} (initOptions : HTTPSendOptions Content)
    : Device Content :=
  {| _makeReadyCommands := default [] (makeReadyCommands initOptions);
     _makeReadyDoesReset := default false (makeReadyDoesReset initOptions);
     _resendTime :=
       if truthy_number (resendTime initOptions)
          && (or_zero (resendTime initOptions) >? 1)
       then resendTime initOptions else None;
     activeLayers := ∅ |}.

(** *** The command receiver

    The receiver awaits the HTTP client and a timer.  What the outside
    world does at these points is given by a script, one [Attempt] per
    request: how the request settles, the milliseconds that have passed
    when it fails ([Date.now() - t]), and what the callbacks that run
    while this one is suspended do to [activeLayers]. *)

Inductive Outcome :=
| Response (statusCode : Z)
| RequestError (code : option string).

Record Attempt := {
  outcome : Outcome;
  elapsed : Z;
  meanwhile : gmap string string → gmap string string;
}.

Inductive Event (Content : Type) :=
| EmitDebugCommand (context : string) (command : Content) (timelineObjId : string)
| HttpReq (cmd : Content)
| EmitDebugGoodStatus (statusCode : Z)
| EmitWarning (statusCode : Z)
| EmitError (code : option string)
| EmitCommandError (code : option string)
| SetTimeout (timeLeft : Z).
Arguments EmitDebugCommand {Content} _ _ _.
Arguments HttpReq {Content} _.
Arguments EmitDebugGoodStatus {Content} _.
Arguments EmitWarning {Content} _.
Arguments EmitError {Content} _.
Arguments EmitCommandError {Content} _.
Arguments SetTimeout {Content} _.

Definition retryCodes : list string :=
  [ "ETIMEDOUT"; "ECONNRESET"; "EADDRINUSE"; "ECONNREFUSED"; "EPIPE";
    "ENOTFOUND"; "ENETUNREACH"; "EHOSTUNREACH"; "EAI_AGAIN" ].

(** [retryCodes.includes(code)] *)
Definition includes (codes : list string) (code : string) : bool :=
  existsb (String.eqb code) codes.

(** What a callback queued by [_addToQueue] does: it calls the command
    receiver, or returns [null]. *)
Inductive CallbackResult (Content : Type) :=
| CallReceiver (time : Z) (cmd : Content) (context timelineObjId layer : string)
| ReturnNull.
Arguments CallReceiver {Content} _ _ _ _ _.
Arguments ReturnNull {Content}.

(** An entry of the [DoOnTime] queue: the callback is the same for every
    entry of this device, so the entry holds its arguments. *)
Record QueueEntry (Content : Type) := {
  q_time : Z;
  q_queueId : option string;
  q_cmd : Command Content;
}.
Arguments q_time {Content} _.
Arguments q_queueId {Content} _.
Arguments q_cmd {Content} _.

Section Executor.
Context {Content : Type} `{HTTPSendCommandContent Content}.
(** [JSON.stringify] on payloads. *)
Variable JSON_stringify : Content → string.

(** The guard at the head of [_defaultCommandReceiver]: it goes on when
    no layer is given, or when the payload is the one last recorded for
    the layer. *)
Definition stillRelevant (activeLayers : gmap string string) (cmd : Content)
    (layer : option string) : bool :=
  if truthy_string layer
  then bool_decide (activeLayers !! default EmptyString layer
                    = Some (JSON_stringify cmd))
  else true.

(** [HTTPSendDevice._defaultCommandReceiver].  Each request takes the
    next attempt of the script; a request the script says nothing about
    stays pending. *)
Fixpoint _defaultCommandReceiver (_resendTime : option Z)
    (script : list Attempt) (activeLayers : gmap string string)
    (cmd : Content) (context timelineObjId : string) (layer : option string)
    : list (Event Content) :=
  if negb (stillRelevant activeLayers cmd layer) then []
  else
    EmitDebugCommand context cmd timelineObjId ::
    HttpReq cmd ::
    match script with
    | [] => []
    | attempt :: script' =>
        match outcome attempt with
        | Response statusCode =>
            if statusCode =? 200
            then [EmitDebugGoodStatus statusCode]
            else [EmitWarning statusCode]
        | RequestError code =>
            EmitError code ::
            EmitCommandError code ::
            match code with
            | Some c =>
                if includes retryCodes c && truthy_number _resendTime
                then
                  SetTimeout (Z.max (or_zero _resendTime - elapsed attempt) 0) ::
                  _defaultCommandReceiver _resendTime script'
                    (meanwhile attempt activeLayers)
                    cmd context timelineObjId layer
                else []
            | None => []
            end
        end
    end.

(** The callback that [_addToQueue] queues for a command. *)
Definition queuedCallback (time : Z) (cmd : Command Content)
    (activeLayers : gmap string string)
    : gmap string string * CallbackResult Content :=
  match commandName cmd with
  | added | changed =>
      (<[layer cmd := JSON_stringify (cmd_content cmd)]> activeLayers,
       CallReceiver time (cmd_content cmd) (context cmd) (timelineObjId cmd)
         (layer cmd))
  | removed => (delete (layer cmd) activeLayers, ReturnNull)
  end.

(** [HTTPSendDevice._addToQueue] *)
Definition _addToQueue (queue : list (QueueEntry Content))
    (commandsToAchieveState : list (Command Content)) (time : Z)
    : list (QueueEntry Content) :=
  queue ++
  map (fun cmd => {| q_time := time;
                     q_queueId := queueId (cmd_content cmd);
                     q_cmd := cmd |})
      commandsToAchieveState.

(** A queue entry coming due on a device that uses the default receiver:
    the new [activeLayers] and what the device emits and sends. *)
Definition fire (device : Device Content) (script : list Attempt)
    (entry : QueueEntry Content)
    : gmap string string * list (Event Content) :=
  match queuedCallback (q_time entry) (q_cmd entry) (activeLayers device) with
  | (activeLayers', CallReceiver time cmd context timelineObjId layer) =>
      (activeLayers',
       _defaultCommandReceiver (_resendTime device) script activeLayers'
         cmd context timelineObjId (Some layer))
  | (activeLayers', ReturnNull) => (activeLayers', [])
  end.

End Executor.

End HTTPSend.

(** ** Types shared by the devices that read the mappings *)

(** [DeviceType] of the types package (the device kinds this file
    mentions, and [ABSTRACT] and [ATEM] for mappings of other devices). *)
Inductive DeviceType := ABSTRACT | CASPARCG | ATEM | HTTPSEND | QUANTEL.

#[export] Instance DeviceType_eq_dec : EqDecision DeviceType.
Proof. solve_decision. Defined.

Inductive QuantelControlMode := QUALITY | SPEED.

#[export] Instance QuantelControlMode_eq_dec : EqDecision QuantelControlMode.
Proof. solve_decision. Defined.

(** [Mapping], with the properties that [MappingQuantel] and
    [MappingCasparCG] add.  A property the object does not have is [None],
    so [_.has(mapping, 'portId')] is [is_Some (portId mapping)]. *)
Record Mapping := {
  device : DeviceType;
  deviceId : string;
  portId : option string;
  channelId : option Z;
  mode : option QuantelControlMode;
  channel : option Z;
  layer : option Z;
}.

(** [mapping.layer], under a name that no binder hides. *)
Definition mappingLayer (mapping : Mapping) : option Z := layer mapping.

(** The mappings of a device, [this.getMapping()]. *)
Definition Mappings := list (string * Mapping).

(** A computation that returns or throws. *)
Inductive result (E A : Type) :=
| Return (a : A)
| Throw (e : E).
Arguments Return {E A} _.
Arguments Throw {E A} _.

Definition double_quote : string := String (Ascii.ascii_of_nat 34) EmptyString.

(** ** The Quantel device *)

Module Quantel.

Definition IDEAL_PREPARE_TIME : Z := 1000.
Definition PREPARE_TIME_WAIT : Z := 50.
Definition SOFT_JUMP_WAIT_TIME : Z := 100.
Definition DEFAULT_FPS : Z := 50.
Definition JUMP_ERROR_MARGIN : Z := 5.

(** *** Device state *)

Record QuantelStatePortClip := {
  title : string;
  clipId : option Z;
  playing : bool;
  playTime : option Z;
  pauseTime : option Z;
  inPoint : option Z;
  length : option Z;
}.

#[export] Instance QuantelStatePortClip_eq_dec : EqDecision QuantelStatePortClip.
Proof. solve_decision. Defined.

Record QuantelStatePort := {
  timelineObjId : string;
  clip : option QuantelStatePortClip;
  port_mode : QuantelControlMode;
  channels : list Z;
}.

Record QuantelState := {
  time : Z;
  port : list (string * QuantelStatePort);
}.

(** *** Timeline objects of the device *)

(** The content of a [TimelineObjQuantelClip]; a property the object does
    not have is [None]. *)
Record QuantelClipContent := {
  c_title : option string;
  c_pauseTime : option Z;
  c_playing : option bool;
  c_inPoint : option Z;
  c_length : option Z;
  c_noStarttime : option bool;
}.

(** [ResolvedTimelineObjectInstance]; [start] is [instance.start]. *)
Record ResolvedTimelineObjectInstance := {
  id : string;
  content : option QuantelClipContent;
  start : Z;
}.

Record TimelineState := {
  tl_time : Z;
  layers : list (string * ResolvedTimelineObjectInstance);
}.

(** *** Commands *)

Inductive QuantelCommandType :=
| SETUPPORT | LOADCLIPFRAGMENTS | PLAYCLIP | PAUSECLIP | CLEARCLIP | RELEASEPORT.

#[export] Instance QuantelCommandType_eq_dec : EqDecision QuantelCommandType.
Proof. solve_decision. Defined.

(** [QuantelCommand]: the fields of [QuantelCommandBase], then the ones
    of the command type. *)
Inductive QuantelCommand :=
| SetupPort (time : Z) (portId timelineObjId : string) (channel : Z)
| LoadClipFragments (time : Z) (portId timelineObjId : string)
    (clip : QuantelStatePortClip) (timeOfPlay : Z)
| PlayClip (time : Z) (portId timelineObjId : string)
    (clip : QuantelStatePortClip) (mode : QuantelControlMode)
| PauseClip (time : Z) (portId timelineObjId : string)
    (clip : QuantelStatePortClip) (mode : QuantelControlMode)
| ClearClip (time : Z) (portId timelineObjId : string)
| ReleasePort (time : Z) (portId timelineObjId : string).

(** [cmd.type] *)
Definition cmd_type (cmd : QuantelCommand) : QuantelCommandType :=
  match cmd with
  | SetupPort _ _ _ _ => SETUPPORT
  | LoadClipFragments _ _ _ _ _ => LOADCLIPFRAGMENTS
  | PlayClip _ _ _ _ _ => PLAYCLIP
  | PauseClip _ _ _ _ _ => PAUSECLIP
  | ClearClip _ _ _ => CLEARCLIP
  | ReleasePort _ _ _ => RELEASEPORT
  end.

(** [cmd.time] *)
Definition cmd_time (cmd : QuantelCommand) : Z :=
  match cmd with
  | SetupPort t _ _ _ | LoadClipFragments t _ _ _ _ | PlayClip t _ _ _ _
  | PauseClip t _ _ _ _ | ClearClip t _ _ | ReleasePort t _ _ => t
  end.

(** *** The projector *)

(** [_.uniq]: the first occurrence of every element. *)
Fixpoint uniq_from (seen l : list Z) : list Z :=
  match l with
  | [] => []
  | x :: l' =>
      if bool_decide (x ∈ seen) then uniq_from seen l'
      else x :: uniq_from (x :: seen) l'
  end.

Definition uniq (l : list Z) : list Z := uniq_from [] l.

(** [_.sortBy] on numbers, without an iteratee. *)
Definition sortBy (l : list Z) : list Z := JSArray.sort (fun a b => a - b) l.

(** The condition both loops of [convertStateToQuantel] put on a mapping;
    it gives the port and the channel of a Quantel mapping. *)
Definition quantelMapping (mapping : Mapping) : option (string * Z) :=
  if bool_decide (device mapping = QUANTEL)
  then match portId mapping, channelId mapping with
       | Some p, Some c => Some (p, c)
       | _, _ => None
       end
  else None.

(** What the projector throws: [new Error(message)], or the [TypeError]
    of the runtime for the read of a property of [undefined]. *)
Inductive Thrown :=
| ErrorMessage (message : string)
| TypeError.

(** The body of the first loop: a port for the mapping, if it has none,
    and the channel of the mapping among the channels of the port.  When
    [state.port[qMapping.portId]] is a member of [Object.prototype], no
    port is made, [port.channels] is [undefined] and [.concat] throws. *)
Definition portFromMapping
    (ports : result Thrown (list (string * QuantelStatePort)))
    (mapping : Mapping) : result Thrown (list (string * QuantelStatePort)) :=
  match ports with
  | Throw e => Throw e
  | Return ports =>
      match quantelMapping mapping with
      | Some (pid, cid) =>
          match JSObject.read ports pid with
          | JSObject.Inherited => Throw TypeError
          | found =>
              let p :=
                match found with
                | JSObject.Own p => p
                | _ => {| channels := [];
                          timelineObjId := EmptyString;
                          clip := None;
                          port_mode := default QUALITY (mode mapping) |}
                end in
              Return (JSObject.set ports pid
                        {| channels := sortBy (uniq (channels p ++ [cid]));
                           timelineObjId := timelineObjId p;
                           clip := clip p;
                           port_mode := port_mode p |})
          end
      | None => Return ports
      end
  end.

(** The clip that a layer puts on its port. *)
Definition clipOfLayer (layer : ResolvedTimelineObjectInstance)
    : option QuantelStatePortClip :=
  match content layer with
  | Some c =>
      if truthy_string (c_title c)
      then Some {| title := default EmptyString (c_title c);
                   clipId := None;
                   pauseTime := c_pauseTime c;
                   playing := default true (c_playing c);
                   inPoint := c_inPoint c;
                   length := c_length c;
                   playTime :=
                     if truthy_bool (c_noStarttime c) then None
                     else if start layer =? 0 then None
                     else Some (start layer) |}
      else None
  | None => None
  end.

(** The body of the second loop.  A member of [Object.prototype] found
    under [mappings[layerName]] has no [device], so the condition on the
    mapping fails for it.  One found under [state.port[mapping.portId]]
    would take the assignments of the clip itself, the state staying as
    it is; the first loop has thrown before that can happen. *)
Definition portFromLayer (mappings : Mappings)
    (ports : result Thrown (list (string * QuantelStatePort)))
    (entry : string * ResolvedTimelineObjectInstance)
    : result Thrown (list (string * QuantelStatePort)) :=
  let (layerName, layer) := entry in
  match ports with
  | Throw e => Throw e
  | Return ports =>
      match JSObject.read mappings layerName with
      | JSObject.Own foundMapping =>
          match quantelMapping foundMapping with
          | Some (pid, _) =>
              match JSObject.read ports pid with
              | JSObject.Missing =>
                  Throw (ErrorMessage ("Port " +:+ double_quote +:+ pid
                                       +:+ double_quote +:+ " not found"))
              | JSObject.Own p =>
                  match clipOfLayer layer with
                  | Some c =>
                      Return (JSObject.set ports pid
                                {| channels := channels p;
                                   timelineObjId := id layer;
                                   clip := Some c;
                                   port_mode := port_mode p |})
                  | None => Return ports
                  end
              | JSObject.Inherited => Return ports
              end
          | None => Return ports
          end
      | JSObject.Inherited | JSObject.Missing => Return ports
      end
  end.

(** [QuantelDevice.convertStateToQuantel] *)
Definition convertStateToQuantel (mappings : Mappings)
    (timelineState : TimelineState) : result Thrown QuantelState :=
  let ports := foldl portFromMapping (Return []) (map snd mappings) in
  match foldl (portFromLayer mappings) ports (layers timelineState) with
  | Return ports => Return {| time := tl_time timelineState; port := ports |}
  | Throw e => Throw e
  end.

(** *** The differ *)

(** The time of the preparation commands. *)
Definition prepareTime (oldState : QuantelState) (time : Z) : Z :=
  Z.min time
    (Z.max (time - IDEAL_PREPARE_TIME) (Quantel.time oldState + PREPARE_TIME_WAIT)).

(** The body of the first [_.each] of [_diffStates].  When
    [oldState.port[portId]] is a member of [Object.prototype], [oldPort]
    is truthy and its [channels] and [clip] are [undefined]: the channels
    of [newPort] differ from that, and its clip does when it has one. *)
Definition diffNewPort (oldState : QuantelState) (time : Z)
    (entry : string * QuantelStatePort) : list QuantelCommand :=
  let (portId, newPort) := entry in
  let oldPort := JSObject.read (port oldState) portId in
  (if match oldPort with
      | JSObject.Missing => true
      | JSObject.Own oldPort =>
          negb (bool_decide (channels newPort = channels oldPort))
      | JSObject.Inherited => true
      end
   then match channels newPort with
        | channel :: _ =>
            if channel =? 0 then []
            else [SetupPort (prepareTime oldState time) portId
                    (timelineObjId newPort) channel]
        | [] => []
        end
   else [])
  ++
  (if match oldPort with
      | JSObject.Missing => true
      | JSObject.Own oldPort => negb (bool_decide (clip newPort = clip oldPort))
      | JSObject.Inherited => negb (bool_decide (clip newPort = None))
      end
   then match clip newPort with
        | Some c =>
            [ LoadClipFragments (prepareTime oldState time) portId
                (timelineObjId newPort) c time;
              if playing c
              then PlayClip time portId (timelineObjId newPort) c (port_mode newPort)
              else PauseClip time portId (timelineObjId newPort) c (port_mode newPort) ]
        | None => [ClearClip time portId (timelineObjId newPort)]
        end
   else []).

(** The body of the second [_.each]. *)
Definition diffOldPort (oldState newState : QuantelState) (time : Z)
    (entry : string * QuantelStatePort) : list QuantelCommand :=
  let (portId, oldPort) := entry in
  match JSObject.read (port newState) portId with
  | JSObject.Missing =>
      [ReleasePort (prepareTime oldState time) portId (timelineObjId oldPort)]
  | JSObject.Own _ | JSObject.Inherited => []
  end.

(** [QuantelDevice._diffStates] *)
Definition _diffStates (oldState newState : QuantelState) (time : Z)
    : list QuantelCommand :=
  flat_map (diffNewPort oldState time) (port newState)
  ++ flat_map (diffOldPort oldState newState time) (port oldState).

(** *** The gateway

    The [QuantelGateway] client is outside this development.  It is an
    oracle: every call gets the reply of the outside world, which may
    depend on how many calls were made before it. *)

Inductive Reply (A : Type) :=
| Resolve (a : A)
| Reject (status : option Z).
Arguments Resolve {A} _.
Arguments Reject {A} _.

Record ServerInfo := {
  ident : Z;
  pools : option (list Z);
}.

Record PortStatus := {
  endOfData : option Z;
}.

(** A clip as [searchClip] and [getClip] give it; [Frames] is the value
    of [parseInt(clipData.Frames, 10)], [None] when it is [NaN]. *)
Record ClipData := {
  ClipID : Z;
  PoolID : option Z;
  Frames : option Z;
}.

Record ServerFragment := {
  finish : Z;
}.

Record QuantelGateway := {
  serverId : Z;
  gw_getServer : nat → Reply (option ServerInfo);
  gw_getPort : nat → string → Reply (option PortStatus);
  gw_createPort : nat → string → Z → Reply unit;
  gw_releasePort : nat → string → Reply unit;
  gw_searchClip : nat → string → Reply (list ClipData);
  gw_getClip : nat → Z → Reply (option ClipData);
  gw_getClipFragments : nat → Z → option (Z * Z) → Reply (list ServerFragment);
  gw_loadFragmentsOntoPort :
    nat → string → list ServerFragment → Z → Reply (option PortStatus);
  gw_portPrepareJump : nat → string → Z → Reply unit;
  gw_portTriggerJump : nat → string → Reply unit;
  gw_portHardJump : nat → string → Z → Reply unit;
  gw_portStop : nat → string → option Z → Reply unit;
  gw_portPlay : nat → string → Reply unit;
  gw_portClear : nat → string → Reply unit;
}.

(** *** Tracked state

    The manager keeps its ports in an object that it never iterates, a
    [gmap] here.  It is read with the port ids of the commands of the
    differ, which are the port names of states that the projector has
    returned: none of them is a name of [Object.prototype]
    ([QuantelDifferFacts.projected_ports_ordinary]), so a read sees the
    own properties only. *)

Record LoadedFragments := {
  portInPoint : Z;
  portOutPoint : Z;
  lf_inPoint : Z;
  lf_outPoint : Z;
}.

Record QuantelTrackedStatePort := {
  loadedFragments : gmap Z LoadedFragments;
  tp_channel : Z;
  offset : Z;
  tp_playing : bool;
  jumpOffset : option Z;
  scheduledStop : option Z;
}.

Record QuantelTrackedState := {
  ts_clipId : gmap string Z;
  ts_port : gmap string QuantelTrackedStatePort;
}.

(** The [Cache] of the manager; its values are clip ids. *)
Record CacheEntry := {
  endTime : Z;
  value : Z;
}.

Record Cache := {
  data : gmap string CacheEntry;
  callCount : Z;
}.

(** The fields of [QuantelManager], and the number of gateway calls made
    so far. *)
Record Manager := {
  _quantelState : QuantelTrackedState;
  _cache : Cache;
  calls : nat;
}.

(** *** What an operation does, in order *)

Inductive GatewayOp :=
| GetServer | GetPort | CreatePort | ReleasePortOp | SearchClip | GetClip
| GetClipFragments | LoadFragmentsOntoPort | PortPrepareJump
| PortTriggerJump | PortHardJump | PortStop | PortPlay | PortClear.

Inductive Completion :=
| Resolved
| Rejected (status : option Z).

(** The parts of the tracked state an operation writes.
    [JumpInvalidated] is the write [trackedPort.jumpOffset = null] that
    drops a prepared jump which is off the mark. *)
Inductive TrackedField :=
| PortEntry | PortDeleted | FragmentsLoaded | FragmentsCleared
| JumpOffset | JumpInvalidated | Offset | Playing | ScheduledStop | ClipIdOfTitle.

Inductive Event :=
| Awaited (op : GatewayOp) (completion : Completion)
| NotAwaited (op : GatewayOp)
| Write (field : TrackedField)
| Wait (ms : Z)
| CleanScheduled.

Inductive Exception :=
| Error (message : string)
| Rejection (status : option Z).

(** An asynchronous method of the manager: from the fields of the
    manager to what it returns or throws, the fields afterwards, and what
    it did. *)
Definition Async (A : Type) : Type :=
  Manager → result Exception A * Manager * list Event.

#[export] Instance Async_ret : MRet Async :=
  fun A a m => (Return a, m, []).

#[export] Instance Async_bind : MBind Async :=
  fun A B k body m =>
    match body m with
    | (Return a, m1, events1) =>
        match k a m1 with
        | (r, m2, events2) => (r, m2, events1 ++ events2)
        end
    | (Throw e, m1, events1) => (Throw e, m1, events1)
    end.

Definition throw {A : Type} (e : Exception) : Async A :=
  fun m => (Throw e, m, []).

(** [try { body } catch (e) { handler e }] *)
Definition try_catch {A : Type} (body : Async A) (handler : Exception → Async A)
    : Async A :=
  fun m =>
    match body m with
    | (Return a, m1, events1) => (Return a, m1, events1)
    | (Throw e, m1, events1) =>
        match handler e m1 with
        | (r, m2, events2) => (r, m2, events1 ++ events2)
        end
    end.

Definition called (m : Manager) : Manager :=
  {| _quantelState := _quantelState m; _cache := _cache m; calls := S (calls m) |}.

(** [await this._quantel.op(...)] *)
Definition await {A : Type} (op : GatewayOp) (call : nat → Reply A) : Async A :=
  fun m =>
    match call (calls m) with
    | Resolve a => (Return a, called m, [Awaited op Resolved])
    | Reject status =>
        (Throw (Rejection status), called m, [Awaited op (Rejected status)])
    end.

(** [this._quantel.op(...)], the promise left alone. *)
Definition not_awaited {A : Type} (op : GatewayOp) (call : nat → Reply A)
    : Async unit :=
  fun m => (Return (), called m, [NotAwaited op]).

(** A write to the tracked state. *)
Definition write (field : TrackedField)
    (f : QuantelTrackedState → QuantelTrackedState) : Async unit :=
  fun m =>
    (Return (),
     {| _quantelState := f (_quantelState m); _cache := _cache m; calls := calls m |},
     [Write field]).

(** A write to a property of [trackedPort], the entry of the port in the
    tracked state. *)
Definition writePort (field : TrackedField) (port : string)
    (f : QuantelTrackedStatePort → QuantelTrackedStatePort) : Async unit :=
  write field (fun state =>
    {| ts_clipId := ts_clipId state; ts_port := alter f port (ts_port state) |}).

(** The entry of a port, read through the reference [trackedPort]. *)
Definition readPort {A : Type} (port : string) (dflt : A)
    (f : QuantelTrackedStatePort → A) : Async A :=
  fun m => (Return (from_option f dflt (ts_port (_quantelState m) !! port)), m, []).

(** [this._quantelState.port[port]] *)
Definition trackedPortOf (port : string) : Async (option QuantelTrackedStatePort) :=
  fun m => (Return (ts_port (_quantelState m) !! port), m, []).

(** Assignments to the properties of a tracked port. *)
Definition set_loadedFragments (v : gmap Z LoadedFragments)
    (t : QuantelTrackedStatePort) : QuantelTrackedStatePort :=
  {| loadedFragments := v; tp_channel := tp_channel t; offset := offset t;
     tp_playing := tp_playing t; jumpOffset := jumpOffset t;
     scheduledStop := scheduledStop t |}.

Definition set_offset (v : Z) (t : QuantelTrackedStatePort)
    : QuantelTrackedStatePort :=
  {| loadedFragments := loadedFragments t; tp_channel := tp_channel t; offset := v;
     tp_playing := tp_playing t; jumpOffset := jumpOffset t;
     scheduledStop := scheduledStop t |}.

Definition set_playing (v : bool) (t : QuantelTrackedStatePort)
    : QuantelTrackedStatePort :=
  {| loadedFragments := loadedFragments t; tp_channel := tp_channel t;
     offset := offset t; tp_playing := v; jumpOffset := jumpOffset t;
     scheduledStop := scheduledStop t |}.

Definition set_jumpOffset (v : option Z) (t : QuantelTrackedStatePort)
    : QuantelTrackedStatePort :=
  {| loadedFragments := loadedFragments t; tp_channel := tp_channel t;
     offset := offset t; tp_playing := tp_playing t; jumpOffset := v;
     scheduledStop := scheduledStop t |}.

Definition set_scheduledStop (v : option Z) (t : QuantelTrackedStatePort)
    : QuantelTrackedStatePort :=
  {| loadedFragments := loadedFragments t; tp_channel := tp_channel t;
     offset := offset t; tp_playing := tp_playing t; jumpOffset := jumpOffset t;
     scheduledStop := v |}.

Section Manager.
(** [this._quantel], [this.getCurrentTime()] and [Date.now()]; the clocks
    are read at a moment given by the number of gateway calls made. *)
Variable quantel : QuantelGateway.
Variable getCurrentTime : nat → Z.
Variable Date_now : nat → Z.

Definition currentTime : Async Z :=
  fun m => (Return (getCurrentTime (calls m)), m, []).

(** [Cache.exists] *)
Definition Cache_exists (key : string) : Async bool :=
  fun m =>
    (Return match data (_cache m) !! key with
            | Some o => Date_now (calls m) <=? endTime o
            | None => false
            end, m, []).

(** [Cache.get] *)
Definition Cache_get (key : string) : Async (option Z) :=
  fun m =>
    (Return match data (_cache m) !! key with
            | Some o =>
                if Date_now (calls m) <=? endTime o then Some (value o) else None
            | None => None
            end, m, []).

(** [Cache.set]; the sweep that [_triggerClean] schedules runs on a
    timer, after the operation. *)
Definition Cache_set (key : string) (v : Z) (ttl : Z) : Async Z :=
  fun m =>
    let entry := {| endTime := Date_now (calls m) + ttl; value := v |} in
    let count := callCount (_cache m) + 1 in
    (Return v,
     {| _quantelState := _quantelState m;
        _cache := {| data := <[key := entry]> (data (_cache m));
                     callCount := if count >? 100 then 0 else count |};
        calls := calls m |},
     if count >? 100 then [CleanScheduled] else []).

(** [Cache.getSet] with an asynchronous [fcn] and the default [ttl]. *)
Definition Cache_getSet (key : string) (fcn : Async Z) : Async (option Z) :=
  found ← Cache_exists key;
  if found : bool then Cache_get key
  else v ← fcn; v' ← Cache_set key v 30000; mret (Some v').

(** [QuantelManager.getTrackedPort] *)
Definition getTrackedPort (port : string) : Async QuantelTrackedStatePort :=
  fun m =>
    match ts_port (_quantelState m) !! port with
    | Some trackedPort => (Return trackedPort, m, [])
    | None =>
        (Throw (Error ("Port " +:+ port +:+ " missing in tracked quantel state")),
         m, [])
    end.

(** [QuantelManager.getServer] *)
Definition getServer : Async ServerInfo :=
  server ← await GetServer (gw_getServer quantel);
  match server with
  | None =>
      throw (Error ("Quantel server " +:+ pretty (serverId quantel) +:+ " not found"))
  | Some server =>
      match pools server with
      | None => throw (Error ("Server " +:+ pretty (ident server) +:+ " has no .pools"))
      | Some [] =>
          throw (Error ("Server " +:+ pretty (ident server)
                        +:+ " has an empty .pools array"))
      | Some _ => mret server
      end
  end.

(** [(server.pools || []).indexOf(poolId) !== -1] under [clip.PoolID &&]. *)
Definition onServer (server : ServerInfo) (poolId : option Z) : bool :=
  truthy_number poolId
  && bool_decide (default 0 poolId ∈ default [] (pools server)).

(** [QuantelManager.getClipId] *)
Definition getClipId (clip : QuantelStatePortClip) : Async Z :=
  clipId ←
    (if negb (truthy_number (clipId clip))
        && negb (String.eqb (title clip) EmptyString)
     then
       Cache_getSet ("clip." +:+ title clip +:+ ".clipId")
         (server ← getServer;
          foundClips ← await SearchClip (fun n => gw_searchClip quantel n (title clip));
          match List.find (fun c => onServer server (PoolID c)) foundClips with
          | None =>
              throw (Error ("Clip " +:+ double_quote +:+ title clip +:+ double_quote
                            +:+ " not found on server (" +:+ pretty (ident server)
                            +:+ ")"))
          | Some foundClip =>
              write ClipIdOfTitle (fun state =>
                {| ts_clipId := <[title clip := ClipID foundClip]> (ts_clipId state);
                   ts_port := ts_port state |});;
              mret (ClipID foundClip)
          end)
     else mret (clipId clip));
  if truthy_number clipId then mret (default 0 clipId)
  else throw (Error ("Unable to determine clipId for clip '" +:+ title clip +:+ "'")).

(** [QuantelManager.wait] *)
Definition wait (ms : Z) : Async unit :=
  fun m => (Return (), m, [Wait ms]).

(** [QuantelManager.setupPort] *)
Definition setupPort (port : string) (channel : Z) : Async unit :=
  trackedPort ← trackedPortOf port;
  if match trackedPort with
     | None => true
     | Some t => negb (tp_channel t =? channel)
     end
  then
    remote ← await GetPort (fun n => gw_getPort quantel n port);
    (if remote is Some _
     then await ReleasePortOp (fun n => gw_releasePort quantel n port)
     else mret ());;
    await CreatePort (fun n => gw_createPort quantel n port channel);;
    write PortEntry (fun state =>
      {| ts_clipId := ts_clipId state;
         ts_port := <[port := {| loadedFragments := ∅;
                                 offset := 0;
                                 tp_playing := false;
                                 jumpOffset := None;
                                 scheduledStop := None;
                                 tp_channel := channel |}]> (ts_port state) |})
  else mret ().

(** [QuantelManager.releasePort] *)
Definition releasePort (port : string) : Async unit :=
  try_catch (await ReleasePortOp (fun n => gw_releasePort quantel n port))
    (fun e =>
       match e with
       | Rejection (Some 404) => mret ()
       | _ => throw e
       end);;
  write PortDeleted (fun state =>
    {| ts_clipId := ts_clipId state; ts_port := delete port (ts_port state) |}).

(** [Math.round(ms * DEFAULT_FPS / 1000)] *)
Definition frames (ms : Z) : Z := (ms * DEFAULT_FPS + 500) / 1000.

(** The frame numbers that [loadClipFragments] computes from the clip:
    whether it has an in point or a length, its in point, and its length
    (from the clip data when the clip gives none). *)
Definition useInOutPoints (clip : QuantelStatePortClip) : bool :=
  truthy_number (inPoint clip) || truthy_number (length clip).

Definition inPointFrames (clip : QuantelStatePortClip) : Z :=
  if truthy_number (inPoint clip) then frames (default 0 (inPoint clip)) else 0.

Definition lengthFrames (clip : QuantelStatePortClip) (clipData : ClipData) : Z :=
  let fromLength :=
    if truthy_number (length clip) then frames (default 0 (length clip)) else 0 in
  let lengthFrames :=
    if negb (fromLength =? 0) then fromLength
    else if truthy_number (Frames clipData) then default 0 (Frames clipData)
    else 0 in
  if truthy_number (inPoint clip) && negb (truthy_number (length clip))
  then lengthFrames - inPointFrames clip
  else lengthFrames.

Definition outPointFrames (clip : QuantelStatePortClip) (clipData : ClipData) : Z :=
  inPointFrames clip + lengthFrames clip clipData.

(** [fragments.reduce((x, y) => x > y.finish ? x : y.finish, 0)] *)
Definition lastFinish (fragments : list ServerFragment) : Z :=
  foldl (fun x y => if x >? finish y then x else finish y) 0 fragments.

(** The fragments of the clip that are on the port already, if they were
    loaded with these in and out points. *)
Definition reusable (loaded : option LoadedFragments) (inFrames outFrames : Z)
    : option LoadedFragments :=
  match loaded with
  | Some l =>
      if (lf_inPoint l =? inFrames) && (lf_outPoint l =? outFrames)
      then Some l else None
  | None => None
  end.

(** [QuantelManager.loadClipFragments] *)
Definition loadClipFragments (port : string) (clip : QuantelStatePortClip)
    (timeOfPlay : Z) : Async unit :=
  _ ← getTrackedPort port;
  server ← getServer;
  clipId ← getClipId clip;
  clipData ← await GetClip (fun n => gw_getClip quantel n clipId);
  match clipData with
  | None => throw (Error ("Clip " +:+ pretty clipId +:+ " not found"))
  | Some clipData =>
      if negb (truthy_number (PoolID clipData))
      then throw (Error ("Clip " +:+ pretty (ClipID clipData) +:+ " missing PoolID"))
      else if negb (bool_decide (default 0 (PoolID clipData)
                                 ∈ default [] (pools server)))
      then throw (Error ("Clip " +:+ double_quote +:+ pretty (ClipID clipData)
                         +:+ double_quote +:+ " PoolID "
                         +:+ pretty (default 0 (PoolID clipData))
                         +:+ " not found on server (" +:+ pretty (ident server)
                         +:+ ")"))
      else
        loaded ← readPort port None (fun t => loadedFragments t !! clipId);
        portInPoint ←
          match reusable loaded (inPointFrames clip) (outPointFrames clip clipData) with
          | Some reused => mret (portInPoint reused)
          | None =>
              fragments ← await GetClipFragments (fun n =>
                gw_getClipFragments quantel n clipId
                  (if useInOutPoints clip
                   then Some (inPointFrames clip, outPointFrames clip clipData)
                   else None));
              portStatus ← await GetPort (fun n => gw_getPort quantel n port);
              match portStatus with
              | None => throw (Error ("Port " +:+ port +:+ " not found"))
              | Some portStatus =>
                  let portInPoint := default 0 (or_null (endOfData portStatus)) in
                  newPortStatus ← await LoadFragmentsOntoPort (fun n =>
                    gw_loadFragmentsOntoPort quantel n port fragments portInPoint);
                  match newPortStatus with
                  | None =>
                      throw (Error ("Port " +:+ port
                                    +:+ " not found after loading fragments"))
                  | Some _ =>
                      writePort FragmentsLoaded port (fun t =>
                        set_loadedFragments
                          (<[clipId :=
                               {| portInPoint := portInPoint;
                                  portOutPoint :=
                                    portInPoint + lastFinish fragments - 1;
                                  lf_inPoint := inPointFrames clip;
                                  lf_outPoint := outPointFrames clip clipData |}]>
                             (loadedFragments t)) t);;
                      mret portInPoint
                  end
              end
          end;
        now ← currentTime;
        let timeLeftToPlay := timeOfPlay - now in
        if timeLeftToPlay >? 0
        then
          stopped ← readPort port None scheduledStop;
          (if (portInPoint >? 0) && bool_decide (stopped = None)
           then
             await PortStop (fun n =>
               gw_portStop quantel n port (Some (portInPoint - 1)));;
             writePort ScheduledStop port (set_scheduledStop (Some (portInPoint - 1)))
           else mret ());;
          await PortPrepareJump (fun n =>
            gw_portPrepareJump quantel n port portInPoint);;
          writePort JumpOffset port (set_jumpOffset (Some portInPoint))
        else mret ()
  end.

Inductive Action := play | pause.

#[export] Instance Action_eq_dec : EqDecision Action.
Proof. solve_decision. Defined.

(** The block of [prepareClipJump] that pauses the playback. *)
Definition pausePlayback (port : string) : Async unit :=
  await PortStop (fun n => gw_portStop quantel n port None);;
  writePort ScheduledStop port (set_scheduledStop None);;
  writePort Playing port (set_playing false).

(** The block of [prepareClipJump] that triggers the jump;
    [trackedPort.offset] takes the value of [trackedPort.jumpOffset]. *)
Definition triggerJump (port : string) : Async unit :=
  await PortTriggerJump (fun n => gw_portTriggerJump quantel n port);;
  writePort Offset port (fun t => set_offset (default 0 (jumpOffset t)) t).

(** The offset that [prepareClipJump] wants the port to jump to. *)
Definition jumpToOffsetOf (loaded : LoadedFragments) (clip : QuantelStatePortClip)
    (now : Z) : Z :=
  portInPoint loaded
  + (if truthy_number (playTime clip)
     then Z.max 0 (default now (or_null (pauseTime clip))
                   - default 0 (playTime clip))
          * DEFAULT_FPS / 1000
     else 0).

(** Whether the prepared jump is off the mark. *)
Definition staleJump (prepared : option Z) (jumpToOffset : Z) : bool :=
  truthy_number prepared
  && (Z.abs (default 0 prepared - jumpToOffset) >? JUMP_ERROR_MARGIN).

(** [QuantelManager.prepareClipJump] *)
Definition prepareClipJump (port : string) (clip : QuantelStatePortClip)
    (mode : QuantelControlMode) (alsoDoAction : option Action) : Async unit :=
  _ ← getTrackedPort port;
  clipId ← getClipId clip;
  loaded ← readPort port None (fun t => loadedFragments t !! clipId);
  match loaded with
  | None =>
      throw (Error ("Fragments of clip " +:+ pretty clipId +:+ " wasn't loaded"))
  | Some loaded =>
      now ← currentTime;
      let jumpToOffset := jumpToOffsetOf loaded clip now in
      prepared ← readPort port None jumpOffset;
      (if staleJump prepared jumpToOffset
       then writePort JumpInvalidated port (set_jumpOffset None)
       else mret ());;
      prepared ← readPort port None jumpOffset;
      (match prepared with
       | Some _ =>
           (if bool_decide (alsoDoAction = Some pause)
            then pausePlayback port else mret ());;
           triggerJump port
       | None =>
           match mode with
           | QUALITY =>
               await PortPrepareJump (fun n =>
                 gw_portPrepareJump quantel n port jumpToOffset);;
               writePort JumpOffset port (set_jumpOffset (Some jumpToOffset));;
               wait SOFT_JUMP_WAIT_TIME;;
               (if bool_decide (alsoDoAction = Some pause)
                then pausePlayback port else mret ());;
               triggerJump port
           | SPEED =>
               not_awaited PortHardJump (fun n =>
                 gw_portHardJump quantel n port jumpToOffset);;
               writePort Offset port (set_offset jumpToOffset);;
               writePort Playing port (set_playing false)
           end
       end);;
      if bool_decide (alsoDoAction = Some play)
      then
        await PortPlay (fun n => gw_portPlay quantel n port);;
        writePort ScheduledStop port (set_scheduledStop None);;
        writePort Playing port (set_playing true);;
        if negb (portOutPoint loaded =? 0)
        then
          await PortStop (fun n =>
            gw_portStop quantel n port (Some (portOutPoint loaded)));;
          writePort ScheduledStop port
            (set_scheduledStop (Some (portOutPoint loaded)))
        else mret ()
      else mret ()
  end.

(** [QuantelManager.playClip] *)
Definition playClip (port : string) (clip : QuantelStatePortClip)
    (mode : QuantelControlMode) : Async unit :=
  prepareClipJump port clip mode (Some play).

(** [QuantelManager.pauseClip] *)
Definition pauseClip (port : string) (clip : QuantelStatePortClip)
    (mode : QuantelControlMode) : Async unit :=
  prepareClipJump port clip mode (Some pause).

(** [QuantelManager.clearClip] *)
Definition clearClip (port : string) : Async unit :=
  _ ← getTrackedPort port;
  await PortClear (fun n => gw_portClear quantel n port);;
  writePort JumpOffset port (set_jumpOffset None);;
  writePort FragmentsCleared port (set_loadedFragments ∅);;
  writePort ScheduledStop port (set_scheduledStop None).

(** The operation of the manager that [_defaultCommandReceiver] of the
    device runs for a command. *)
Definition execute (cmd : QuantelCommand) : Async unit :=
  match cmd with
  | SetupPort _ port _ channel => setupPort port channel
  | ReleasePort _ port _ => releasePort port
  | LoadClipFragments _ port _ clip timeOfPlay =>
      loadClipFragments port clip timeOfPlay
  | PlayClip _ port _ clip mode => playClip port clip mode
  | PauseClip _ port _ clip mode => pauseClip port clip mode
  | ClearClip _ port _ => clearClip port
  end.

End Manager.

(** *** Initialisation of the device *)

(** [QuantelOptions]; an option that is not given is [None]. *)
Record QuantelOptions := {
  gatewayUrl : option string;
  ISAUrl : option string;
  zoneId : option string;
  opt_serverId : option Z;
}.

Inductive InitEvent :=
| GatewayInit (gatewayUrl ISAUrl : string) (zoneId : option string) (serverId : Z)
    (completion : Completion)
| MonitorServerStatus.

(** [QuantelDevice.init]; [gatewayInit] is how [this._quantel.init]
    settles if it is called. *)
Definition init (gatewayInit : Reply unit) (connectionOptions : QuantelOptions)
    : result Exception bool * list InitEvent :=
  if negb (truthy_string (gatewayUrl connectionOptions))
  then (Throw (Error "Quantel bad connection option: gatewayUrl"), [])
  else if negb (truthy_string (ISAUrl connectionOptions))
  then (Throw (Error "Quantel bad connection option: ISAUrl"), [])
  else if negb (truthy_number (opt_serverId connectionOptions))
  then (Throw (Error "Quantel bad connection option: serverId"), [])
  else
    let call :=
      GatewayInit (default EmptyString (gatewayUrl connectionOptions))
        (default EmptyString (ISAUrl connectionOptions))
        (zoneId connectionOptions)
        (default 0 (opt_serverId connectionOptions)) in
    match gatewayInit with
    | Resolve _ => (Return true, [call Resolved; MonitorServerStatus])
    | Reject status => (Throw (Rejection status), [call (Rejected status)])
    end.

End Quantel.

(** ** The CasparCG projector *)

Module CasparCG.

(** A value of a property that the device passes on without looking at
    its type. *)
Inductive Val :=
| Undefined
| Num (n : Z)
| Str (s : string).

Definition truthy (v : Val) : bool :=
  match v with
  | Undefined => false
  | Num n => negb (n =? 0)
  | Str s => negb (String.eqb s EmptyString)
  end.

(** [a || b] *)
Definition or_else (a b : Val) : Val := if truthy a then a else b.

(** *** Timeline objects of the device *)

Inductive TimelineContentTypeCasparCg :=
| MEDIA | IP | INPUT | TEMPLATE | HTMLPAGE | ROUTE | RECORD | OTHER.

#[export] Instance TimelineContentTypeCasparCg_eq_dec :
  EqDecision TimelineContentTypeCasparCg.
Proof. solve_decision. Defined.

(** A transition of [content.transitions]. *)
Record TimelineTransition := {
  t_type : Val;
  t_duration : Val;
  t_maskFile : Val;
  t_easing : Val;
  t_delay : Val;
  t_direction : Val;
  t_overlayFile : Val;
}.

Record TimelineTransitions := {
  c_inTransition : option TimelineTransition;
  c_outTransition : option TimelineTransition;
}.

(** The content of a timeline object: the properties that
    [convertStateToCaspar] reads, for every content type.  A property
    the object does not have is [None]. *)
Record Content := {
  c_type : TimelineContentTypeCasparCg;
  c_file : option string;
  c_noStarttime : option bool;
  c_loop : option bool;
  c_seek : option Z;
  c_inPoint : option Z;
  c_length : option Z;
  c_pauseTime : option Z;
  c_playing : option bool;
  c_channelLayout : option string;
  c_uri : option string;
  c_device : option Z;
  c_name : option string;
  c_templateType : option string;
  c_data : option string;
  c_useStopCommand : option bool;
  c_url : option string;
  c_mappedLayer : option string;
  c_channel : option Z;
  c_layer : option Z;
  c_mode : option string;
  c_encoderOptions : option string;
  c_transitions : option TimelineTransitions;
  c_mixer : option (list (string * Val));
}.

(** [ResolvedTimelineObjectInstanceExtended]; [start] is
    [instance.start]. *)
Record ResolvedTimelineObjectInstanceExtended := {
  id : string;
  content : Content;
  start : Z;
  isLookahead : option bool;
  lookaheadForLayer : option string;
}.

Record TimelineState := {
  time : Z;
  layers : list (string * ResolvedTimelineObjectInstanceExtended);
}.

(** *** The state of the casparcg-state library *)

Inductive LayerContentType :=
| L_MEDIA | L_TEMPLATE | L_HTMLPAGE | L_INPUT | L_ROUTE | L_RECORD | L_NOTHING.

#[export] Instance LayerContentType_eq_dec : EqDecision LayerContentType.
Proof. solve_decision. Defined.

(** [StateNS.Transition], by the arguments of its constructor. *)
Record Transition := {
  tr_type : Val;
  tr_duration : Val;
  tr_easing : Val;
  tr_direction : Val;
}.

(** The [media] of a layer: a name (none on an empty layer), or a
    [StateNS.TransitionObject] around it. *)
Inductive Media :=
| MediaName (name : option string)
| TransitionObject (name : option string)
    (inTransition outTransition : option Transition).

Record Route := {
  r_channel : Z;
  r_layer : option Z;
  r_channelLayout : option string;
}.

Record Input := {
  i_device : option Z;
  i_channelLayout : option string;
}.

(** The properties of a layer of the state, [nextUp] apart: the union of
    [IMediaLayer], [IInputLayer], [ITemplateLayer], [IHtmlPageLayer],
    [IRouteLayer], [IRecordLayer] and [IEmptyLayer]. *)
Record ILayerBase := {
  layerNo : Z;
  l_content : LayerContentType;
  media : Media;
  playing : bool;
  playTime : option Z;
  pauseTime : option Z;
  looping : option bool;
  seek : option Z;
  inPoint : option Z;
  length : option Z;
  channelLayout : option string;
  input : option Input;
  templateType : option string;
  templateData : option string;
  cgStop : option bool;
  route : option Route;
  l_mode : option string;
  encoderOptions : option string;
  mixer : option (list (string * Val));
  auto : option bool;
}.

(** A layer of a channel: its own properties and the [nextUp] slot. *)
Record ILayer := {
  base : ILayerBase;
  nextUp : option ILayerBase;
}.

(** [StateNS.Channel]; [fps] is in frames per millisecond, a fraction. *)
Record Channel := {
  channelNo : option Z;
  fps : option (Z * Z);
  ch_layers : gmap Z ILayer;
}.

(** [new StateNS.Channel()] *)
Definition newChannel : Channel :=
  {| channelNo := None; fps := None; ch_layers := ∅ |}.

(** [StateNS.State] *)
Record State := {
  channels : gmap Z Channel;
}.

(** A layer with the properties every kind of layer has, the others
    absent. *)
Definition plainLayer (layerNo : Z) (c : LayerContentType) (media : option string)
    (playing : bool) (playTime pauseTime : option Z) : ILayerBase :=
  {| layerNo := layerNo; l_content := c; media := MediaName media;
     playing := playing; playTime := playTime; pauseTime := pauseTime;
     looping := None; seek := None; inPoint := None; length := None;
     channelLayout := None; input := None; templateType := None;
     templateData := None; cgStop := None; route := None; l_mode := None;
     encoderOptions := None; mixer := None; auto := None |}.

(** The [IEmptyLayer] that the projector writes in two places. *)
Definition emptyLayer (layerNo : Z) : ILayerBase :=
  plainLayer layerNo L_NOTHING None false None (Some 0).

(** *** The projector *)

(** The condition on the mapping found for a layer; it gives the
    [MappingCasparCG] that the projector builds, as channel and layer. *)
Definition casparMapping (foundMapping : Mapping) : option (Z * Z) :=
  if bool_decide (device foundMapping = CASPARCG)
  then match channel foundMapping, layer foundMapping with
       | Some c, Some l => Some (c, l)
       | _, _ => None
       end
  else None.

(** The mapping of a layer: its own, or for a lookahead object for
    which [this.getMapping()[layerName]] is falsy, the mapping of the
    layer it looks ahead for.  A member of [Object.prototype] found at
    either read is truthy and has no [device]: the projector goes on
    with it and the condition on the mapping fails, as it does when
    nothing is found. *)
Definition findMapping (mappings : Mappings) (layerName : string)
    (layerExt : ResolvedTimelineObjectInstanceExtended) : option Mapping :=
  match JSObject.read mappings layerName with
  | JSObject.Own foundMapping => Some foundMapping
  | JSObject.Inherited => None
  | JSObject.Missing =>
      if truthy_bool (isLookahead layerExt)
         && truthy_string (lookaheadForLayer layerExt)
      then
        match JSObject.read mappings
                (default EmptyString (lookaheadForLayer layerExt)) with
        | JSObject.Own foundMapping => Some foundMapping
        | JSObject.Inherited | JSObject.Missing => None
        end
      else None
  end.

(** The layer of the state for a timeline object, by content type;
    [None] when no appropriate layer could be created.  For a route with
    a [mappedLayer] the code writes the channel and the layer of that
    mapping into the content of the timeline object and reads them back;
    here they are read from the mapping.  A member of [Object.prototype]
    found as that mapping has neither. *)
Definition layerOfContent (mappings : Mappings) (layerNo : Z)
    (layer : ResolvedTimelineObjectInstanceExtended) : option ILayerBase :=
  let c := content layer in
  match c_type c with
  | MEDIA =>
      Some {| layerNo := layerNo; l_content := L_MEDIA;
              media := MediaName (c_file c);
              playTime :=
                if truthy_bool (c_noStarttime c)
                   || (truthy_bool (c_loop c)
                       && negb (truthy_number (c_seek c))
                       && negb (truthy_number (c_inPoint c))
                       && negb (truthy_number (c_length c)))
                then None
                else or_null (Some (start layer));
              pauseTime := or_null (c_pauseTime c);
              playing := default true (c_playing c);
              looping := c_loop c; seek := c_seek c; inPoint := c_inPoint c;
              length := c_length c; channelLayout := c_channelLayout c;
              input := None; templateType := None; templateData := None;
              cgStop := None; route := None; l_mode := None;
              encoderOptions := None; mixer := None; auto := None |}
  | IP =>
      Some {| layerNo := layerNo; l_content := L_MEDIA;
              media := MediaName (c_uri c);
              channelLayout := c_channelLayout c;
              playTime := None; playing := true; seek := Some 0;
              pauseTime := None; looping := None; inPoint := None;
              length := None; input := None; templateType := None;
              templateData := None; cgStop := None; route := None;
              l_mode := None; encoderOptions := None; mixer := None;
              auto := None |}
  | INPUT =>
      Some {| layerNo := layerNo; l_content := L_INPUT;
              media := MediaName (Some "decklink");
              input := Some {| i_device := c_device c;
                               i_channelLayout := c_channelLayout c |};
              playing := true; playTime := None;
              pauseTime := None; looping := None; seek := None;
              inPoint := None; length := None; channelLayout := None;
              templateType := None; templateData := None; cgStop := None;
              route := None; l_mode := None; encoderOptions := None;
              mixer := None; auto := None |}
  | TEMPLATE =>
      Some {| layerNo := layerNo; l_content := L_TEMPLATE;
              media := MediaName (c_name c);
              playTime := or_null (Some (start layer)); playing := true;
              templateType :=
                if truthy_string (c_templateType c) then c_templateType c
                else Some "html";
              templateData := c_data c; cgStop := c_useStopCommand c;
              pauseTime := None; looping := None; seek := None;
              inPoint := None; length := None; channelLayout := None;
              input := None; route := None; l_mode := None;
              encoderOptions := None; mixer := None; auto := None |}
  | HTMLPAGE =>
      Some (plainLayer layerNo L_HTMLPAGE (c_url c) true
              (or_null (Some (start layer))) None)
  | ROUTE =>
      let routeMapping :=
        if truthy_string (c_mappedLayer c)
        then JSObject.read mappings (default EmptyString (c_mappedLayer c))
        else JSObject.Missing in
      let routeChannel :=
        match routeMapping with
        | JSObject.Own m => channel m
        | JSObject.Inherited => None
        | JSObject.Missing => c_channel c
        end in
      let routeLayer :=
        match routeMapping with
        | JSObject.Own m => mappingLayer m
        | JSObject.Inherited => None
        | JSObject.Missing => c_layer c
        end in
      Some {| layerNo := layerNo; l_content := L_ROUTE;
              media := MediaName (Some "route");
              route := Some {| r_channel := default 0 (or_null routeChannel);
                               r_layer := routeLayer;
                               r_channelLayout := c_channelLayout c |};
              l_mode := if truthy_string (c_mode c) then c_mode c else None;
              playing := true; playTime := None;
              pauseTime := None; looping := None; seek := None;
              inPoint := None; length := None; channelLayout := None;
              input := None; templateType := None; templateData := None;
              cgStop := None; encoderOptions := None; mixer := None;
              auto := None |}
  | RECORD =>
      if start layer =? 0 then None
      else
        Some {| layerNo := layerNo; l_content := L_RECORD;
                media := MediaName (c_file c);
                encoderOptions := c_encoderOptions c;
                playing := true; playTime := Some (start layer);
                pauseTime := None; looping := None; seek := None;
                inPoint := None; length := None; channelLayout := None;
                input := None; templateType := None; templateData := None;
                cgStop := None; route := None; l_mode := None; mixer := None;
                auto := None |}
  | OTHER => None
  end.

(** [new StateNS.Transition(...)] for a transition of the content. *)
Definition transitionOf (t : TimelineTransition) : Transition :=
  {| tr_type := t_type t;
     tr_duration := or_else (t_duration t) (t_maskFile t);
     tr_easing := or_else (t_easing t) (t_delay t);
     tr_direction := or_else (t_direction t) (t_overlayFile t) |}.

Definition set_media (v : Media) (l : ILayerBase) : ILayerBase :=
  {| layerNo := layerNo l; l_content := l_content l; media := v;
     playing := playing l; playTime := playTime l; pauseTime := pauseTime l;
     looping := looping l; seek := seek l; inPoint := inPoint l;
     length := length l; channelLayout := channelLayout l; input := input l;
     templateType := templateType l; templateData := templateData l;
     cgStop := cgStop l; route := route l; l_mode := l_mode l;
     encoderOptions := encoderOptions l; mixer := mixer l; auto := auto l |}.

Definition set_mixer (v : option (list (string * Val))) (l : ILayerBase)
    : ILayerBase :=
  {| layerNo := layerNo l; l_content := l_content l; media := media l;
     playing := playing l; playTime := playTime l; pauseTime := pauseTime l;
     looping := looping l; seek := seek l; inPoint := inPoint l;
     length := length l; channelLayout := channelLayout l; input := input l;
     templateType := templateType l; templateData := templateData l;
     cgStop := cgStop l; route := route l; l_mode := l_mode l;
     encoderOptions := encoderOptions l; mixer := v; auto := auto l |}.

Definition set_layerNo (v : Z) (l : ILayerBase) : ILayerBase :=
  {| layerNo := v; l_content := l_content l; media := media l;
     playing := playing l; playTime := playTime l; pauseTime := pauseTime l;
     looping := looping l; seek := seek l; inPoint := inPoint l;
     length := length l; channelLayout := channelLayout l; input := input l;
     templateType := templateType l; templateData := templateData l;
     cgStop := cgStop l; route := route l; l_mode := l_mode l;
     encoderOptions := encoderOptions l; mixer := mixer l; auto := auto l |}.

Definition set_auto (v : option bool) (l : ILayerBase) : ILayerBase :=
  {| layerNo := layerNo l; l_content := l_content l; media := media l;
     playing := playing l; playTime := playTime l; pauseTime := pauseTime l;
     looping := looping l; seek := seek l; inPoint := inPoint l;
     length := length l; channelLayout := channelLayout l; input := input l;
     templateType := templateType l; templateData := templateData l;
     cgStop := cgStop l; route := route l; l_mode := l_mode l;
     encoderOptions := encoderOptions l; mixer := mixer l; auto := v |}.

(** The name under [stateLayer.media] before the transitions go on it. *)
Definition mediaName (m : Media) : option string :=
  match m with
  | MediaName name => name
  | TransitionObject name _ _ => name
  end.

(** The transitions of the content, put on the layer. *)
Definition addTransitions (c : Content) (stateLayer : ILayerBase) : ILayerBase :=
  match c_transitions c with
  | Some transitions =>
      match c_type c with
      | MEDIA | IP | TEMPLATE | INPUT | ROUTE =>
          set_media
            (TransitionObject (mediaName (media stateLayer))
               (transitionOf <$> c_inTransition transitions)
               (transitionOf <$> c_outTransition transitions))
            stateLayer
      | _ => stateLayer
      end
  | None => stateLayer
  end.

(** The mixer properties of the content, passed through.  The
    assignment [mixer[property] = value] makes no property for the name
    [__proto__]. *)
Definition addMixer (c : Content) (stateLayer : ILayerBase) : ILayerBase :=
  match c_mixer c with
  | Some properties =>
      set_mixer
        (Some (foldl (fun mixer kv =>
                        if String.eqb (fst kv) "__proto__" then mixer
                        else JSObject.set mixer (fst kv) (snd kv))
                 [] properties))
        stateLayer
  | None => stateLayer
  end.

(** The layer that the projector places for a timeline object. *)
Definition stateLayerOf (mappings : Mappings) (layerNo : Z)
    (layer : ResolvedTimelineObjectInstanceExtended) : ILayerBase :=
  let stateLayer :=
    match layerOfContent mappings layerNo layer with
    | Some l => l
    | None => emptyLayer layerNo
    end in
  set_layerNo layerNo
    (addMixer (content layer) (addTransitions (content layer) stateLayer)).

(** The end of the loop body: a foreground object replaces the layer and
    keeps its [nextUp]; a lookahead object becomes the [nextUp] of the
    layer, or of a new empty layer. *)
Definition placeLayer (layerExt : ResolvedTimelineObjectInstanceExtended)
    (layerNo : Z) (stateLayer : ILayerBase) (channelLayers : gmap Z ILayer)
    : gmap Z ILayer :=
  if negb (truthy_bool (isLookahead layerExt))
  then
    let prev := channelLayers !! layerNo in
    <[layerNo := {| base := stateLayer; nextUp := prev ≫= nextUp |}]> channelLayers
  else
    let s := set_auto (Some false) stateLayer in
    match channelLayers !! layerNo with
    | None =>
        <[layerNo := {| base := emptyLayer layerNo; nextUp := Some s |}]>
          channelLayers
    | Some res =>
        <[layerNo := {| base := base res; nextUp := Some s |}]> channelLayers
    end.

(** The body of the loop of [convertStateToCaspar]. *)
Definition convertLayer (mappings : Mappings) (caspar : State)
    (entry : string * ResolvedTimelineObjectInstanceExtended) : State :=
  let (layerName, layerExt) := entry in
  match findMapping mappings layerName layerExt with
  | Some foundMapping =>
      match casparMapping foundMapping with
      | Some (mappingChannel, mappingLayer) =>
          let channel :=
            match channels caspar !! mappingChannel with
            | Some channel => channel
            | None => newChannel
            end in
          let channelNo := if mappingChannel =? 0 then 1 else mappingChannel in
          let stateLayer := stateLayerOf mappings mappingLayer layerExt in
          {| channels :=
               <[channelNo :=
                   {| channelNo := Some channelNo;
                      fps := Some (25, 1000);
                      ch_layers :=
                        placeLayer layerExt mappingLayer stateLayer
                          (ch_layers channel) |}]>
                 (channels caspar) |}
      | None => caspar
      end
  | None => caspar
  end.

(** [CasparCGDevice.convertStateToCaspar] *)
Definition convertStateToCaspar (mappings : Mappings)
    (timelineState : TimelineState) : State :=
  foldl (convertLayer mappings) {| channels := ∅ |} (layers timelineState).

End CasparCG.

(** ** The CasparCG device: scheduled commands *)

Module CasparCGQueue.

(** An AMCP command, as far as the device looks at it. *)
Record IAMCPCommand (Payload : Type) := {
  name : string;
  channel : option Z;
  layer : option Z;
  payload : Payload;
}.
Arguments name {Payload} _.
Arguments channel {Payload} _.
Arguments layer {Payload} _.
Arguments payload {Payload} _.

(** An entry of [this._queue]. *)
Record QueueEntry (Payload : Type) := {
  q_time : Z;
  q_command : IAMCPCommand Payload;
}.
Arguments q_time {Payload} _.
Arguments q_command {Payload} _.

(** What the device hands to [_doCommand] or to the [DoOnTime] queue.
    [ScheduleSet] holds the time and the channel that its timecode is
    computed from. *)
Inductive Sent (Payload : Type) :=
| Do (command : IAMCPCommand Payload)
| ScheduleSet (token : string) (time : Z) (channel : option Z)
    (command : IAMCPCommand Payload)
| ScheduleRemove (token : string)
| DoOnTimeQueue (time : Z) (command : IAMCPCommand Payload)
| ClearQueueNowAndAfter (time : Z).
Arguments Do {Payload} _.
Arguments ScheduleSet {Payload} _ _ _ _.
Arguments ScheduleRemove {Payload} _.
Arguments DoOnTimeQueue {Payload} _ _.
Arguments ClearQueueNowAndAfter {Payload} _.

(** [delete obj[key]] *)
Fixpoint remove {V : Type} (obj : list (string * V)) (key : string)
  : list (string * V) :=
  match obj with
  | [] => []
  | (k, v) :: rest =>
      if String.eqb k key then rest else (k, v) :: remove rest key
  end.

(** [s.substr(-n)]: the last [n] characters of [s], all of [s] when it
    has fewer. *)
Definition substr_last (n : nat) (s : string) : string :=
  String.substring (String.length s - n) n s.

Section Queue.
Context {CommandVO Payload : Type}.
(** [_.isEqual] on payloads, [AMCPUtil.deSerialize(cmd, 'id')] and
    [Number.prototype.toString(36)]. *)
Variable isEqual : Payload → Payload → bool.
Variable deSerialize : CommandVO → IAMCPCommand Payload.
Variable toString36 : Z → string.

(** The condition of the inner loop of [_clearScheduledFutureCommands]. *)
Definition sameCommand (q : QueueEntry Payload) (cmd : CommandVO) : bool :=
  let command := deSerialize cmd in
  String.eqb (name command) (name (q_command q))
  && bool_decide (channel command = channel (q_command q))
  && bool_decide (layer command = layer (q_command q))
  && isEqual (payload command) (payload (q_command q)).

(** The inner loop: the index of the last command that is the one of the
    queue entry. *)
Definition matchingCommandI (q : QueueEntry Payload)
    (commandsToSendNow : list CommandVO) : option nat :=
  foldl (fun found ic => if sameCommand q (snd ic) then Some (fst ic) else found)
    None (zip (seq 0 (List.length commandsToSendNow)) commandsToSendNow).

(** The body of the loop of [_clearScheduledFutureCommands], on the
    queue, the commands to send and what was sent. *)
Definition clearEntry (now time : Z)
    (acc : list (string * QueueEntry Payload) * list CommandVO * list (Sent Payload))
    (entry : string * QueueEntry Payload)
    : list (string * QueueEntry Payload) * list CommandVO * list (Sent Payload) :=
  let '(queue, commandsToSendNow, sent) := acc in
  let (token, q) := entry in
  if q_time q <? now
  then (remove queue token, commandsToSendNow, sent)
  else if q_time q >=? time
  then
    match (if q_time q =? time then matchingCommandI q commandsToSendNow
           else None) with
    | Some i => (queue, delete i commandsToSendNow, sent)
    | None =>
        (remove queue token, commandsToSendNow, sent ++ [ScheduleRemove token])
    end
  else (queue, commandsToSendNow, sent).

(** [CasparCGDevice._clearScheduledFutureCommands]; [now] is what
    [getCurrentTime] returns.  It gives the queue and the commands to
    send as it leaves them, and what it sent. *)
Definition _clearScheduledFutureCommands (now : Z)
    (queue : list (string * QueueEntry Payload)) (time : Z)
    (commandsToSendNow : list CommandVO)
    : list (string * QueueEntry Payload) * list CommandVO * list (Sent Payload) :=
  foldl (clearEntry now time) (queue, commandsToSendNow, []) queue.

(** The token of the [i]-th scheduled command of a call of
    [_addToQueue]. *)
Definition tokenOf (time : Z) (i : nat) : string :=
  substr_last 8 (toString36 time) +:+ "_" +:+ substr_last 4 ("000" +:+ pretty i).

(** The body of the loop of [_addToQueue], on the queue, the counter [i]
    and what was sent. *)
Definition addCommand (_useScheduling : option bool) (now time : Z)
    (acc : list (string * QueueEntry Payload) * nat * list (Sent Payload))
    (cmd : CommandVO)
    : list (string * QueueEntry Payload) * nat * list (Sent Payload) :=
  let '(queue, i, sent) := acc in
  let command := deSerialize cmd in
  if truthy_bool _useScheduling
  then
    if time <=? now
    then (queue, i, sent ++ [Do command])
    else
      let token := tokenOf time i in
      (JSObject.set queue token {| q_time := time; q_command := command |},
       S i,
       sent ++ [ScheduleSet token time (channel command) command])
  else (queue, i, sent ++ [DoOnTimeQueue time command]).

(** [CasparCGDevice._addToQueue] *)
Definition _addToQueue (_useScheduling : option bool) (now : Z)
    (queue : list (string * QueueEntry Payload))
    (commandsToAchieveState : list CommandVO) (time : Z)
    : list (string * QueueEntry Payload) * list (Sent Payload) :=
  let '(queue', _, sent) :=
    foldl (addCommand _useScheduling now time) (queue, 0%nat, [])
      commandsToAchieveState in
  (queue', sent).

(** [this._ccgState.diffStatesOrderedCommands] of the casparcg-state
    library. *)
Variable diffStatesOrderedCommands :
  CasparCG.State → CasparCG.State → Z → list CommandVO.

(** What [handleState] does besides the commands. *)
Inductive Handled :=
| EmitWarning (message : string)
| Command (sent : Sent Payload)
| SetState (newState : CasparCG.TimelineState) (time : Z).

(** [CasparCGDevice.handleState]: the queue afterwards, and what the
    device did.  [isInitialised] is [this._ccgState.isInitialised];
    [getStateBefore] is the method of the base class, which looks up the
    stored state for a time; [nowHandle], [nowClear] and [nowAdd] are the
    current time at the start, when the queue is cleared, and when the
    commands are added. *)
Definition handleState (isInitialised : bool) (mappings : Mappings)
    (_useScheduling : option bool)
    (getStateBefore : Z → option CasparCG.TimelineState)
    (nowHandle nowClear nowAdd : Z)
    (queue : list (string * QueueEntry Payload))
    (newState : CasparCG.TimelineState)
    : list (string * QueueEntry Payload) * list Handled :=
  if negb isInitialised
  then (queue, [EmitWarning "CasparCG State not initialized yet"])
  else
    let previousStateTime := Z.max nowHandle (CasparCG.time newState) in
    let oldState :=
      default {| CasparCG.time := 0; CasparCG.layers := [] |}
        (getStateBefore previousStateTime) in
    let newCasparState := CasparCG.convertStateToCaspar mappings newState in
    let oldCasparState := CasparCG.convertStateToCaspar mappings oldState in
    let commandsToAchieveState :=
      diffStatesOrderedCommands oldCasparState newCasparState
        (CasparCG.time newState) in
    let '(queue1, commands, sent1) :=
      if truthy_bool _useScheduling
      then _clearScheduledFutureCommands nowClear queue (CasparCG.time newState)
             commandsToAchieveState
      else (queue, commandsToAchieveState,
            [ClearQueueNowAndAfter previousStateTime]) in
    let (queue2, sent2) :=
      _addToQueue _useScheduling nowAdd queue1 commands (CasparCG.time newState) in
    (queue2,
     map Command (sent1 ++ sent2)
     ++ [SetState newState (CasparCG.time newState)]).

End Queue.

End CasparCGQueue.

(** ** The CasparCG device: making ready *)

Module CasparCGReady.

Definition MAX_TIMESYNC_TRIES : Z := 5.
Definition MAX_TIMESYNC_DURATION : Z := 40.

(** What [makeReady] does, in order.  [TimeCommand] holds the channel
    and the time that its timecode is computed from. *)
Inductive Event :=
| InfoCommand
| TimeCommand (channel : Z) (startTime : Z)
| Wait (ms : Z)
| EmitError (message : string)
| ClearCommand (channel : Z)
| ClearStates.

#[export] Instance Event_eq_dec : EqDecision Event.
Proof. solve_decision. Defined.

Definition tookTooLong : string :=
  "CasparCG Time command took too long (" +:+ pretty MAX_TIMESYNC_TRIES
  +:+ " tries took longer than " +:+ pretty MAX_TIMESYNC_DURATION
  +:+ "ms), channel will be slightly out of sync!".

(** [attemptSync] of [makeReady], with the default command receiver,
    which settles whatever CasparCG replies.  [clock n] gives, for the
    [n]-th TIME command that the device sends, the current time when it
    is sent and the time that has passed when it has settled.  The
    result is what was done and the number of TIME commands sent so far;
    [None] when the recursion is deeper than [fuel]. *)
Fixpoint attemptSync (fuel : nat) (clock : nat → Z * Z) (n : nat)
    (channelNo tries : Z) : option (list Event * nat) :=
  match fuel with
  | O => None
  | S fuel' =>
      let startTime := fst (clock n) in
      let duration := snd (clock n) in
      if duration >? MAX_TIMESYNC_DURATION
      then
        if tries >? MAX_TIMESYNC_TRIES
        then Some ([TimeCommand channelNo startTime; EmitError tookTooLong], S n)
        else
          match attemptSync fuel' clock (S n) channelNo (tries + 1) with
          | Some (events, n') =>
              Some (TimeCommand channelNo startTime :: Wait MAX_TIMESYNC_DURATION
                    :: events, n')
          | None => None
          end
      else Some ([TimeCommand channelNo startTime], S n)
  end.

(** The loop over the channels that syncs them one after the other. *)
Fixpoint syncChannels (fuel : nat) (clock : nat → Z * Z) (n : nat)
    (channels : list Z) : option (list Event * nat) :=
  match channels with
  | [] => Some ([], n)
  | channelNo :: rest =>
      match attemptSync fuel clock n channelNo 1 with
      | Some (events, n') =>
          match syncChannels fuel clock n' rest with
          | Some (events', n'') => Some (events ++ events', n'')
          | None => None
          end
      | None => None
      end
  end.

(** How [this._ccg.info()] settles: with the channel numbers of its
    response, or rejected. *)
Inductive InfoResponse :=
| InfoData (channels : list Z)
| InfoRejected.

(** [CasparCGDevice.makeReady]; it throws what [info] was rejected
    with. *)
Definition makeReady (fuel : nat) (info : InfoResponse)
    (_useScheduling : option bool) (clock : nat → Z * Z)
    (okToDestroyStuff : option bool)
    : option (result unit unit * list Event) :=
  match info with
  | InfoRejected => Some (Throw (), [InfoCommand])
  | InfoData channels =>
      match (if truthy_bool _useScheduling
             then syncChannels fuel clock 0 channels
             else Some ([], 0%nat)) with
      | Some (synced, _) =>
          Some (Return (),
                InfoCommand :: synced
                ++ (if truthy_bool okToDestroyStuff
                    then map ClearCommand channels else [])
                ++ (if truthy_bool okToDestroyStuff then [ClearStates] else []))
      | None => None
      end
  end.

End CasparCGReady.

(** ** Sample data

    A payload type for the HTTP sender and runtime functions on it, used
    to run the devices on concrete input. *)

Module Samples.

Inductive TimelineContentTypeHTTP := GET | POST | PUT | DELETE.

#[global] Instance TimelineContentTypeHTTP_eq_dec :
  EqDecision TimelineContentTypeHTTP.
Proof. solve_decision. Defined.

Record Payload := {
  type : TimelineContentTypeHTTP;
  url : string;
  params : list (string * Z);
  p_temporalPriority : option Z;
  p_queueId : option string;
}.

#[global] Instance Payload_eq_dec : EqDecision Payload.
Proof. solve_decision. Defined.

#[global] Instance Payload_content : HTTPSend.HTTPSendCommandContent Payload :=
  {| HTTPSend.temporalPriority := p_temporalPriority;
     HTTPSend.queueId := p_queueId |}.

(** Deep equality of two payloads of this shape. *)
Definition isEqual (a b : Payload) : bool := bool_decide (a = b).

(** A fingerprint that tells apart the payloads of the samples. *)
Definition fingerprint (c : Payload) : string :=
  url c +:+ "?" +:+ pretty (default 0 (p_temporalPriority c)).

(** The comparison of two strings by code units, which is what
    [localeCompare] gives on the layer names of the samples. *)
Fixpoint codeUnitCompare (a b : string) : Z :=
  match a, b with
  | EmptyString, EmptyString => 0
  | EmptyString, String _ _ => -1
  | String _ _, EmptyString => 1
  | String x a', String y b' =>
      let d := Z.of_N (Ascii.N_of_ascii x) - Z.of_N (Ascii.N_of_ascii y) in
      if d =? 0 then codeUnitCompare a' b' else d
  end.

Definition post (u : string) (priority : option Z) : Payload :=
  {| type := POST; url := u; params := [("a", 1)];
     p_temporalPriority := priority; p_queueId := None |}.

Definition object (i : string) (c : Payload)
    : HTTPSend.ResolvedTimelineObjectInstance Payload :=
  {| HTTPSend.id := i; HTTPSend.content := c |}.

Definition state (t : Z)
    (l : list (string * HTTPSend.ResolvedTimelineObjectInstance Payload))
    : HTTPSend.TimelineState Payload :=
  {| HTTPSend.time := t; HTTPSend.layers := l; HTTPSend.nextEvents := [] |}.

End Samples.

(** * Properties *)

(** ** Dictionaries *)

Module JSObjectFacts.
Import JSObject.

Lemma get_None_not_key {V : Type} (obj : list (string * V)) (key : string) :
  get obj key = None ↔ key ∉ keys obj.
Proof.
  induction obj as [|[k v] obj IH]; simpl.
  - split; [intros _; apply not_elem_of_nil | done].
  - destruct (String.eqb_spec k key) as [->|Hne].
    + split; [done | intros Hn; exfalso; apply Hn; left].
    + rewrite IH, not_elem_of_cons.
      split; [intros ?; split; congruence | intros [_ ?]; done].
Qed.

Lemma get_Some_elem {V : Type} (obj : list (string * V)) (key : string) (v : V) :
  get obj key = Some v → (key, v) ∈ obj.
Proof.
  induction obj as [|[k w] obj IH]; simpl; [done|].
  destruct (String.eqb_spec k key) as [->|Hne].
  - intros [= ->]. left.
  - intros Hg. right. auto.
Qed.

Lemma elem_get_Some {V : Type} (obj : list (string * V)) (key : string) (v : V) :
  NoDup (keys obj) → (key, v) ∈ obj → get obj key = Some v.
Proof.
  induction obj as [|[k w] obj IH]; simpl; intros Hnd Hin.
  - by apply elem_of_nil in Hin.
  - apply NoDup_cons in Hnd as [Hk Hnd].
    apply elem_of_cons in Hin as [[= -> ->]|Hin].
    + by rewrite String.eqb_refl.
    + destruct (String.eqb_spec k key) as [->|Hne]; [|auto].
      exfalso. apply Hk. change key with (fst (key, v)).
      by apply list_elem_of_fmap_2.
Qed.

(** A read of an own property gives its value. *)
Lemma read_own {V : Type} (obj : list (string * V)) (key : string) (v : V) :
  get obj key = Some v → read obj key = Own v.
Proof. unfold read. by intros ->. Qed.

(** A read of a name that is not of [Object.prototype] sees the own
    properties only. *)
Lemma read_ordinary {V : Type} (obj : list (string * V)) (key : string) :
  inherited key = false →
  read obj key = match get obj key with
                 | Some v => Own v
                 | None => Missing
                 end.
Proof. unfold read. by intros ->. Qed.

Lemma read_None {V : Type} (obj : list (string * V)) (key : string) :
  get obj key = None →
  read obj key = if inherited key then Inherited else Missing.
Proof. unfold read. by intros ->. Qed.

Lemma filter_all {C : Type} (P : C → Prop) `{∀ c, Decision (P c)} (l : list C) :
  Forall P l → filter P l = l.
Proof.
  induction 1 as [|c l Hc _ IH]; [done|].
  by rewrite filter_cons_True, IH.
Qed.

Lemma filter_none {C : Type} (P : C → Prop) `{∀ c, Decision (P c)} (l : list C) :
  Forall (λ c, ¬ P c) l → filter P l = [].
Proof.
  induction 1 as [|c l Hc _ IH]; [done|].
  by rewrite filter_cons_False.
Qed.

(** For an object whose names are distinct, the commands of one name
    among those that a loop over the object collects are the commands of
    the iteration for that name. *)
Lemma filter_flat_map_key {V C : Type} (name : C → string)
    (f : string * V → list C) (obj : list (string * V)) (key : string) :
  (∀ k v c, c ∈ f (k, v) → name c = k) →
  NoDup (keys obj) →
  filter (λ c, name c = key) (flat_map f obj)
  = match get obj key with
    | Some v => f (key, v)
    | None => []
    end.
Proof.
  intros Hname. induction obj as [|[k v] obj IH]; simpl; intros Hnd; [done|].
  apply NoDup_cons in Hnd as [Hk Hnd].
  rewrite filter_app, IH by done.
  destruct (String.eqb_spec k key) as [->|Hne].
  - apply get_None_not_key in Hk. rewrite Hk, app_nil_r.
    apply filter_all, Forall_forall. eauto.
  - replace (filter _ (f (k, v))) with (@nil C); [done|].
    symmetry. apply filter_none, Forall_forall.
    intros c Hc Heq. apply Hne. rewrite <- Heq. symmetry. eauto.
Qed.

End JSObjectFacts.

(** ** Sorting *)

Module JSArrayFacts.
Import JSArray.

Section Sorting.
Context {A : Type}.

Lemma insert_Permutation (compareFn : A → A → Z) (x : A) (l : list A) :
  insert compareFn x l ≡ₚ x :: l.
Proof.
  induction l as [|y l IH]; simpl; [done|].
  destruct (compareFn x y <=? 0); [done|].
  rewrite IH. apply Permutation_swap.
Qed.

Lemma sort_Permutation (compareFn : A → A → Z) (l : list A) :
  sort compareFn l ≡ₚ l.
Proof.
  induction l as [|x l IH]; simpl; [done|].
  unfold sort in *. simpl. by rewrite insert_Permutation, IH.
Qed.

(** A consistent comparator: the relation [compareFn a b ≤ 0] is total
    and transitive. *)
Definition consistent (compareFn : A → A → Z) : Prop :=
  (∀ a b, compareFn a b ≤ 0 ∨ compareFn b a ≤ 0)
  ∧ (∀ a b c, compareFn a b ≤ 0 → compareFn b c ≤ 0 → compareFn a c ≤ 0).

Lemma insert_sorted (compareFn : A → A → Z) (x : A) (l : list A) :
  consistent compareFn →
  StronglySorted (λ a b, compareFn a b ≤ 0) l →
  StronglySorted (λ a b, compareFn a b ≤ 0) (insert compareFn x l).
Proof.
  intros [Htotal Htrans]. induction l as [|y l IH]; simpl; intros Hs.
  - repeat constructor.
  - apply StronglySorted_cons in Hs as [Hy Hs].
    destruct (Z.leb_spec (compareFn x y) 0) as [Hle|Hgt].
    + apply StronglySorted_cons. split.
      * constructor; [done|]. eapply Forall_impl; [exact Hy|].
        intros z Hz. eauto.
      * by apply StronglySorted_cons.
    + apply StronglySorted_cons. split; [|auto].
      rewrite insert_Permutation. constructor; [|done].
      destruct (Htotal x y); [lia | done].
Qed.

Lemma sort_sorted (compareFn : A → A → Z) (l : list A) :
  consistent compareFn →
  StronglySorted (λ a b, compareFn a b ≤ 0) (sort compareFn l).
Proof.
  intros Hc. induction l as [|x l IH]; [constructor|].
  unfold sort in *. simpl. by apply insert_sorted.
Qed.

(** Sorting by a numeric key keeps the order that the array had among
    the elements of equal key. *)
Definition by_key_then (key : A → Z) (R : A → A → Prop) (a b : A) : Prop :=
  key a < key b ∨ (key a = key b ∧ R a b).

Lemma insert_by_key (key : A → Z) (R : A → A → Prop) (x : A) (l : list A) :
  Forall (R x) l →
  StronglySorted (by_key_then key R) l →
  StronglySorted (by_key_then key R) (insert (λ a b, key a - key b) x l).
Proof.
  induction l as [|y l IH]; simpl; intros Hx Hs.
  - repeat constructor.
  - apply Forall_cons in Hx as [Hxy Hx].
    apply StronglySorted_cons in Hs as [Hy Hs].
    destruct (Z.leb_spec (key x - key y) 0) as [Hle|Hgt].
    + apply StronglySorted_cons. split; [|by apply StronglySorted_cons].
      constructor.
      * unfold by_key_then. destruct (decide (key x = key y)); [auto | left; lia].
      * rewrite Forall_forall in Hx, Hy |- *. intros z Hz.
        specialize (Hx z Hz). specialize (Hy z Hz).
        unfold by_key_then in *.
        destruct (decide (key x = key z)); [auto | left; lia].
    + apply StronglySorted_cons. split; [|auto].
      rewrite insert_Permutation. constructor; [|done].
      left. lia.
Qed.

Lemma sort_by_key (key : A → Z) (R : A → A → Prop) (l : list A) :
  StronglySorted R l →
  StronglySorted (by_key_then key R) (sort (λ a b, key a - key b) l).
Proof.
  induction l as [|x l IH]; intros Hs; [constructor|].
  apply StronglySorted_cons in Hs as [Hx Hs].
  unfold sort in *. simpl. apply insert_by_key; [|auto].
  fold (sort (λ a b, key a - key b) l). by rewrite sort_Permutation.
Qed.

End Sorting.
End JSArrayFacts.

(** ** The HTTP sender *)

Module HTTPSendFacts.
Import HTTPSend JSObject JSArray JSObjectFacts JSArrayFacts.

Lemma codeUnitCompare_consistent :
  consistent (λ a b : string, Samples.codeUnitCompare a b).
Proof.
  split.
  - intros a. induction a as [|x a IH]; intros [|y b]; simpl; try lia.
    destruct (Z.eqb_spec (Z.of_N (Ascii.N_of_ascii x) - Z.of_N (Ascii.N_of_ascii y)) 0)
      as [He|Hne].
    + replace (Z.of_N (Ascii.N_of_ascii y) - Z.of_N (Ascii.N_of_ascii x)) with 0 by lia.
      simpl. apply IH.
    + destruct (Z.eqb_spec (Z.of_N (Ascii.N_of_ascii y) - Z.of_N (Ascii.N_of_ascii x)) 0);
        lia.
  - intros a. induction a as [|x a IH]; intros [|y b] [|z c]; simpl; try lia.
    destruct (Z.eqb_spec (Z.of_N (Ascii.N_of_ascii x) - Z.of_N (Ascii.N_of_ascii y)) 0),
             (Z.eqb_spec (Z.of_N (Ascii.N_of_ascii y) - Z.of_N (Ascii.N_of_ascii z)) 0),
             (Z.eqb_spec (Z.of_N (Ascii.N_of_ascii x) - Z.of_N (Ascii.N_of_ascii z)) 0);
      try lia.
    apply IH.
Qed.

Section Differ.
Context {Content : Type} `{HTTPSendCommandContent Content}.
Variable isEqual : Content → Content → bool.
Variable localeCompare : string → string → Z.

Lemma diffNewLayer_layer oldLayers k v (c : Command Content) :
  c ∈ diffNewLayer isEqual oldLayers (k, v) → HTTPSend.layer c = k.
Proof.
  unfold diffNewLayer. destruct (read oldLayers k) as [o| |].
  - destruct (isEqual _ _); simpl; [intros Hc; by apply elem_of_nil in Hc|].
    intros ->%list_elem_of_singleton. done.
  - intros ->%list_elem_of_singleton. done.
  - intros ->%list_elem_of_singleton. done.
Qed.

Lemma diffOldLayer_layer newLayers k v (c : Command Content) :
  c ∈ diffOldLayer newLayers (k, v) → HTTPSend.layer c = k.
Proof.
  unfold diffOldLayer. destruct (read newLayers k) as [n| |].
  - intros Hc. by apply elem_of_nil in Hc.
  - intros Hc. by apply elem_of_nil in Hc.
  - intros ->%list_elem_of_singleton. done.
Qed.

(** The order of the commands that [_diffStates] returns. *)
Definition inOrder (a b : Command Content) : Prop :=
  priority a < priority b
  ∨ (priority a = priority b
     ∧ localeCompare (HTTPSend.layer a) (HTTPSend.layer b) ≤ 0).

(** The commands of a layer name, for layer objects with distinct
    names. *)
Lemma diffStates_by_layer (oldState newState : TimelineState Content) layerKey :
  NoDup (keys (layers oldState)) →
  NoDup (keys (layers newState)) →
  filter (λ c, HTTPSend.layer c = layerKey)
    (_diffStates isEqual localeCompare oldState newState)
  = match get (layers newState) layerKey, get (layers oldState) layerKey with
    | Some newLayer, Some oldLayer =>
        if isEqual (content oldLayer) (content newLayer) then []
        else [changedCommand layerKey (id oldLayer) newLayer]
    | Some newLayer, None =>
        if inherited layerKey then [changedCommand layerKey "undefined" newLayer]
        else [addedCommand layerKey newLayer]
    | None, Some oldLayer =>
        if inherited layerKey then [] else [removedCommand layerKey oldLayer]
    | None, None => []
    end.
Proof.
  intros Hold Hnew. unfold _diffStates.
  assert (Hperm : ∀ l1 l2 : list (Command Content),
             l1 ≡ₚ l2 → (List.length l2 ≤ 1)%nat → l1 = l2).
  { intros l1 l2 Hp Hl. destruct l2 as [|c [|c' l2]]; simpl in Hl; [| |lia].
    - by apply Permutation_nil_r.
    - by apply Permutation_singleton_r. }
  apply Hperm.
  - rewrite !sort_Permutation, filter_app.
    rewrite (filter_flat_map_key HTTPSend.layer) by
      (done || intros ???; apply diffNewLayer_layer).
    rewrite (filter_flat_map_key HTTPSend.layer) by
      (done || intros ???; apply diffOldLayer_layer).
    unfold diffNewLayer, diffOldLayer, read.
    destruct (get (layers newState) layerKey) as [n|],
             (get (layers oldState) layerKey) as [o|],
             (inherited layerKey); simpl; try done;
      destruct (isEqual _ _); done.
  - destruct (get (layers newState) layerKey) as [n|],
             (get (layers oldState) layerKey) as [o|],
             (inherited layerKey); simpl; try lia;
      destruct (isEqual _ _); simpl; lia.
Qed.

Lemma diffStates_sorted (oldState newState : TimelineState Content) :
  consistent localeCompare →
  StronglySorted inOrder (_diffStates isEqual localeCompare oldState newState).
Proof.
  intros [Ht Htr]. unfold _diffStates, byTemporalPriority.
  apply (sort_by_key priority
           (λ a b, localeCompare (HTTPSend.layer a) (HTTPSend.layer b) ≤ 0)).
  apply (sort_sorted (byLayer localeCompare)). split; unfold byLayer; eauto.
Qed.

(** X30.  The commands of [_diffStates], layer by layer, and their order,
    for two states whose layer objects have distinct names and a
    consistent [localeCompare].  A name that both states have gets a
    [changed] command, with the content and the id of the new object,
    when [_.isEqual] tells the two contents apart, and no command when it
    does not.  A name that only the new state has gets an [added]
    command, and a name that only the old state has a [removed] command
    with the content and the id of the old object; unless the name is
    one of [Object.prototype], for which the lookup in the other state
    finds the inherited member: then the new object gets a [changed]
    command that says [previously: undefined], and the old object gets
    no command.  A name in neither state gets none.  The list is in
    ascending order of [temporalPriority] (0 when absent), commands of
    equal priority in the order of [localeCompare] on their layer
    names. *)
Theorem diffStates_layer_by_layer (oldState newState : TimelineState Content) :
  consistent localeCompare →
  NoDup (keys (layers oldState)) →
  NoDup (keys (layers newState)) →
  let commands := _diffStates isEqual localeCompare oldState newState in
  (∀ layerKey,
     filter (λ c, HTTPSend.layer c = layerKey) commands
     = match get (layers newState) layerKey, get (layers oldState) layerKey with
       | Some newLayer, Some oldLayer =>
           if isEqual (content oldLayer) (content newLayer) then []
           else [ {| commandName := changed;
                     cmd_content := content newLayer;
                     context := "changed: " +:+ id newLayer +:+ " (previously: "
                                  +:+ id oldLayer +:+ ")";
                     timelineObjId := id newLayer;
                     HTTPSend.layer := layerKey |} ]
       | Some newLayer, None =>
           if inherited layerKey
           then [ {| commandName := changed;
                     cmd_content := content newLayer;
                     context := "changed: " +:+ id newLayer
                                  +:+ " (previously: undefined)";
                     timelineObjId := id newLayer;
                     HTTPSend.layer := layerKey |} ]
           else [ {| commandName := added;
                     cmd_content := content newLayer;
                     context := "added: " +:+ id newLayer;
                     timelineObjId := id newLayer;
                     HTTPSend.layer := layerKey |} ]
       | None, Some oldLayer =>
           if inherited layerKey then []
           else [ {| commandName := removed;
                     cmd_content := content oldLayer;
                     context := "removed: " +:+ id oldLayer;
                     timelineObjId := id oldLayer;
                     HTTPSend.layer := layerKey |} ]
       | None, None => []
       end)
  ∧ StronglySorted
      (λ a b,
         let pa := default 0 (temporalPriority (cmd_content a)) in
         let pb := default 0 (temporalPriority (cmd_content b)) in
         pa < pb
         ∨ (pa = pb ∧ localeCompare (HTTPSend.layer a) (HTTPSend.layer b) ≤ 0))
      commands.
Proof.
  intros Hcons Hold Hnew. cbv zeta. split.
  - intros layerKey. rewrite diffStates_by_layer by done.
    destruct (get (layers newState) layerKey) as [n|],
             (get (layers oldState) layerKey) as [o|]; done.
  - exact (diffStates_sorted oldState newState Hcons).
Qed.

End Differ.

Definition scenario_old : TimelineState Samples.Payload :=
  Samples.state 0
    [("L0", Samples.object "o0" (Samples.post "http://w" None));
     ("L3", Samples.object "o3" (Samples.post "http://z" (Some 1)));
     ("L4", Samples.object "o5" (Samples.post "http://v" (Some 1)))].

Definition scenario_new : TimelineState Samples.Payload :=
  Samples.state 1000
    [("L1", Samples.object "o1" (Samples.post "http://x" (Some 2)));
     ("L2", Samples.object "o2" (Samples.post "http://y" (Some 0)));
     ("L3", Samples.object "o4" (Samples.post "http://z" (Some 1)));
     ("L4", Samples.object "o6" (Samples.post "http://u" (Some 1)))].

(** The scenario of two added layers with priorities 2 and 0, next to a
    removed layer, an unchanged one and a changed one. *)
Example http_diffStates_scenario :
  map (λ c, (commandName c, HTTPSend.layer c))
    (_diffStates Samples.isEqual Samples.codeUnitCompare scenario_old scenario_new)
  = [(removed, "L0"); (added, "L2"); (changed, "L4"); (added, "L1")].
Proof. reflexivity. Qed.

Lemma diffStates_layer_by_layer_witness :
  let commands :=
    _diffStates Samples.isEqual Samples.codeUnitCompare scenario_old scenario_new in
  (∀ layerKey,
     filter (λ c, HTTPSend.layer c = layerKey) commands
     = match get (layers scenario_new) layerKey,
             get (layers scenario_old) layerKey with
       | Some newLayer, Some oldLayer =>
           if Samples.isEqual (content oldLayer) (content newLayer) then []
           else [ {| commandName := changed;
                     cmd_content := content newLayer;
                     context := "changed: " +:+ id newLayer +:+ " (previously: "
                                  +:+ id oldLayer +:+ ")";
                     timelineObjId := id newLayer;
                     HTTPSend.layer := layerKey |} ]
       | Some newLayer, None =>
           if inherited layerKey
           then [ {| commandName := changed;
                     cmd_content := content newLayer;
                     context := "changed: " +:+ id newLayer
                                  +:+ " (previously: undefined)";
                     timelineObjId := id newLayer;
                     HTTPSend.layer := layerKey |} ]
           else [ {| commandName := added;
                     cmd_content := content newLayer;
                     context := "added: " +:+ id newLayer;
                     timelineObjId := id newLayer;
                     HTTPSend.layer := layerKey |} ]
       | None, Some oldLayer =>
           if inherited layerKey then []
           else [ {| commandName := removed;
                     cmd_content := content oldLayer;
                     context := "removed: " +:+ id oldLayer;
                     timelineObjId := id oldLayer;
                     HTTPSend.layer := layerKey |} ]
       | None, None => []
       end)
  ∧ StronglySorted
      (λ a b,
         let pa := default 0 (temporalPriority (cmd_content a)) in
         let pb := default 0 (temporalPriority (cmd_content b)) in
         pa < pb
         ∨ (pa = pb ∧ Samples.codeUnitCompare (HTTPSend.layer a) (HTTPSend.layer b) ≤ 0))
      commands.
Proof.
  apply (diffStates_layer_by_layer Samples.isEqual Samples.codeUnitCompare
           scenario_old scenario_new).
  - exact codeUnitCompare_consistent.
  - apply (bool_decide_unpack _). vm_compute. exact I.
  - apply (bool_decide_unpack _). vm_compute. exact I.
Defined.

(** *** A layer named like a member of [Object.prototype] *)

Definition onlyLayer (name : string) : TimelineState Samples.Payload :=
  Samples.state 1000
    [(name, Samples.object "o1" (Samples.post "http://x" None))].

(** C1, where the code departs from it.  A layer that is in the new
    state only gets a [changed] command, not an [added] one, when its
    name is [toString]: the lookup of the name in the old state finds
    the member of [Object.prototype].  In the same way a layer of that
    name that is in the old state only gets no [removed] command.  Under
    the name [L1] the same objects get the [added] and the [removed]
    command of the claim. *)
Theorem inherited_layer_name_is_not_added :
  _diffStates Samples.isEqual Samples.codeUnitCompare
    (Samples.state 0 []) (onlyLayer "toString")
  = [ {| commandName := changed;
         cmd_content := Samples.post "http://x" None;
         context := "changed: o1 (previously: undefined)";
         timelineObjId := "o1";
         HTTPSend.layer := "toString" |} ]
  ∧ _diffStates Samples.isEqual Samples.codeUnitCompare
      (onlyLayer "toString") (Samples.state 2000 [])
    = []
  ∧ _diffStates Samples.isEqual Samples.codeUnitCompare
      (Samples.state 0 []) (onlyLayer "L1")
    = [ {| commandName := added;
           cmd_content := Samples.post "http://x" None;
           context := "added: o1";
           timelineObjId := "o1";
           HTTPSend.layer := "L1" |} ]
  ∧ _diffStates Samples.isEqual Samples.codeUnitCompare
      (onlyLayer "L1") (Samples.state 2000 [])
    = [ {| commandName := removed;
           cmd_content := Samples.post "http://x" None;
           context := "removed: o1";
           timelineObjId := "o1";
           HTTPSend.layer := "L1" |} ].
Proof. repeat split; vm_compute; reflexivity. Qed.

(** *** The executor *)




Section Executor.
Context {Content : Type} `{HTTPSendCommandContent Content}.
Variable JSON_stringify : Content → string.





(** C6, as the code has it.  The receiver returns at once, without a
    request, exactly when a layer is given and the payload is not the one
    recorded for the layer in [activeLayers]; a payload that is the
    recorded one is sent, and so is every command without a layer. *)
Theorem receiver_drops_iff_fingerprint_differs (_resendTime : option Z)
    (script : list Attempt) (activeLayers : gmap string string)
    (cmd : Content) (context timelineObjId : string) (layer : option string) :
  let events :=
    _defaultCommandReceiver JSON_stringify _resendTime script activeLayers
      cmd context timelineObjId layer in
  let differs :=
    ∃ l, layer = Some l ∧ l ≠ EmptyString
         ∧ activeLayers !! l ≠ Some (JSON_stringify cmd) in
  (differs → events = [])
  ∧ (¬ differs → events !! 1%nat = Some (HttpReq cmd)).
Proof.
  simpl. split.
  - intros (l & -> & Hl & Hne).
    destruct script; simpl; unfold stillRelevant; simpl;
      destruct (String.eqb_spec l EmptyString); try done; simpl;
      rewrite bool_decide_false by done; done.
  - intros Hn.
    assert (stillRelevant JSON_stringify activeLayers cmd layer = true) as Hrel.
    { unfold stillRelevant. destruct layer as [l|]; simpl; [|done].
      destruct (String.eqb_spec l EmptyString); simpl; [done|].
      apply bool_decide_eq_true. destruct (decide (activeLayers !! l
        = Some (JSON_stringify cmd))); [done|]. exfalso. apply Hn. eauto. }
    destruct script; simpl; rewrite Hrel; done.
Qed.

(** C10.  The callback queued for a [removed] command deletes the
    fingerprint of the layer and returns [null], without a call of the
    command receiver; on a device with the default receiver nothing is
    emitted and no request is sent. *)
Theorem removed_never_sends (device : Device Content) (script : list Attempt)
    (entry : QueueEntry Content) :
  commandName (q_cmd entry) = removed →
  queuedCallback JSON_stringify (q_time entry) (q_cmd entry) (activeLayers device)
  = (delete (HTTPSend.layer (q_cmd entry)) (activeLayers device), ReturnNull)
  ∧ fire JSON_stringify device script entry
    = (delete (HTTPSend.layer (q_cmd entry)) (activeLayers device), []).
Proof.
  intros Hname. unfold fire, queuedCallback. by rewrite Hname.
Qed.

End Executor.


Definition ok200 : Attempt :=
  {| outcome := Response 200; elapsed := 0; meanwhile := λ a, a |}.

Definition resend500 : HTTPSendOptions Samples.Payload :=
  {| makeReadyCommands := None; makeReadyDoesReset := None;
     resendTime := Some 500 |}.

Definition postX : Samples.Payload := Samples.post "http://x" None.

(** The default receiver of the sample device, for the command of the
    object [o1]. *)
Definition receive (script : list Attempt) (activeLayers : gmap string string)
    (layer : option string) : list (Event Samples.Payload) :=
  _defaultCommandReceiver Samples.fingerprint (_resendTime (init resend500))
    script activeLayers postX "added: o1" "o1" layer.



(** A command whose payload is the one recorded for its layer is sent. *)
Lemma unchanged_payload_is_sent :
  ({[ "L1" := Samples.fingerprint postX ]} : gmap string string) !! "L1"
  = Some (Samples.fingerprint postX)
  ∧ receive [ok200] {[ "L1" := Samples.fingerprint postX ]} (Some "L1")
    = [ EmitDebugCommand "added: o1" postX "o1"; HttpReq postX;
        EmitDebugGoodStatus 200 ].
Proof. split; reflexivity. Qed.

Definition removedL0 : QueueEntry Samples.Payload :=
  {| q_time := 1000; q_queueId := None;
     q_cmd := removedCommand "L0"
                (Samples.object "o0" (Samples.post "http://w" None)) |}.

Lemma removed_never_sends_witness :
  queuedCallback Samples.fingerprint 1000 (q_cmd removedL0)
    (activeLayers (init resend500))
  = (delete "L0" (activeLayers (init resend500)), ReturnNull)
  ∧ fire Samples.fingerprint (init resend500) [] removedL0
    = (delete "L0" (activeLayers (init resend500)), []).
Proof.
  exact (removed_never_sends Samples.fingerprint (init resend500) [] removedL0
           eq_refl).
Defined.

End HTTPSendFacts.

(** ** The Quantel device: projector and differ *)

Module QuantelFacts.
Import Quantel JSObject JSObjectFacts.

Lemma flat_map_nil {X Y : Type} (f : X → list Y) (l : list X) :
  Forall (λ x, f x = []) l → flat_map f l = [].
Proof.
  induction 1 as [|x l Hx _ IH]; simpl; [done|]. by rewrite Hx, IH.
Qed.

(** Every command of [_diffStates] has its type's time: the preparation
    time for [SETUPPORT], [LOADCLIPFRAGMENTS] and [RELEASEPORT], the time
    of the transition for the others. *)
Definition timeOfType (oldState : QuantelState) (time : Z)
    (type : QuantelCommandType) : Z :=
  match type with
  | SETUPPORT | LOADCLIPFRAGMENTS | RELEASEPORT => prepareTime oldState time
  | PLAYCLIP | PAUSECLIP | CLEARCLIP => time
  end.

Lemma diffNewPort_times oldState time entry cmd :
  cmd ∈ diffNewPort oldState time entry →
  cmd_time cmd = timeOfType oldState time (cmd_type cmd).
Proof.
  destruct entry as [portId newPort]. unfold diffNewPort.
  rewrite elem_of_app. intros [Hin|Hin].
  - destruct (match read (port oldState) portId with
              | Own _ => _ | Inherited => _ | Missing => _ end);
      [|by apply elem_of_nil in Hin].
    destruct (channels newPort) as [|channel ?]; [by apply elem_of_nil in Hin|].
    destruct (channel =? 0); [by apply elem_of_nil in Hin|].
    apply list_elem_of_singleton in Hin as ->. done.
  - destruct (match read (port oldState) portId with
              | Own _ => _ | Inherited => _ | Missing => _ end);
      [|by apply elem_of_nil in Hin].
    destruct (clip newPort) as [c|].
    + apply elem_of_cons in Hin as [->|Hin]; [done|].
      apply list_elem_of_singleton in Hin as ->. by destruct (playing c).
    + apply list_elem_of_singleton in Hin as ->. done.
Qed.

Lemma diffOldPort_times oldState newState time entry cmd :
  cmd ∈ diffOldPort oldState newState time entry →
  cmd_time cmd = timeOfType oldState time (cmd_type cmd).
Proof.
  destruct entry as [portId oldPort]. unfold diffOldPort.
  destruct (read (port newState) portId); intros Hin;
    [by apply elem_of_nil in Hin|by apply elem_of_nil in Hin|].
  apply list_elem_of_singleton in Hin as ->. done.
Qed.

(** C2, as the code has it.  A preparation command ([SETUPPORT],
    [LOADCLIPFRAGMENTS], [RELEASEPORT]) of [_diffStates] has the time
    [min(t, max(t - 1000, t0 + 50))], where [t0] is the time of the old
    state and [t] the time of the transition; [PLAYCLIP], [PAUSECLIP]
    and [CLEARCLIP] have the time [t].  The preparation time is never
    after [t]; it is [max(t0 + 50, t - 1000)] when [t0 + 50 <= t], and it
    is not before [t0] when [t0 <= t]. *)
Theorem diffStates_times (oldState newState : QuantelState) (t : Z)
    (cmd : QuantelCommand) :
  cmd ∈ _diffStates oldState newState t →
  let t0 := time oldState in
  let prepare := Z.min t (Z.max (t - 1000) (t0 + 50)) in
  (cmd_type cmd ∈ [SETUPPORT; LOADCLIPFRAGMENTS; RELEASEPORT] →
   cmd_time cmd = prepare)
  ∧ (cmd_type cmd ∈ [PLAYCLIP; PAUSECLIP; CLEARCLIP] → cmd_time cmd = t)
  ∧ prepare ≤ t
  ∧ (t0 + 50 ≤ t → prepare = Z.max (t0 + 50) (t - 1000))
  ∧ (t0 ≤ t → t0 ≤ prepare).
Proof.
  intros Hin. cbv zeta.
  assert (cmd_time cmd = timeOfType oldState t (cmd_type cmd)) as Htime.
  { unfold _diffStates in Hin. apply elem_of_app in Hin as [Hin|Hin];
      apply list_elem_of_In, in_flat_map in Hin as (entry & _ & Hin);
      apply list_elem_of_In in Hin.
    - by eapply diffNewPort_times.
    - by eapply diffOldPort_times. }
  rewrite Htime. unfold timeOfType, prepareTime, IDEAL_PREPARE_TIME,
    PREPARE_TIME_WAIT.
  repeat split; try lia.
  - destruct (cmd_type cmd); try done; intros Hty;
      repeat (apply elem_of_cons in Hty as [?|Hty]; [done|]);
      by apply elem_of_nil in Hty.
  - destruct (cmd_type cmd); try done; intros Hty;
      repeat (apply elem_of_cons in Hty as [?|Hty]; [done|]);
      by apply elem_of_nil in Hty.
Qed.

Definition newsClip : QuantelStatePortClip :=
  {| title := "NEWS"; clipId := None; playing := true; playTime := Some 10000;
     pauseTime := None; inPoint := None; length := None |}.

Definition portP1 : QuantelStatePort :=
  {| timelineObjId := "obj0"; clip := Some newsClip; port_mode := QUALITY;
     channels := [1] |}.

Definition emptyAt (t : Z) : QuantelState := {| time := t; port := [] |}.

Definition playNews (t : Z) : QuantelState :=
  {| time := t; port := [("P1", portP1)] |}.

(** The scenario of a port set up and played at 10000 from an empty
    state of time 0. *)
Example quantel_diffStates_scenario :
  _diffStates (emptyAt 0) (playNews 10000) 10000
  = [ SetupPort 9000 "P1" "obj0" 1;
      LoadClipFragments 9000 "P1" "obj0" newsClip 10000;
      PlayClip 10000 "P1" "obj0" newsClip QUALITY ].
Proof. reflexivity. Qed.

Lemma diffStates_times_witness :
  (cmd_type (SetupPort 9000 "P1" "obj0" 1)
     ∈ [SETUPPORT; LOADCLIPFRAGMENTS; RELEASEPORT] →
   cmd_time (SetupPort 9000 "P1" "obj0" 1)
   = Z.min 10000 (Z.max (10000 - 1000) (time (emptyAt 0) + 50)))
  ∧ (cmd_type (SetupPort 9000 "P1" "obj0" 1) ∈ [PLAYCLIP; PAUSECLIP; CLEARCLIP] →
     cmd_time (SetupPort 9000 "P1" "obj0" 1) = 10000)
  ∧ Z.min 10000 (Z.max (10000 - 1000) (time (emptyAt 0) + 50)) ≤ 10000
  ∧ (time (emptyAt 0) + 50 ≤ 10000 →
     Z.min 10000 (Z.max (10000 - 1000) (time (emptyAt 0) + 50))
     = Z.max (time (emptyAt 0) + 50) (10000 - 1000))
  ∧ (time (emptyAt 0) ≤ 10000 →
     time (emptyAt 0) ≤ Z.min 10000 (Z.max (10000 - 1000) (time (emptyAt 0) + 50))).
Proof.
  apply (diffStates_times (emptyAt 0) (playNews 10000) 10000
           (SetupPort 9000 "P1" "obj0" 1)).
  vm_compute. left.
Defined.

(** A transition at the time of the old state: the preparation commands
    have the time of the transition, which is before [t0 + 50]. *)
Lemma prepare_time_is_clamped :
  map (λ c, (cmd_type c, cmd_time c)) (_diffStates (emptyAt 1000) (playNews 1000) 1000)
  = [(SETUPPORT, 1000); (LOADCLIPFRAGMENTS, 1000); (PLAYCLIP, 1000)]
  ∧ Z.max (time (emptyAt 1000) + 50) (1000 - 1000) = 1050.
Proof. split; reflexivity. Qed.

(** A transition before the time of the old state: the preparation
    commands are before that time. *)
Example prepare_before_old_state :
  map (λ c, (cmd_type c, cmd_time c)) (_diffStates (emptyAt 5000) (playNews 4000) 4000)
  = [(SETUPPORT, 4000); (LOADCLIPFRAGMENTS, 4000); (PLAYCLIP, 4000)].
Proof. reflexivity. Qed.

(** The differ on a state against itself. *)
Lemma diffStates_self (state : QuantelState) (t : Z) :
  NoDup (keys (port state)) → _diffStates state state t = [].
Proof.
  intros Hnd. unfold _diffStates.
  rewrite !flat_map_nil; [done| |]; apply Forall_forall; intros [portId p] Hin.
  - unfold diffOldPort. by rewrite (read_own _ _ _ (elem_get_Some _ _ _ Hnd Hin)).
  - unfold diffNewPort. rewrite (read_own _ _ _ (elem_get_Some _ _ _ Hnd Hin)).
    by rewrite !bool_decide_true.
Qed.

(** *** The projector *)

(** Once a loop of the projector has thrown, nothing more happens. *)
Lemma foldl_portFromMapping_Throw e ms :
  foldl portFromMapping (Throw e) ms = Throw e.
Proof. induction ms as [|m ms IH]; [done|]. simpl. exact IH. Qed.

Lemma foldl_portFromLayer_Throw mappings e ls :
  foldl (portFromLayer mappings) (Throw e) ls = Throw e.
Proof. induction ls as [|[name l] ls IH]; [done|]. simpl. exact IH. Qed.

(** The layers that reach a port: the ones whose own mapping is a
    Quantel mapping with a port and a channel. *)
Definition quantelMapped (mappings : Mappings)
    (entry : string * ResolvedTimelineObjectInstance) : Prop :=
  is_Some (get mappings (fst entry) ≫= quantelMapping).

#[export] Instance quantelMapped_dec mappings entry : Decision (quantelMapped mappings entry).
Proof. unfold quantelMapped. apply _. Defined.




(** *** Initialisation *)

(** C9, as the code has it.  [init] throws before it contacts the
    gateway exactly when [gatewayUrl], [ISAUrl] or [serverId] is missing
    (or empty, or 0); otherwise it calls the gateway with the four
    options.  [zoneId] is not checked: it is passed on as it is, missing
    or not. *)
Theorem init_checks_three_options (gatewayInit : Reply unit)
    (connectionOptions : QuantelOptions) :
  let present :=
    truthy_string (gatewayUrl connectionOptions)
    && truthy_string (ISAUrl connectionOptions)
    && truthy_number (opt_serverId connectionOptions) in
  (present = false →
   ∃ message, init gatewayInit connectionOptions = (Throw (Error message), []))
  ∧ (present = true →
     ∃ g i s completion,
       gatewayUrl connectionOptions = Some g
       ∧ ISAUrl connectionOptions = Some i
       ∧ opt_serverId connectionOptions = Some s
       ∧ head (snd (init gatewayInit connectionOptions))
         = Some (GatewayInit g i (zoneId connectionOptions) s completion)).
Proof.
  cbv zeta. unfold init.
  destruct (gatewayUrl connectionOptions) as [g|]; simpl; [|split; [eauto|done]].
  destruct (String.eqb g EmptyString); simpl; [split; [eauto|done]|].
  destruct (ISAUrl connectionOptions) as [i|]; simpl; [|split; [eauto|done]].
  destruct (String.eqb i EmptyString); simpl; [split; [eauto|done]|].
  destruct (opt_serverId connectionOptions) as [s|]; simpl; [|split; [eauto|done]].
  destruct (s =? 0); simpl; [split; [eauto|done]|].
  split; [done|]. intros _. destruct gatewayInit; simpl; eauto 10.
Qed.

Definition withoutZone : QuantelOptions :=
  {| gatewayUrl := Some "http://gateway:3000"; ISAUrl := Some "isa.local";
     zoneId := None; opt_serverId := Some 1100 |}.

(** Without [zoneId], [init] goes on to the gateway. *)
Lemma init_without_zoneId :
  zoneId withoutZone = None
  ∧ init (Resolve ()) withoutZone
    = (Return true,
       [GatewayInit "http://gateway:3000" "isa.local" None 1100 Resolved;
        MonitorServerStatus]).
Proof. split; reflexivity. Qed.

End QuantelFacts.

(** ** The Quantel manager *)

Module QuantelManagerFacts.
Import Quantel.

(** The gateway call whose success a write to the tracked state
    records. *)
Definition records (op : GatewayOp) (field : TrackedField) : bool :=
  match op, field with
  | CreatePort, PortEntry
  | ReleasePortOp, PortDeleted
  | SearchClip, ClipIdOfTitle
  | LoadFragmentsOntoPort, FragmentsLoaded
  | PortClear, (JumpOffset | FragmentsCleared | ScheduledStop)
  | PortStop, (ScheduledStop | Playing)
  | PortPlay, (ScheduledStop | Playing)
  | PortPrepareJump, JumpOffset
  | PortTriggerJump, Offset => true
  | _, _ => false
  end.

(** The writes that come after the one call that is not awaited: the
    hard jump is followed by the offset of the jump and the playing
    flag. *)
Definition launches (op : GatewayOp) (field : TrackedField) : bool :=
  match op, field with
  | PortHardJump, (Offset | Playing) => true
  | _, _ => false
  end.

(** Where an operation stands: no gateway call has completed since it
    started or last waited; the call [op] has been acknowledged and only
    writes have happened since; or the hard jump has been sent without
    waiting for it, and only writes have happened since. *)
Inductive Standing :=
| Idle
| Acknowledged (op : GatewayOp)
| HardJumpSent.

(** The discipline of the writes.  A write comes after the awaited call
    that it records has resolved, with nothing but writes in between.
    Three things are set apart: the write that drops a stale prepared
    jump records no call; the delete of [releasePort] also follows a
    rejection with status 404; and the hard jump, the only call that may
    go without being awaited, is followed by the writes of the offset
    and of the playing flag, and by no other write.  After any other
    rejection nothing more happens. *)
Fixpoint disciplined (standing : Standing) (events : list Event) : bool :=
  match events with
  | [] => true
  | Awaited op Resolved :: rest => disciplined (Acknowledged op) rest
  | Awaited ReleasePortOp (Rejected (Some 404)) :: rest =>
      disciplined (Acknowledged ReleasePortOp) rest
  | Awaited _ (Rejected _) :: rest =>
      match rest with
      | [] => true
      | _ :: _ => false
      end
  | NotAwaited PortHardJump :: rest => disciplined HardJumpSent rest
  | NotAwaited _ :: _ => false
  | Write JumpInvalidated :: rest => disciplined standing rest
  | Write field :: rest =>
      match standing with
      | Acknowledged op => records op field && disciplined standing rest
      | HardJumpSent => launches PortHardJump field && disciplined standing rest
      | Idle => false
      end
  | Wait _ :: rest => disciplined Idle rest
  | CleanScheduled :: rest => disciplined standing rest
  end.

Definition isWrite (e : Event) : bool :=
  match e with
  | Write _ => true
  | _ => false
  end.

Section Manager.
Variable quantel : QuantelGateway.
Variable getCurrentTime : nat → Z.
Variable Date_now : nat → Z.

Ltac run :=
  unfold Cache_getSet;
  unfold try_catch, await, not_awaited, throw, writePort, readPort, wait,
    trackedPortOf, getTrackedPort, currentTime, Cache_exists, Cache_get,
    Cache_set;
  unfold write, called;
  unfold mbind, mret, Async_bind, Async_ret;
  simpl.

(** One step of a run: a case analysis on an innermost condition. *)
Ltac branch :=
  first
    [ match goal with
      | |- context [match ?x with _ => _ end] =>
          lazymatch x with
          | context [match _ with _ => _ end] => fail
          | _ => destruct x
          end
      end
    | match goal with
      | |- context [if ?b then _ else _] =>
          lazymatch type of b with
          | bool => destruct b
          end
      end ];
  simpl.

(** What holds of every run of an operation from the manager [m]: the
    writes follow the discipline, and the tracked state changes by
    writes only. *)
Definition orderly (m : Manager)
    (run : result Exception unit * Manager * list Event) : Prop :=
  disciplined Idle (snd run) = true
  ∧ (existsb isWrite (snd run) = false →
     _quantelState (snd (fst run)) = _quantelState m).

Ltac leaf := split; [reflexivity | first [reflexivity | discriminate]].

Lemma setupPort_orderly port channel m :
  orderly m (setupPort quantel port channel m).
Proof.
  unfold orderly, setupPort. run. repeat branch; leaf.
Qed.

Lemma releasePort_orderly port m :
  orderly m (releasePort quantel port m).
Proof.
  unfold orderly, releasePort. run. repeat branch; leaf.
Qed.

Lemma clearClip_orderly port m :
  orderly m (clearClip quantel port m).
Proof.
  unfold orderly, clearClip. run. repeat branch; leaf.
Qed.

Lemma loadClipFragments_orderly port clip timeOfPlay m :
  orderly m
    (loadClipFragments quantel getCurrentTime Date_now port clip timeOfPlay m).
Proof.
  unfold orderly, loadClipFragments, getClipId, getServer.
  run. repeat branch; leaf.
Qed.

Lemma prepareClipJump_orderly port clip mode alsoDoAction m :
  orderly m
    (prepareClipJump quantel getCurrentTime Date_now port clip mode
       alsoDoAction m).
Proof.
  unfold orderly, prepareClipJump, pausePlayback, triggerJump, getClipId,
    getServer.
  run. repeat branch; leaf.
Qed.

(** An operation with a single block of writes at its end changes
    nothing when it throws. *)
Lemma setupPort_all_or_nothing port channel m e :
  fst (fst (setupPort quantel port channel m)) = Throw e →
  _quantelState (snd (fst (setupPort quantel port channel m))) = _quantelState m.
Proof.
  unfold setupPort. run. repeat branch; first [reflexivity | discriminate].
Qed.

Lemma releasePort_all_or_nothing port m e :
  fst (fst (releasePort quantel port m)) = Throw e →
  _quantelState (snd (fst (releasePort quantel port m))) = _quantelState m.
Proof.
  unfold releasePort. run. repeat branch; first [reflexivity | discriminate].
Qed.

Lemma clearClip_all_or_nothing port m e :
  fst (fst (clearClip quantel port m)) = Throw e →
  _quantelState (snd (fst (clearClip quantel port m))) = _quantelState m.
Proof.
  unfold clearClip. run. repeat branch; first [reflexivity | discriminate].
Qed.

(** C3, as the code has it.  In every run of an operation of the
    manager, whatever the gateway replies: a write to the tracked state
    comes right after the awaited gateway call that it records has
    resolved (only other writes in between), and the tracked state
    changes by these writes only.  Three things are outside this rule:
    [prepareClipJump] drops a stale prepared jump ([jumpOffset = null])
    on its own judgement; [releasePort] deletes the entry also when the
    gateway rejects the release with status 404; and in the mode SPEED,
    without a prepared jump, [prepareClipJump] writes the offset and the
    playing flag right after the hard jump, the one call that it does
    not await.  When an awaited call is rejected otherwise, the operation
    stops at once: no later write happens, and the writes made after the
    earlier calls of the same operation stay.  [setupPort],
    [releasePort] and [clearClip] write at their end only, so when they
    throw the tracked state is as it was. *)
Theorem writes_follow_acknowledgement (cmd : QuantelCommand) (m : Manager) :
  orderly m (execute quantel getCurrentTime Date_now cmd m)
  ∧ (cmd_type cmd ∈ [SETUPPORT; RELEASEPORT; CLEARCLIP] →
     ∀ e, fst (fst (execute quantel getCurrentTime Date_now cmd m)) = Throw e →
          _quantelState (snd (fst (execute quantel getCurrentTime Date_now cmd m)))
          = _quantelState m).
Proof.
  split.
  - destruct cmd; simpl.
    + apply setupPort_orderly.
    + apply loadClipFragments_orderly.
    + apply prepareClipJump_orderly.
    + apply prepareClipJump_orderly.
    + apply clearClip_orderly.
    + apply releasePort_orderly.
  - destruct cmd; simpl; intros Hty e.
    + apply setupPort_all_or_nothing.
    + repeat (apply elem_of_cons in Hty as [?|Hty]; [done|]).
      by apply elem_of_nil in Hty.
    + repeat (apply elem_of_cons in Hty as [?|Hty]; [done|]).
      by apply elem_of_nil in Hty.
    + repeat (apply elem_of_cons in Hty as [?|Hty]; [done|]).
      by apply elem_of_nil in Hty.
    + apply clearClip_all_or_nothing.
    + apply releasePort_all_or_nothing.
Qed.

End Manager.

(** *** A run in which the preparation of the jump fails *)

Definition newsClipData : ClipData :=
  {| ClipID := 42; PoolID := Some 11; Frames := Some 500 |}.

(** A gateway that does what it is asked, except that it rejects
    [portPrepareJump]. *)
Definition noJumpGateway : QuantelGateway :=
  {| serverId := 1100;
     gw_getServer := λ _, Resolve (Some {| ident := 1100; pools := Some [11] |});
     gw_getPort := λ _ _, Resolve (Some {| endOfData := Some 100 |});
     gw_createPort := λ _ _ _, Resolve ();
     gw_releasePort := λ _ _, Resolve ();
     gw_searchClip := λ _ _, Resolve [newsClipData];
     gw_getClip := λ _ _, Resolve (Some newsClipData);
     gw_getClipFragments := λ _ _ _, Resolve [{| finish := 500 |}];
     gw_loadFragmentsOntoPort := λ _ _ _ _, Resolve (Some {| endOfData := Some 600 |});
     gw_portPrepareJump := λ _ _ _, Reject (Some 500);
     gw_portTriggerJump := λ _ _, Resolve ();
     gw_portHardJump := λ _ _ _, Resolve ();
     gw_portStop := λ _ _ _, Resolve ();
     gw_portPlay := λ _ _, Resolve ();
     gw_portClear := λ _ _, Resolve () |}.

(** The manager after [setupPort] of the port P1 on channel 1. *)
Definition managerWithP1 : Manager :=
  {| _quantelState :=
       {| ts_clipId := ∅;
          ts_port := {[ "P1" := {| loadedFragments := ∅; tp_channel := 1;
                                   offset := 0; tp_playing := false;
                                   jumpOffset := None; scheduledStop := None |} ]} |};
     _cache := {| data := ∅; callCount := 0 |};
     calls := 0 |}.

Definition failedLoad : result Exception unit * Manager * list Event :=
  loadClipFragments noJumpGateway (λ _, 9000) (λ _, 9000) "P1"
    QuantelFacts.newsClip 10000 managerWithP1.

(** [loadClipFragments] fails at [portPrepareJump]; the fragments it has
    loaded and the stop it has scheduled stay in the tracked state. *)
Lemma failed_load_leaves_writes :
  fst (fst failedLoad) = Throw (Rejection (Some 500))
  ∧ snd failedLoad
    = [ Awaited GetServer Resolved; Awaited GetServer Resolved;
        Awaited SearchClip Resolved; Write ClipIdOfTitle;
        Awaited GetClip Resolved; Awaited GetClipFragments Resolved;
        Awaited GetPort Resolved; Awaited LoadFragmentsOntoPort Resolved;
        Write FragmentsLoaded; Awaited PortStop Resolved; Write ScheduledStop;
        Awaited PortPrepareJump (Rejected (Some 500)) ]
  ∧ scheduledStop <$> ts_port (_quantelState managerWithP1) !! "P1" = Some None
  ∧ scheduledStop <$> ts_port (_quantelState (snd (fst failedLoad))) !! "P1"
    = Some (Some 99)
  ∧ (λ t, loadedFragments t !! 42) <$>
      ts_port (_quantelState (snd (fst failedLoad))) !! "P1"
    = Some (Some {| portInPoint := 100; portOutPoint := 599;
                    lf_inPoint := 0; lf_outPoint := 500 |}).
Proof. repeat split; vm_compute; reflexivity. Qed.

(** *** A hard jump *)

(** The manager with the fragments of the clip 42 on the port P1. *)
Definition managerWithClip : Manager :=
  {| _quantelState :=
       {| ts_clipId := ∅;
          ts_port :=
            {[ "P1" := {| loadedFragments :=
                            {[ 42 := {| portInPoint := 100; portOutPoint := 599;
                                        lf_inPoint := 0; lf_outPoint := 500 |} ]};
                          tp_channel := 1; offset := 0; tp_playing := false;
                          jumpOffset := None; scheduledStop := None |} ]} |};
     _cache := {| data := ∅; callCount := 0 |};
     calls := 0 |}.

Definition clip42 : QuantelStatePortClip :=
  {| title := "NEWS"; clipId := Some 42; playing := true; playTime := None;
     pauseTime := None; inPoint := None; length := None |}.

(** In the mode SPEED, without a prepared jump, [playClip] writes the
    offset and the playing flag after a hard jump that it does not
    await. *)
Example hard_jump_is_not_awaited :
  snd (playClip noJumpGateway (λ _, 9000) (λ _, 9000) "P1" clip42 SPEED
         managerWithClip)
  = [ NotAwaited PortHardJump; Write Offset; Write Playing;
      Awaited PortPlay Resolved; Write ScheduledStop; Write Playing;
      Awaited PortStop Resolved; Write ScheduledStop ].
Proof. vm_compute. reflexivity. Qed.

End QuantelManagerFacts.
(** ** The CasparCG projector *)

Module CasparCGFacts.
Import CasparCG JSObject.

(** The layers that reach the state: the ones whose mapping (their own,
    or the one they look ahead for) is a CasparCG mapping with a channel
    and a layer. *)
Definition casparMapped (mappings : Mappings)
    (entry : string * ResolvedTimelineObjectInstanceExtended) : Prop :=
  is_Some (findMapping mappings (fst entry) (snd entry) ≫= casparMapping).

#[export] Instance casparMapped_dec mappings entry : Decision (casparMapped mappings entry).
Proof. unfold casparMapped. apply _. Defined.



(** The layer of the state at a channel and a layer number. *)
Definition layerAt (caspar : State) (channel layerNo : Z) : option ILayer :=
  channels caspar !! channel ≫= λ ch, ch_layers ch !! layerNo.

(** On a channel other than 0, a lookahead object becomes the [nextUp]
    of the layer that is there, whose own properties stay; when no layer
    is there, of a new empty layer. *)
Lemma lookahead_is_placed_as_nextUp (mappings : Mappings) (caspar : State)
    (layerName : string) (layerExt : ResolvedTimelineObjectInstanceExtended)
    (foundMapping : Mapping) (channel layerNo : Z) :
  findMapping mappings layerName layerExt = Some foundMapping →
  casparMapping foundMapping = Some (channel, layerNo) →
  isLookahead layerExt = Some true →
  channel ≠ 0 →
  layerAt (convertLayer mappings caspar (layerName, layerExt)) channel layerNo
  = Some {| base := match layerAt caspar channel layerNo with
                    | Some foreground => base foreground
                    | None => emptyLayer layerNo
                    end;
            nextUp := Some (set_auto (Some false)
                              (stateLayerOf mappings layerNo layerExt)) |}.
Proof.
  intros Hfound Hmapping Hlook Hch. unfold convertLayer, layerAt.
  rewrite Hfound, Hmapping. destruct (Z.eqb_spec channel 0) as [|_]; [done|].
  simpl. rewrite lookup_insert_eq. simpl.
  unfold placeLayer. rewrite Hlook. simpl.
  destruct (channels caspar !! channel) as [ch|]; simpl.
  - destruct (ch_layers ch !! layerNo) as [res|]; by rewrite lookup_insert_eq.
  - rewrite lookup_empty. by rewrite lookup_insert_eq.
Qed.

(** On a channel other than 0, a foreground object replaces the own
    properties of the layer that is there and keeps its [nextUp]. *)
Lemma foreground_keeps_nextUp (mappings : Mappings) (caspar : State)
    (layerName : string) (layerExt : ResolvedTimelineObjectInstanceExtended)
    (foundMapping : Mapping) (channel layerNo : Z) :
  findMapping mappings layerName layerExt = Some foundMapping →
  casparMapping foundMapping = Some (channel, layerNo) →
  truthy_bool (isLookahead layerExt) = false →
  channel ≠ 0 →
  layerAt (convertLayer mappings caspar (layerName, layerExt)) channel layerNo
  = Some {| base := stateLayerOf mappings layerNo layerExt;
            nextUp := layerAt caspar channel layerNo ≫= nextUp |}.
Proof.
  intros Hfound Hmapping Hlook Hch. unfold convertLayer, layerAt.
  rewrite Hfound, Hmapping. destruct (Z.eqb_spec channel 0) as [|_]; [done|].
  simpl. rewrite lookup_insert_eq. simpl.
  unfold placeLayer. rewrite Hlook. simpl. rewrite lookup_insert_eq.
  destruct (channels caspar !! channel) as [ch|]; simpl; [done|].
  by rewrite lookup_empty.
Qed.

(** *** A mapping on channel 0 *)

Definition mediaContent (file : string) : Content :=
  {| c_type := MEDIA; c_file := Some file; c_noStarttime := None;
     c_loop := None; c_seek := None; c_inPoint := None; c_length := None;
     c_pauseTime := None; c_playing := None; c_channelLayout := None;
     c_uri := None; c_device := None; c_name := None; c_templateType := None;
     c_data := None; c_useStopCommand := None; c_url := None;
     c_mappedLayer := None; c_channel := None; c_layer := None; c_mode := None;
     c_encoderOptions := None; c_transitions := None; c_mixer := None |}.

Definition casparLayer (channel layerNo : Z) : Mapping :=
  {| device := CASPARCG; deviceId := "myCCG"; portId := None; channelId := None;
     mode := None; channel := Some channel; layer := Some layerNo |}.

(** A foreground object on the layer M1 and a lookahead object for it. *)
Definition foregroundAndLookahead : TimelineState :=
  {| time := 1000;
     layers :=
       [ ("M1", {| id := "obj0"; content := mediaContent "AMB"; start := 1000;
                   isLookahead := None; lookaheadForLayer := None |});
         ("M1_lookahead",
          {| id := "obj1"; content := mediaContent "NEXT"; start := 0;
             isLookahead := Some true; lookaheadForLayer := Some "M1" |}) ] |}.

(** With the mapping on channel 2 the foreground stays and takes the
    lookahead as [nextUp]. *)
Example lookahead_on_channel_2 :
  (λ l, (l_content (base l), media (base l), media <$> nextUp l)) <$>
    layerAt (convertStateToCaspar [("M1", casparLayer 2 10)] foregroundAndLookahead)
      2 10
  = Some (L_MEDIA, MediaName (Some "AMB"), Some (MediaName (Some "NEXT"))).
Proof. vm_compute. reflexivity. Qed.

(** C8, where the code departs from it.  With the mapping on channel 0
    the projector files the channel as channel 1 but looks it up as
    channel 0: the lookahead object does not find the foreground layer,
    and an empty layer with the lookahead as [nextUp] takes its place. *)
Theorem lookahead_replaces_foreground_on_channel_0 :
  (λ l, (l_content (base l), media (base l), playing (base l),
         media <$> nextUp l)) <$>
    layerAt (convertStateToCaspar [("M1", casparLayer 0 10)] foregroundAndLookahead)
      1 10
  = Some (L_NOTHING, MediaName None, false, Some (MediaName (Some "NEXT")))
  ∧ (λ l, (l_content (base l), media (base l))) <$>
      layerAt (convertStateToCaspar [("M1", casparLayer 0 10)]
                 {| time := 1000;
                    layers := take 1 (layers foregroundAndLookahead) |})
        1 10
    = Some (L_MEDIA, MediaName (Some "AMB")).
Proof. split; vm_compute; reflexivity. Qed.

End CasparCGFacts.

(** ** Properties that span the devices *)

Module DeviceFacts.
Import JSObject JSObjectFacts.

Lemma keys_replace {V : Type} (obj : list (string * V)) (key : string) (v : V) :
  keys (replace obj key v) = keys obj.
Proof.
  unfold keys. induction obj as [|[k w] obj IH]; simpl; [done|].
  destruct (String.eqb_spec k key); simpl; [done|]. by rewrite IH.
Qed.

Lemma keys_add {V : Type} (obj : list (string * V)) (key : string) (v : V) :
  keys (add obj key v) ≡ₚ key :: keys obj.
Proof.
  unfold keys. induction obj as [|[k w] obj IH]; simpl; [done|].
  destruct (precedes key k); simpl; [done|].
  rewrite IH. apply Permutation_swap.
Qed.

Lemma keys_set_NoDup {V : Type} (obj : list (string * V)) (key : string) (v : V) :
  NoDup (keys obj) → NoDup (keys (JSObject.set obj key v)).
Proof.
  intros Hnd. unfold JSObject.set. destruct (get obj key) eqn:Hget.
  - by rewrite keys_replace.
  - rewrite keys_add. apply NoDup_cons. split; [|done].
    by apply get_None_not_key.
Qed.

(** The ports of a state that the Quantel projector returns have
    distinct names. *)
Lemma convertStateToQuantel_NoDup mappings timelineState state :
  Quantel.convertStateToQuantel mappings timelineState = Return state →
  NoDup (keys (Quantel.port state)).
Proof.
  unfold Quantel.convertStateToQuantel.
  assert (Hports : ∀ ms ports final,
            NoDup (keys ports) →
            foldl Quantel.portFromMapping (Return ports) ms = Return final →
            NoDup (keys final)).
  { induction ms as [|m ms IH]; intros ports final Hnd; simpl.
    - by intros [= <-].
    - destruct (Quantel.quantelMapping m) as [[pid cid]|]; [|by apply IH].
      destruct (read ports pid) as [p| |].
      + apply IH. by apply keys_set_NoDup.
      + by rewrite QuantelFacts.foldl_portFromMapping_Throw.
      + apply IH. by apply keys_set_NoDup. }
  assert (Hlayers : ∀ ls ports final,
            NoDup (keys ports) →
            foldl (Quantel.portFromLayer mappings) (Return ports) ls = Return final →
            NoDup (keys final)).
  { induction ls as [|[name l] ls IH]; intros ports final Hnd; simpl.
    - by intros [= <-].
    - destruct (read mappings name) as [m| |]; [|by apply IH|by apply IH].
      destruct (Quantel.quantelMapping m) as [[pid cid]|]; [|by apply IH].
      destruct (read ports pid) as [p| |].
      + destruct (Quantel.clipOfLayer l); [|by apply IH].
        apply IH. by apply keys_set_NoDup.
      + by apply IH.
      + by rewrite QuantelFacts.foldl_portFromLayer_Throw. }
  destruct (foldl Quantel.portFromMapping _ _) as [ports1|e1] eqn:Hfold1;
    [|by rewrite QuantelFacts.foldl_portFromLayer_Throw].
  destruct (foldl (Quantel.portFromLayer mappings) _ _) as [final|e] eqn:Hfold;
    [|done].
  intros [= <-]. simpl. eapply Hlayers; [|exact Hfold].
  eapply Hports; [|exact Hfold1]. constructor.
Qed.

Section Differs.
Context {Content : Type} `{HTTPSend.HTTPSendCommandContent Content}.
Variable isEqual : Content → Content → bool.
Variable localeCompare : string → string → Z.

(** C4.  With [_.isEqual] reflexive and the names of a dictionary
    distinct, the differ of the HTTP sender and the differ of the
    Quantel device return no command for a state against itself, at any
    time; so does the Quantel differ for every state that its projector
    returns. *)
Theorem diff_of_a_state_with_itself
    (httpSendState : HTTPSend.TimelineState Content)
    (quantelState : Quantel.QuantelState) (t : Z) :
  (∀ c, isEqual c c = true) →
  NoDup (keys (HTTPSend.layers httpSendState)) →
  NoDup (keys (Quantel.port quantelState)) →
  HTTPSend._diffStates isEqual localeCompare httpSendState httpSendState = []
  ∧ Quantel._diffStates quantelState quantelState t = []
  ∧ (∀ mappings timelineState projected,
       Quantel.convertStateToQuantel mappings timelineState = Return projected →
       Quantel._diffStates projected projected t = []).
Proof.
  intros Hrefl Hhttp Hquantel. repeat split.
  - unfold HTTPSend._diffStates.
    rewrite !QuantelFacts.flat_map_nil; [done| |];
      apply Forall_forall; intros [layerKey l] Hin.
    + unfold HTTPSend.diffOldLayer.
      by rewrite (read_own _ _ _ (elem_get_Some _ _ _ Hhttp Hin)).
    + unfold HTTPSend.diffNewLayer.
      rewrite (read_own _ _ _ (elem_get_Some _ _ _ Hhttp Hin)).
      by rewrite Hrefl.
  - by apply QuantelFacts.diffStates_self.
  - intros mappings timelineState projected Hp.
    apply QuantelFacts.diffStates_self.
    by eapply convertStateToQuantel_NoDup.
Qed.


End Differs.

Lemma diff_of_a_state_with_itself_witness :
  HTTPSend._diffStates Samples.isEqual Samples.codeUnitCompare
    HTTPSendFacts.scenario_new HTTPSendFacts.scenario_new = []
  ∧ Quantel._diffStates (QuantelFacts.playNews 10000) (QuantelFacts.playNews 10000)
      12000 = []
  ∧ (∀ mappings timelineState projected,
       Quantel.convertStateToQuantel mappings timelineState = Return projected →
       Quantel._diffStates projected projected 12000 = []).
Proof.
  apply diff_of_a_state_with_itself.
  - intros c. unfold Samples.isEqual. by apply bool_decide_eq_true.
  - apply (bool_decide_unpack _). vm_compute. exact I.
  - apply (bool_decide_unpack _). vm_compute. exact I.
Defined.


End DeviceFacts.

(** * Further properties *)

(** ** Updates of dictionaries *)

Module JSObjectUpdateFacts.
Import JSObject JSObjectFacts.

Lemma get_replace {V : Type} (obj : list (string * V)) (key key' : string) (v : V) :
  get (replace obj key v) key'
  = if String.eqb key key' then (λ _, v) <$> get obj key else get obj key'.
Proof.
  induction obj as [|[k w] obj IH]; simpl.
  - by destruct (String.eqb key key').
  - destruct (String.eqb_spec k key) as [->|Hk]; simpl.
    + by destruct (String.eqb key key').
    + rewrite IH. destruct (String.eqb_spec k key') as [->|Hk'].
      * destruct (String.eqb_spec key key'); [congruence|done].
      * done.
Qed.

Lemma get_add {V : Type} (obj : list (string * V)) (key key' : string) (v : V) :
  get obj key = None →
  get (add obj key v) key' = if String.eqb key key' then Some v else get obj key'.
Proof.
  induction obj as [|[k w] obj IH]; simpl; intros Hnone.
  - done.
  - destruct (String.eqb_spec k key) as [->|Hk]; [done|].
    destruct (precedes key k); simpl.
    + destruct (String.eqb_spec key key'); [done|].
      done.
    + rewrite IH by done.
      destruct (String.eqb_spec k key') as [->|Hk'].
      * destruct (String.eqb_spec key key'); [congruence|done].
      * done.
Qed.

Lemma get_set {V : Type} (obj : list (string * V)) (key key' : string) (v : V) :
  get (JSObject.set obj key v) key'
  = if String.eqb key key' then Some v else get obj key'.
Proof.
  unfold JSObject.set. destruct (get obj key) eqn:Hg.
  - rewrite get_replace, Hg. by destruct (String.eqb key key').
  - by apply get_add.
Qed.

End JSObjectUpdateFacts.

(** ** More on the HTTP sender *)

Module HTTPSendOrderFacts.
Import HTTPSend JSObject JSArray JSObjectFacts JSArrayFacts HTTPSendFacts.

Lemma get_Permutation {V : Type} (obj obj' : list (string * V)) (key : string) :
  NoDup (keys obj) → obj ≡ₚ obj' → get obj key = get obj' key.
Proof.
  intros Hnd Hp.
  assert (Hnd' : NoDup (keys obj')) by (unfold keys in *; by rewrite <- Hp).
  destruct (get obj key) as [v|] eqn:Hg.
  - symmetry. apply elem_get_Some; [done|]. rewrite <- Hp.
    by apply get_Some_elem.
  - symmetry. apply get_None_not_key. apply get_None_not_key in Hg.
    unfold keys in *. by rewrite <- Hp.
Qed.

Lemma read_Permutation {V : Type} (obj obj' : list (string * V)) (key : string) :
  NoDup (keys obj) → obj ≡ₚ obj' → read obj key = read obj' key.
Proof.
  intros Hnd Hp. unfold read. by rewrite (get_Permutation obj obj' key Hnd Hp).
Qed.

Lemma flat_map_Permutation {X Y : Type} (f : X → list Y) (l l' : list X) :
  l ≡ₚ l' → flat_map f l ≡ₚ flat_map f l'.
Proof.
  induction 1 as [|x l l' _ IH|x y l|l1 l2 l3 _ IH1 _ IH2]; simpl.
  - done.
  - by rewrite IH.
  - rewrite !(assoc_L (++)). f_equiv. apply Permutation_app_comm.
  - by rewrite IH1.
Qed.

Section Order.
Context {Content : Type} `{HTTPSendCommandContent Content}.
Variable isEqual : Content → Content → bool.
Variable localeCompare : string → string → Z.

(** Two commands of one layer in the result are the same command. *)
Lemma diffStates_one_per_layer (oldState newState : TimelineState Content) c1 c2 :
  NoDup (keys (layers oldState)) →
  NoDup (keys (layers newState)) →
  c1 ∈ _diffStates isEqual localeCompare oldState newState →
  c2 ∈ _diffStates isEqual localeCompare oldState newState →
  HTTPSend.layer c1 = HTTPSend.layer c2 →
  c1 = c2.
Proof.
  intros Hold Hnew H1 H2 Hl.
  pose proof (diffStates_by_layer isEqual localeCompare oldState newState
                (HTTPSend.layer c1) Hold Hnew) as Hf.
  assert (c1 ∈ filter (λ c, HTTPSend.layer c = HTTPSend.layer c1)
            (_diffStates isEqual localeCompare oldState newState)) as Hc1
    by (by apply list_elem_of_filter).
  assert (c2 ∈ filter (λ c, HTTPSend.layer c = HTTPSend.layer c1)
            (_diffStates isEqual localeCompare oldState newState)) as Hc2
    by (by apply list_elem_of_filter).
  rewrite Hf in Hc1, Hc2.
  destruct (get (layers newState) _), (get (layers oldState) _);
    try destruct (inherited _);
    try destruct (isEqual _ _);
    repeat match goal with
           | H : _ ∈ [] |- _ => by apply elem_of_nil in H
           | H : _ ∈ [_] |- _ => apply list_elem_of_singleton in H
           end; congruence.
Qed.

(** X1.  The result of [_diffStates] does not depend on the order in
    which the layer objects enumerate their properties, when
    [localeCompare] is consistent and gives 0 on equal names only: two
    pairs of states with the same layers, in whatever order, have the
    same list of commands. *)
Theorem diffStates_order_of_layers
    (oldState newState oldState' newState' : TimelineState Content) :
  consistent localeCompare →
  (∀ a b, localeCompare a b ≤ 0 → localeCompare b a ≤ 0 → a = b) →
  NoDup (keys (layers oldState)) →
  NoDup (keys (layers newState)) →
  layers oldState ≡ₚ layers oldState' →
  layers newState ≡ₚ layers newState' →
  _diffStates isEqual localeCompare oldState newState
  = _diffStates isEqual localeCompare oldState' newState'.
Proof.
  intros Hcons Hanti Hold Hnew Hpo Hpn.
  assert (Hperm : _diffStates isEqual localeCompare oldState newState
                  ≡ₚ _diffStates isEqual localeCompare oldState' newState').
  { unfold _diffStates. rewrite !sort_Permutation. f_equiv.
    - rewrite (flat_map_Permutation _ _ _ Hpn).
      apply Permutation_refl'. apply flat_map_ext. intros [k v].
      unfold diffNewLayer. by rewrite (read_Permutation _ _ k Hold Hpo).
    - rewrite (flat_map_Permutation _ _ _ Hpo).
      apply Permutation_refl'. apply flat_map_ext. intros [k v].
      unfold diffOldLayer. by rewrite (read_Permutation _ _ k Hnew Hpn). }
  apply (StronglySorted_unique_strong (inOrder localeCompare)); [| | |done].
  - intros c1 c2 H1 H2 [Hlt|[Hp Hl]] [Hlt'|[Hp' Hl']]; try lia.
    rewrite <- Hperm in H2.
    eapply diffStates_one_per_layer; [exact Hold|exact Hnew|exact H1|exact H2|].
    by apply Hanti.
  - by apply diffStates_sorted.
  - by apply diffStates_sorted.
Qed.

(** X2.  Undoing a transition.  For layer objects with distinct names,
    a symmetric [_.isEqual] and a layer name that is not one of
    [Object.prototype], the differ from the new state back to the old
    one mirrors the differ from the old state to the new one: the [added]
    command of an object against the [removed] command of the same
    object, a [changed] command against the [changed] command with the
    two objects exchanged, no command against no command. *)
Theorem diffStates_backwards (oldState newState : TimelineState Content)
    (layerKey : string) :
  (∀ a b, isEqual a b = isEqual b a) →
  NoDup (keys (layers oldState)) →
  NoDup (keys (layers newState)) →
  inherited layerKey = false →
  let forwards :=
    filter (λ c, HTTPSend.layer c = layerKey)
      (_diffStates isEqual localeCompare oldState newState) in
  let backwards :=
    filter (λ c, HTTPSend.layer c = layerKey)
      (_diffStates isEqual localeCompare newState oldState) in
  (∃ n, forwards = [addedCommand layerKey n]
        ∧ backwards = [removedCommand layerKey n])
  ∨ (∃ o, forwards = [removedCommand layerKey o]
          ∧ backwards = [addedCommand layerKey o])
  ∨ (∃ o n, forwards = [changedCommand layerKey (id o) n]
            ∧ backwards = [changedCommand layerKey (id n) o])
  ∨ (forwards = [] ∧ backwards = []).
Proof.
  intros Hsym Hold Hnew Hname. cbv zeta.
  rewrite !diffStates_by_layer, Hname by done.
  destruct (get (layers newState) layerKey) as [n|],
           (get (layers oldState) layerKey) as [o|]; simpl.
  - rewrite (Hsym (content n) (content o)).
    destruct (isEqual (content o) (content n)); eauto 10.
  - eauto 10.
  - eauto 10.
  - eauto 10.
Qed.

End Order.

Lemma codeUnitCompare_antisymmetric (a b : string) :
  Samples.codeUnitCompare a b ≤ 0 → Samples.codeUnitCompare b a ≤ 0 → a = b.
Proof.
  revert b. induction a as [|x a IH]; intros [|y b]; simpl; try lia; try done.
  destruct (Z.eqb_spec (Z.of_N (Ascii.N_of_ascii x) - Z.of_N (Ascii.N_of_ascii y)) 0)
    as [He|Hne].
  - replace (Z.of_N (Ascii.N_of_ascii y) - Z.of_N (Ascii.N_of_ascii x)) with 0 by lia.
    simpl. intros H1 H2. f_equal; [|by apply IH].
    assert (Ascii.N_of_ascii x = Ascii.N_of_ascii y) as Hxy by lia.
    rewrite <- (Ascii.ascii_N_embedding x), <- (Ascii.ascii_N_embedding y).
    by rewrite Hxy.
  - destruct (Z.eqb_spec (Z.of_N (Ascii.N_of_ascii y) - Z.of_N (Ascii.N_of_ascii x)) 0);
      lia.
Qed.

(** The new state of the scenario with its layers the other way round. *)
Definition scenario_new_reversed : TimelineState Samples.Payload :=
  Samples.state 1000 (reverse (layers scenario_new)).

Lemma diffStates_order_of_layers_witness :
  _diffStates Samples.isEqual Samples.codeUnitCompare scenario_old scenario_new
  = _diffStates Samples.isEqual Samples.codeUnitCompare scenario_old
      scenario_new_reversed.
Proof.
  apply diffStates_order_of_layers.
  - exact codeUnitCompare_consistent.
  - exact codeUnitCompare_antisymmetric.
  - apply (bool_decide_unpack _). vm_compute. exact I.
  - apply (bool_decide_unpack _). vm_compute. exact I.
  - reflexivity.
  - apply Permutation_sym, reverse_Permutation.
Defined.

Lemma diffStates_backwards_witness :
  (∃ n, filter (λ c, HTTPSend.layer c = "L1")
          (_diffStates Samples.isEqual Samples.codeUnitCompare scenario_old scenario_new)
        = [addedCommand "L1" n]
        ∧ filter (λ c, HTTPSend.layer c = "L1")
            (_diffStates Samples.isEqual Samples.codeUnitCompare scenario_new scenario_old)
          = [removedCommand "L1" n])
  ∨ (∃ o, filter (λ c, HTTPSend.layer c = "L1")
            (_diffStates Samples.isEqual Samples.codeUnitCompare scenario_old scenario_new)
          = [removedCommand "L1" o]
          ∧ filter (λ c, HTTPSend.layer c = "L1")
              (_diffStates Samples.isEqual Samples.codeUnitCompare scenario_new scenario_old)
            = [addedCommand "L1" o])
  ∨ (∃ o n, filter (λ c, HTTPSend.layer c = "L1")
              (_diffStates Samples.isEqual Samples.codeUnitCompare scenario_old scenario_new)
            = [changedCommand "L1" (id o) n]
            ∧ filter (λ c, HTTPSend.layer c = "L1")
                (_diffStates Samples.isEqual Samples.codeUnitCompare scenario_new scenario_old)
              = [changedCommand "L1" (id n) o])
  ∨ (filter (λ c, HTTPSend.layer c = "L1")
       (_diffStates Samples.isEqual Samples.codeUnitCompare scenario_old scenario_new)
     = []
     ∧ filter (λ c, HTTPSend.layer c = "L1")
         (_diffStates Samples.isEqual Samples.codeUnitCompare scenario_new scenario_old)
       = []).
Proof.
  apply (diffStates_backwards Samples.isEqual Samples.codeUnitCompare
           scenario_old scenario_new "L1").
  - intros a b. unfold Samples.isEqual.
    apply bool_decide_ext. split; congruence.
  - apply (bool_decide_unpack _). vm_compute. exact I.
  - apply (bool_decide_unpack _). vm_compute. exact I.
  - reflexivity.
Defined.

End HTTPSendOrderFacts.

Module HTTPSendQueueFacts.
Import HTTPSend HTTPSendFacts.

Section Queue.
Context {Content : Type} `{HTTPSendCommandContent Content}.
Variable JSON_stringify : Content → string.

Lemma stillRelevant_recorded (activeLayers : gmap string string) (cmd : Content)
    (l : string) :
  activeLayers !! l = Some (JSON_stringify cmd) →
  stillRelevant JSON_stringify activeLayers cmd (Some l) = true.
Proof.
  intros Hl. unfold stillRelevant. simpl.
  destruct (String.eqb l EmptyString); simpl; [done|].
  by apply bool_decide_eq_true.
Qed.

(** X3.  A command of the queue other than [removed] is always sent
    when it comes due: the callback records the fingerprint of its
    payload for the layer and the receiver, finding that fingerprint,
    issues the request, whatever was recorded for the layer before. *)
Theorem queued_command_is_sent (device : Device Content) (script : list Attempt)
    (entry : QueueEntry Content) :
  commandName (q_cmd entry) ≠ removed →
  fst (fire JSON_stringify device script entry)
  = <[HTTPSend.layer (q_cmd entry) := JSON_stringify (cmd_content (q_cmd entry))]>
      (activeLayers device)
  ∧ snd (fire JSON_stringify device script entry) !! 1%nat
    = Some (HttpReq (cmd_content (q_cmd entry))).
Proof.
  intros Hname. unfold fire, queuedCallback.
  destruct (commandName (q_cmd entry)); [| |done]; simpl; (split; [done|]);
    destruct script; simpl;
    rewrite stillRelevant_recorded by apply lookup_insert_eq; done.
Qed.

End Queue.

Definition addedL1 : QueueEntry Samples.Payload :=
  {| q_time := 1000; q_queueId := None;
     q_cmd := addedCommand "L1" (Samples.object "o1" postX) |}.

Lemma queued_command_is_sent_witness :
  fst (fire Samples.fingerprint (init resend500) [ok200] addedL1)
  = <[ "L1" := Samples.fingerprint postX ]> (activeLayers (init resend500))
  ∧ snd (fire Samples.fingerprint (init resend500) [ok200] addedL1) !! 1%nat
    = Some (HttpReq postX).
Proof.
  apply (queued_command_is_sent Samples.fingerprint (init resend500) [ok200] addedL1).
  discriminate.
Defined.

End HTTPSendQueueFacts.

(** ** More on the Quantel projector *)

Module QuantelProjectorFacts.
Import Quantel JSObject JSObjectFacts JSObjectUpdateFacts JSArray JSArrayFacts.

(** *** [_.uniq] and [_.sortBy] *)

Lemma elem_of_uniq_from (seen l : list Z) (x : Z) :
  x ∈ uniq_from seen l ↔ x ∈ l ∧ x ∉ seen.
Proof.
  revert seen. induction l as [|y l IH]; intros seen; simpl.
  - split; [intros Hx; by apply elem_of_nil in Hx | intros [Hx _]; by apply elem_of_nil in Hx].
  - destruct (bool_decide_reflect (y ∈ seen)) as [Hy|Hy].
    + rewrite IH, elem_of_cons. split.
      * intros [Hx Hn]. split; [by right | done].
      * intros [[->|Hx] Hn]; [done|done].
    + rewrite !elem_of_cons, IH, not_elem_of_cons. split.
      * intros [->|[Hx [Hne Hn]]]; [by split; [left|] | by split; [right|]].
      * intros [[->|Hx] Hn]; [by left|].
        destruct (decide (x = y)) as [->|Hne]; [by left | by right].
Qed.

Lemma NoDup_uniq_from (seen l : list Z) : NoDup (uniq_from seen l).
Proof.
  revert seen. induction l as [|y l IH]; intros seen; simpl; [constructor|].
  destruct (bool_decide (y ∈ seen)); [apply IH|].
  apply NoDup_cons. split; [|apply IH].
  rewrite elem_of_uniq_from, not_elem_of_cons. intros [_ [Hy _]]. by apply Hy.
Qed.

Lemma difference_consistent : consistent (λ a b : Z, a - b).
Proof. split; intros; lia. Qed.

(** The channels of a port after a channel was added: strictly
    ascending, with the members they had and the new one. *)
Lemma sortBy_uniq_spec (l : list Z) :
  StronglySorted Z.lt (sortBy (uniq l)) ∧ ∀ x, x ∈ sortBy (uniq l) ↔ x ∈ l.
Proof.
  split.
  - assert (NoDup (sortBy (uniq l))) as Hnd.
    { unfold sortBy. rewrite sort_Permutation. apply NoDup_uniq_from. }
    pose proof (sort_sorted (λ a b : Z, a - b) (uniq l) difference_consistent)
      as Hs.
    fold (sortBy (uniq l)) in Hs.
    induction Hs as [|x s Hs IH Hx]; [constructor|].
    apply NoDup_cons in Hnd as [Hxs Hnd].
    constructor; [by apply IH|].
    rewrite Forall_forall in Hx |- *. intros y Hy. specialize (Hx y Hy).
    assert (x ≠ y) by (intros ->; done). lia.
  - intros x. unfold sortBy. rewrite sort_Permutation. unfold uniq.
    rewrite elem_of_uniq_from. split; [by intros [? _]|].
    intros Hx. split; [done | apply not_elem_of_nil].
Qed.

(** *** The first loop: ports from mappings *)

(** What the body of the first loop makes of the ports for a mapping
    whose port id is not a name of [Object.prototype]. *)
Definition portOfMapping (ports : list (string * QuantelStatePort))
    (mapping : Mapping) : list (string * QuantelStatePort) :=
  match quantelMapping mapping with
  | Some (pid, cid) =>
      let p :=
        match get ports pid with
        | Some p => p
        | None => {| channels := [];
                     timelineObjId := EmptyString;
                     clip := None;
                     port_mode := default QUALITY (mode mapping) |}
        end in
      JSObject.set ports pid
        {| channels := sortBy (uniq (channels p ++ [cid]));
           timelineObjId := timelineObjId p;
           clip := clip p;
           port_mode := port_mode p |}
  | None => ports
  end.

(** Whether the port id of a Quantel mapping is a name of
    [Object.prototype]. *)
Definition inheritedPort (m : Mapping) : bool :=
  match quantelMapping m with
  | Some (pid, _) => inherited pid
  | None => false
  end.

Lemma portFromMapping_ordinary (ports : list (string * QuantelStatePort))
    (m : Mapping) :
  inheritedPort m = false →
  portFromMapping (Return ports) m = Return (portOfMapping ports m).
Proof.
  unfold inheritedPort, portFromMapping, portOfMapping.
  destruct (quantelMapping m) as [[pid cid]|]; [|done].
  intros Hpid. rewrite (read_ordinary _ _ Hpid).
  by destruct (get ports pid).
Qed.

Lemma portFromMapping_inherited (ports : list (string * QuantelStatePort))
    (m : Mapping) (pid : string) (cid : Z) :
  quantelMapping m = Some (pid, cid) → inherited pid = true →
  get ports pid = None →
  portFromMapping (Return ports) m = Throw TypeError.
Proof.
  intros Hm Hpid Hget. unfold portFromMapping. rewrite Hm.
  by rewrite (read_None _ _ Hget), Hpid.
Qed.

Lemma foldl_portFromMapping_ordinary (ports : list (string * QuantelStatePort))
    (ms : list Mapping) :
  existsb inheritedPort ms = false →
  foldl portFromMapping (Return ports) ms = Return (foldl portOfMapping ports ms).
Proof.
  revert ports. induction ms as [|m ms IH]; intros ports; simpl; [done|].
  intros [Hm Hms]%orb_false_iff.
  rewrite <- (IH _ Hms). f_equal. by apply portFromMapping_ordinary.
Qed.

(** The first element that a test accepts. *)
Lemma existsb_first {X : Type} (f : X → bool) (l : list X) :
  existsb f l = true →
  ∃ l1 x l2, l = l1 ++ x :: l2 ∧ existsb f l1 = false ∧ f x = true.
Proof.
  induction l as [|y l IH]; simpl; [done|].
  destruct (f y) eqn:Hy; simpl.
  - intros _. by exists [], y, l.
  - intros Hl. destruct (IH Hl) as (l1 & x & l2 & -> & Hl1 & Hx).
    exists (y :: l1), x, l2. simpl. by rewrite Hy.
Qed.

(** The mappings of a port, among the mappings seen. *)
Definition mapsTo (pid : string) (cid : Z) (m : Mapping) : Prop :=
  quantelMapping m = Some (pid, cid).

(** What holds of the ports after the mappings [ms]: a port for every
    port id mapped; its channels the channel ids mapped to it, ascending;
    its mode that of the first mapping of the port; no clip yet. *)
Definition portsOf (ms : list Mapping)
    (ports : list (string * QuantelStatePort)) : Prop :=
  ∀ pid,
    match get ports pid with
    | None => ∀ m cid, m ∈ ms → ¬ mapsTo pid cid m
    | Some p =>
        StronglySorted Z.lt (channels p)
        ∧ (∀ cid, cid ∈ channels p ↔ ∃ m, m ∈ ms ∧ mapsTo pid cid m)
        ∧ (∃ m0, List.find (λ m, bool_decide (fst <$> quantelMapping m = Some pid)) ms
                 = Some m0
                 ∧ port_mode p = default QUALITY (mode m0))
        ∧ clip p = None ∧ timelineObjId p = EmptyString
    end.

Lemma find_snoc {X : Type} (f : X → bool) (l : list X) (x : X) :
  List.find f (l ++ [x])
  = match List.find f l with
    | Some y => Some y
    | None => if f x then Some x else None
    end.
Proof.
  induction l as [|y l IH]; simpl; [done|]. by destruct (f y).
Qed.

Lemma find_nowhere {X : Type} (f : X → bool) (l : list X) :
  (∀ x, x ∈ l → f x = false) → List.find f l = None.
Proof.
  induction l as [|y l IH]; simpl; intros Hf; [done|].
  rewrite (Hf y) by left. apply IH. intros x Hx. apply Hf. by right.
Qed.

Lemma portsOf_step (ms : list Mapping) (m : Mapping)
    (ports : list (string * QuantelStatePort)) :
  portsOf ms ports → portsOf (ms ++ [m]) (portOfMapping ports m).
Proof.
  intros Hinv pid. unfold portOfMapping.
  destruct (quantelMapping m) as [[pid' cid']|] eqn:Hm.
  - rewrite get_set. destruct (String.eqb_spec pid' pid) as [->|Hne].
    + specialize (Hinv pid). simpl.
      destruct (get ports pid) as [p|] eqn:Hp.
      * destruct Hinv as (Hs & Hc & (m0 & Hfind & Hmode) & Hclip & Hid).
        pose proof (sortBy_uniq_spec (channels p ++ [cid'])) as [Hs' Hc'].
        split; [done|]. split; [|split; [|done]].
        -- intros cid. rewrite Hc', elem_of_app, Hc, list_elem_of_singleton.
           split.
           ++ intros [(m' & Hin & Hmaps)| ->].
              ** exists m'. split; [apply elem_of_app; by left | done].
              ** exists m. split; [apply elem_of_app; right; by left | done].
           ++ intros (m' & [Hin|Hin%list_elem_of_singleton]%elem_of_app & Hmaps).
              ** left. eauto.
              ** subst m'. unfold mapsTo in Hmaps. right. congruence.
        -- exists m0. by rewrite find_snoc, Hfind.
      * pose proof (sortBy_uniq_spec ([] ++ [cid'])) as [Hs' Hc'].
        split; [done|]. split; [|split; [|done]].
        -- intros cid. rewrite Hc'. simpl. rewrite list_elem_of_singleton. split.
           ++ intros ->. exists m. split; [apply elem_of_app; right; by left | done].
           ++ intros (m' & [Hin|Hin%list_elem_of_singleton]%elem_of_app & Hmaps).
              ** exfalso. by eapply Hinv.
              ** subst m'. unfold mapsTo in Hmaps. congruence.
        -- exists m. split; [|done]. rewrite find_snoc.
           replace (List.find _ ms) with (@None Mapping).
           ++ rewrite Hm. simpl. by rewrite bool_decide_true.
           ++ symmetry. apply find_nowhere. intros m' Hin.
              apply bool_decide_eq_false. intros Hq.
              destruct (quantelMapping m') as [[p' c']|] eqn:Hm'; [|done].
              simpl in Hq. injection Hq as ->.
              eapply Hinv; [exact Hin | exact Hm'].
    + specialize (Hinv pid). destruct (get ports pid) as [p|].
      * destruct Hinv as (Hs & Hc & (m0 & Hfind & Hmode) & Hclip & Hid).
        split; [done|]. split; [|split; [|done]].
        -- intros cid. rewrite Hc. split.
           ++ intros (m' & Hin & Hmaps). exists m'.
              split; [apply elem_of_app; by left | done].
           ++ intros (m' & [Hin|Hin%list_elem_of_singleton]%elem_of_app & Hmaps).
              ** eauto.
              ** subst m'. unfold mapsTo in Hmaps. congruence.
        -- exists m0. by rewrite find_snoc, Hfind.
      * intros m' cid [Hin|Hin%list_elem_of_singleton]%elem_of_app Hmaps.
        -- by eapply Hinv.
        -- subst m'. unfold mapsTo in Hmaps. congruence.
  - specialize (Hinv pid). destruct (get ports pid) as [p|].
    + destruct Hinv as (Hs & Hc & (m0 & Hfind & Hmode) & Hclip & Hid).
      split; [done|]. split; [|split; [|done]].
      * intros cid. rewrite Hc. split.
        -- intros (m' & Hin & Hmaps). exists m'.
           split; [apply elem_of_app; by left | done].
        -- intros (m' & [Hin|Hin%list_elem_of_singleton]%elem_of_app & Hmaps).
           ++ eauto.
           ++ subst m'. unfold mapsTo in Hmaps. congruence.
      * exists m0. by rewrite find_snoc, Hfind.
    + intros m' cid [Hin|Hin%list_elem_of_singleton]%elem_of_app Hmaps.
      * by eapply Hinv.
      * subst m'. unfold mapsTo in Hmaps. congruence.
Qed.

Lemma portsOf_mappings (ms : list Mapping) :
  portsOf ms (foldl portOfMapping [] ms).
Proof.
  induction ms as [|m ms IH] using rev_ind.
  - intros pid. simpl. intros m cid Hin. by apply elem_of_nil in Hin.
  - rewrite foldl_app. simpl. by apply portsOf_step.
Qed.

(** *** The second loop: clips from layers *)

(** Whether a layer puts a clip on the port [pid]. *)
Definition reaches (mappings : Mappings) (pid : string)
    (entry : string * ResolvedTimelineObjectInstance) : bool :=
  match get mappings (fst entry) ≫= quantelMapping with
  | Some (p, _) =>
      String.eqb p pid
      && match clipOfLayer (snd entry) with Some _ => true | None => false end
  | None => false
  end.

(** The layer whose clip is on the port [pid]: the last one, in the
    order of the layers, that puts a clip on it. *)
Definition shown (mappings : Mappings) (pid : string)
    (layers : list (string * ResolvedTimelineObjectInstance))
    : option (string * ResolvedTimelineObjectInstance) :=
  last (List.filter (reaches mappings pid) layers).

Lemma shown_snoc (mappings : Mappings) (pid : string)
    (ls : list (string * ResolvedTimelineObjectInstance))
    (entry : string * ResolvedTimelineObjectInstance) :
  shown mappings pid (ls ++ [entry])
  = if reaches mappings pid entry then Some entry else shown mappings pid ls.
Proof.
  unfold shown. rewrite List.filter_app. simpl.
  destruct (reaches mappings pid entry).
  - by rewrite last_snoc.
  - by rewrite app_nil_r.
Qed.

Definition clipsOf (mappings : Mappings)
    (ports1 : list (string * QuantelStatePort))
    (ls : list (string * ResolvedTimelineObjectInstance))
    (ports : list (string * QuantelStatePort)) : Prop :=
  ∀ pid,
    match get ports1 pid with
    | None => get ports pid = None
    | Some p1 =>
        ∃ p, get ports pid = Some p
             ∧ channels p = channels p1
             ∧ port_mode p = port_mode p1
             ∧ clip p = shown mappings pid ls ≫= (λ entry, clipOfLayer (snd entry))
             ∧ timelineObjId p
               = from_option (λ entry, id (snd entry)) EmptyString
                   (shown mappings pid ls)
    end.

Lemma clipsOf_step (mappings : Mappings)
    (ports1 ports : list (string * QuantelStatePort))
    (ls : list (string * ResolvedTimelineObjectInstance))
    (entry : string * ResolvedTimelineObjectInstance) :
  (∀ name m pid cid,
     get mappings name = Some m → quantelMapping m = Some (pid, cid) →
     is_Some (get ports1 pid)) →
  clipsOf mappings ports1 ls ports →
  ∃ ports',
    portFromLayer mappings (Return ports) entry = Return ports'
    ∧ clipsOf mappings ports1 (ls ++ [entry]) ports'.
Proof.
  intros Hmapped Hinv. destruct entry as [name layer].
  unfold portFromLayer, read.
  assert (∀ pid, reaches mappings pid (name, layer) = false →
            shown mappings pid (ls ++ [(name, layer)]) = shown mappings pid ls)
    as Hsame.
  { intros pid Hr. by rewrite shown_snoc, Hr. }
  assert ((∀ pid, reaches mappings pid (name, layer) = false) →
            clipsOf mappings ports1 (ls ++ [(name, layer)]) ports) as Hskip.
  { intros Hr pid. specialize (Hinv pid). rewrite Hsame by done. exact Hinv. }
  destruct (get mappings name) as [m|] eqn:Hm.
  - destruct (quantelMapping m) as [[pid cid]|] eqn:Hq.
    + destruct (Hmapped name m pid cid Hm Hq) as [p1 Hp1].
      pose proof (Hinv pid) as Hpid. rewrite Hp1 in Hpid.
      destruct Hpid as (p & Hp & Hch & Hmode & Hclip & Hid). rewrite Hp.
      simpl. destruct (clipOfLayer layer) as [c|] eqn:Hc.
      * eexists. split; [done|]. intros pid'. rewrite get_set, shown_snoc.
        unfold reaches. simpl. rewrite Hm. simpl. rewrite Hq, Hc.
        destruct (String.eqb_spec pid pid') as [<-|Hne]; simpl.
        -- rewrite Hp1. eexists. split; [done|]. simpl. by rewrite Hc.
        -- apply Hinv.
      * eexists. split; [done|]. apply Hskip. intros pid'.
        unfold reaches. simpl. rewrite Hm. simpl. rewrite Hq, Hc.
        by rewrite andb_false_r.
    + eexists. split; [done|]. apply Hskip. intros pid'.
      unfold reaches. simpl. rewrite Hm. simpl. by rewrite Hq.
  - exists ports. split; [by destruct (inherited name)|]. apply Hskip.
    intros pid'. unfold reaches. simpl. by rewrite Hm.
Qed.

Lemma clipsOf_layers (mappings : Mappings)
    (ports1 : list (string * QuantelStatePort))
    (ls : list (string * ResolvedTimelineObjectInstance)) :
  (∀ name m pid cid,
     get mappings name = Some m → quantelMapping m = Some (pid, cid) →
     is_Some (get ports1 pid)) →
  (∀ pid p1, get ports1 pid = Some p1 →
     clip p1 = None ∧ timelineObjId p1 = EmptyString) →
  ∃ ports,
    foldl (portFromLayer mappings) (Return ports1) ls = Return ports
    ∧ clipsOf mappings ports1 ls ports.
Proof.
  intros Hmapped Hfresh. induction ls as [|entry ls IH] using rev_ind.
  - exists ports1. split; [done|]. intros pid.
    destruct (get ports1 pid) as [p1|] eqn:Hp1; [|done].
    destruct (Hfresh pid p1 Hp1) as [Hclip Hid]. by exists p1.
  - destruct IH as (ports & Hfold & Hinv).
    rewrite foldl_app, Hfold. simpl. by apply clipsOf_step.
Qed.

(** The mapping that made the port [pid]: the first one of the port, in
    the order of the mappings. *)
Definition firstMapping (mappings : Mappings) (pid : string) : option Mapping :=
  List.find (λ m, bool_decide (fst <$> quantelMapping m = Some pid))
    (map snd mappings).

(** The projector, in full, when no port id of a Quantel mapping is a
    name of [Object.prototype]: it returns a state, whatever the layers
    are. *)
Lemma convertStateToQuantel_spec (mappings : Mappings) (tl : TimelineState) :
  existsb inheritedPort (map snd mappings) = false →
  ∃ s,
    convertStateToQuantel mappings tl = Return s
    ∧ time s = tl_time tl
    ∧ ∀ pid,
        match get (port s) pid with
        | None => ∀ m cid, m ∈ map snd mappings → ¬ mapsTo pid cid m
        | Some p =>
            StronglySorted Z.lt (channels p)
            ∧ (∀ cid, cid ∈ channels p
                      ↔ ∃ m, m ∈ map snd mappings ∧ mapsTo pid cid m)
            ∧ (∃ m0, firstMapping mappings pid = Some m0
                     ∧ port_mode p = default QUALITY (mode m0))
            ∧ clip p = shown mappings pid (layers tl)
                         ≫= (λ entry, clipOfLayer (snd entry))
            ∧ timelineObjId p
              = from_option (λ entry, id (snd entry)) EmptyString
                  (shown mappings pid (layers tl))
        end.
Proof.
  intros Hordinary.
  pose proof (portsOf_mappings (map snd mappings)) as H1.
  set (ports1 := foldl portOfMapping [] (map snd mappings)) in *.
  assert (∀ name m, get mappings name = Some m → m ∈ map snd mappings) as Hin.
  { intros name m Hg. apply get_Some_elem in Hg.
    change m with (snd (name, m)). by apply list_elem_of_fmap_2. }
  destruct (clipsOf_layers mappings ports1 (layers tl)) as (ports & Hfold & H2).
  { intros name m pid cid Hg Hq. specialize (H1 pid).
    destruct (get ports1 pid) as [p1|]; [by eexists|].
    exfalso. eapply H1; [by eapply Hin | exact Hq]. }
  { intros pid p1 Hp1. specialize (H1 pid). rewrite Hp1 in H1. tauto. }
  eexists. unfold convertStateToQuantel.
  rewrite foldl_portFromMapping_ordinary by done. fold ports1. rewrite Hfold.
  split; [done|]. split; [done|]. simpl. intros pid.
  specialize (H1 pid). specialize (H2 pid).
  destruct (get ports1 pid) as [p1|].
  - destruct H2 as (p & -> & Hch & Hmode & Hclip & Hid).
    destruct H1 as (Hs & Hc & Hm0 & _). rewrite Hch, Hmode. done.
  - rewrite H2. exact H1.
Qed.

(** With a port id among the Quantel mappings that is a name of
    [Object.prototype], the first loop throws at the first such
    mapping. *)
Lemma convertStateToQuantel_inherited (mappings : Mappings) (tl : TimelineState) :
  existsb inheritedPort (map snd mappings) = true →
  convertStateToQuantel mappings tl = Throw TypeError.
Proof.
  intros Hex.
  destruct (existsb_first _ _ Hex) as (ms1 & m & ms2 & Hms & Hms1 & Hm).
  unfold convertStateToQuantel. rewrite Hms, foldl_app. simpl.
  rewrite (foldl_portFromMapping_ordinary [] ms1 Hms1).
  unfold inheritedPort in Hm.
  destruct (quantelMapping m) as [[pid cid]|] eqn:Hq; [|done].
  rewrite (portFromMapping_inherited _ m pid cid Hq Hm).
  - by rewrite QuantelFacts.foldl_portFromMapping_Throw,
      QuantelFacts.foldl_portFromLayer_Throw.
  - pose proof (portsOf_mappings ms1 pid) as Hp.
    destruct (get (foldl portOfMapping [] ms1) pid) as [p|]; [|done].
    destruct Hp as (_ & _ & (m0 & Hfind & _) & _).
    apply List.find_some in Hfind as [Hin Hq0%bool_decide_eq_true].
    assert (inheritedPort m0 = true) as Hm0.
    { unfold inheritedPort. destruct (quantelMapping m0) as [[p0 c0]|]; [|done].
      simpl in Hq0. by injection Hq0 as ->. }
    assert (existsb inheritedPort ms1 = true) as Hyes.
    { apply existsb_exists. eauto. }
    congruence.
Qed.

(** A state comes out only when no port id is a name of
    [Object.prototype]. *)
Lemma returned_ordinary (mappings : Mappings) (tl : TimelineState)
    (state : QuantelState) :
  convertStateToQuantel mappings tl = Return state →
  existsb inheritedPort (map snd mappings) = false.
Proof.
  intros Hstate. destruct (existsb inheritedPort (map snd mappings)) eqn:Hex; [|done].
  by rewrite (convertStateToQuantel_inherited mappings tl Hex) in Hstate.
Qed.

(** The channels of a port of the projected state. *)
Lemma ports_of_the_channels (mappings : Mappings) (tl : TimelineState)
    (state : QuantelState) (pid : string) (p : QuantelStatePort) :
  convertStateToQuantel mappings tl = Return state →
  get (port state) pid = Some p →
  StronglySorted Z.lt (channels p)
  ∧ ∀ cid, cid ∈ channels p
           ↔ ∃ m, m ∈ map snd mappings ∧ quantelMapping m = Some (pid, cid).
Proof.
  intros Hstate Hp.
  destruct (convertStateToQuantel_spec mappings tl
              (returned_ordinary mappings tl state Hstate)) as (s & Hs & _ & Hports).
  rewrite Hstate in Hs. injection Hs as <-. specialize (Hports pid).
  rewrite Hp in Hports. destruct Hports as (Hsorted & Hch & _). done.
Qed.

Lemma shown_reaches (mappings : Mappings) (pid : string)
    (ls : list (string * ResolvedTimelineObjectInstance))
    (entry : string * ResolvedTimelineObjectInstance) :
  shown mappings pid ls = Some entry → is_Some (clipOfLayer (snd entry)).
Proof.
  unfold shown. intros Hl%last_Some_elem_of.
  apply list_elem_of_In, List.filter_In in Hl as [_ Hr].
  unfold reaches in Hr. destruct (get mappings (fst entry) ≫= quantelMapping) as [[p c]|]; [|done].
  apply andb_true_iff in Hr as [_ Hr].
  by destruct (clipOfLayer (snd entry)).
Qed.

(** X5.  The projector of the Quantel device returns a state, with the
    time of the timeline state, for every timeline state, unless the
    port id of a Quantel mapping (one with a port id and a channel id)
    is a name of [Object.prototype], such as [constructor]: then it
    throws a [TypeError], whatever the layers are.  Its own error, that
    the port of a layer is not found, cannot occur: the first loop has
    made a port for every mapping that the second loop accepts. *)
Theorem projector_returns_or_type_error (mappings : Mappings)
    (tl : TimelineState) :
  match convertStateToQuantel mappings tl with
  | Return state =>
      time state = tl_time tl
      ∧ ∀ m pid cid, m ∈ map snd mappings →
          quantelMapping m = Some (pid, cid) → inherited pid = false
  | Throw e =>
      e = TypeError
      ∧ ∃ m pid cid, m ∈ map snd mappings
          ∧ quantelMapping m = Some (pid, cid) ∧ inherited pid = true
  end.
Proof.
  destruct (existsb inheritedPort (map snd mappings)) eqn:Hex.
  - rewrite (convertStateToQuantel_inherited mappings tl Hex). split; [done|].
    apply existsb_exists in Hex as (m & Hin & Hm). unfold inheritedPort in Hm.
    destruct (quantelMapping m) as [[pid cid]|] eqn:Hq; [|done].
    exists m, pid, cid. split; [by apply list_elem_of_In | done].
  - destruct (convertStateToQuantel_spec mappings tl Hex) as (s & -> & Ht & _).
    split; [done|]. intros m pid cid Hin Hq.
    destruct (inherited pid) eqn:Hpid; [|done].
    assert (existsb inheritedPort (map snd mappings) = true) as Hyes.
    { apply existsb_exists. exists m. split; [by apply list_elem_of_In|].
      unfold inheritedPort. by rewrite Hq. }
    congruence.
Qed.


(** X7.  The clip of a port is the clip of the last layer, in the order
    of the layers, that is mapped to the port and has a title; the port
    has the id of that layer as [timelineObjId].  A port that no such
    layer is mapped to has no clip and the empty [timelineObjId]. *)
Theorem last_layer_decides_the_clip (mappings : Mappings) (tl : TimelineState)
    (state : QuantelState) (pid : string) (p : QuantelStatePort) :
  convertStateToQuantel mappings tl = Return state →
  get (port state) pid = Some p →
  match last (List.filter (reaches mappings pid) (layers tl)) with
  | Some (_, layer) =>
      is_Some (clip p) ∧ clip p = clipOfLayer layer ∧ timelineObjId p = id layer
  | None => clip p = None ∧ timelineObjId p = EmptyString
  end.
Proof.
  intros Hstate Hp.
  destruct (convertStateToQuantel_spec mappings tl
              (returned_ordinary mappings tl state Hstate)) as (s & Hs & _ & Hports).
  rewrite Hstate in Hs. injection Hs as <-. specialize (Hports pid).
  rewrite Hp in Hports. destruct Hports as (_ & _ & _ & Hclip & Hid).
  pose proof (shown_reaches mappings pid (layers tl)) as Hr.
  unfold shown in *.
  destruct (last (List.filter (reaches mappings pid) (layers tl)))
    as [[name layer]|]; [|done].
  simpl in Hclip, Hid. rewrite Hclip. split; [|done]. by apply (Hr (name, layer)).
Qed.

Definition quantelLayer (p : string) (c : Z) (m : option QuantelControlMode)
    : Mapping :=
  {| device := QUANTEL; deviceId := "quantel0"; portId := Some p;
     channelId := Some c; mode := m; channel := None; layer := None |}.

Definition clipLayer (i t : string) (s : Z) : ResolvedTimelineObjectInstance :=
  {| id := i;
     content := Some {| c_title := Some t; c_pauseTime := None; c_playing := None;
                        c_inPoint := None; c_length := None;
                        c_noStarttime := None |};
     start := s |}.

(** A mapping whose port id is [constructor]: the projector throws,
    though no layer is on the timeline. *)
Example constructor_port_throws :
  convertStateToQuantel [("L1", quantelLayer "constructor" 1 None)]
    {| tl_time := 10000; layers := [] |}
  = Throw TypeError.
Proof. reflexivity. Qed.

(** Two layers on one port, the second channel mapped first. *)
Definition twoOnP1 : Mappings :=
  [("L1", quantelLayer "P1" 2 (Some SPEED)); ("L2", quantelLayer "P1" 1 None)].

Definition bothPlaying : TimelineState :=
  {| tl_time := 10000;
     layers := [("L1", clipLayer "obj1" "NEWS" 10000);
                ("L2", clipLayer "obj2" "SPORT" 9000)] |}.

Definition bothOnP1 : QuantelStatePort :=
  {| timelineObjId := "obj2";
     clip := Some {| title := "SPORT"; clipId := None; playing := true;
                     playTime := Some 9000; pauseTime := None; inPoint := None;
                     length := None |};
     port_mode := SPEED;
     channels := [1; 2] |}.


Lemma last_layer_decides_the_clip_witness :
  is_Some (clip bothOnP1)
  ∧ clip bothOnP1 = clipOfLayer (clipLayer "obj2" "SPORT" 9000)
  ∧ timelineObjId bothOnP1 = id (clipLayer "obj2" "SPORT" 9000).
Proof.
  exact (last_layer_decides_the_clip twoOnP1 bothPlaying
           {| time := 10000; port := [("P1", bothOnP1)] |} "P1" bothOnP1
           eq_refl eq_refl).
Defined.

End QuantelProjectorFacts.

(** ** More on the Quantel differ *)

Module QuantelDifferFacts.
Import Quantel JSObject JSObjectFacts JSArray JSArrayFacts.
Import QuantelFacts QuantelProjectorFacts.

(** [cmd.portId] *)
Definition cmd_portId (cmd : QuantelCommand) : string :=
  match cmd with
  | SetupPort _ p _ _ | LoadClipFragments _ p _ _ _ | PlayClip _ p _ _ _
  | PauseClip _ p _ _ _ | ClearClip _ p _ | ReleasePort _ p _ => p
  end.

Lemma diffNewPort_portId oldState time k v cmd :
  cmd ∈ diffNewPort oldState time (k, v) → cmd_portId cmd = k.
Proof.
  unfold diffNewPort. intros Hin.
  apply elem_of_app in Hin as [Hin|Hin].
  - destruct (match read (port oldState) k with
              | Own _ => _ | Inherited => _ | Missing => _ end);
      [|by apply elem_of_nil in Hin].
    destruct (channels v) as [|channel rest]; [by apply elem_of_nil in Hin|].
    destruct (channel =? 0); [by apply elem_of_nil in Hin|].
    by apply list_elem_of_singleton in Hin as ->.
  - destruct (match read (port oldState) k with
              | Own _ => _ | Inherited => _ | Missing => _ end);
      [|by apply elem_of_nil in Hin].
    destruct (clip v) as [c|].
    + apply elem_of_cons in Hin as [->|Hin]; [done|].
      apply list_elem_of_singleton in Hin as ->. by destruct (playing c).
    + by apply list_elem_of_singleton in Hin as ->.
Qed.

Lemma diffOldPort_portId oldState newState time k v cmd :
  cmd ∈ diffOldPort oldState newState time (k, v) → cmd_portId cmd = k.
Proof.
  unfold diffOldPort. intros Hin.
  destruct (read (port newState) k);
    [by apply elem_of_nil in Hin|by apply elem_of_nil in Hin|].
  by apply list_elem_of_singleton in Hin as ->.
Qed.

(** X8.  The commands of one port, in full, for two states with
    distinct port names and a port name that is not one of
    [Object.prototype].  A port of the new state that the old state does
    not have gets SETUPPORT for its first channel, at the preparation
    time [min(t, max(t - 1000, t0 + 50))], unless it has no channel or
    that channel is 0; then LOADCLIPFRAGMENTS at the preparation time
    and PLAYCLIP or PAUSECLIP at [t] for its clip, by the playing flag
    of the clip, or CLEARCLIP at [t] when it has no clip.  A port of
    both states gets the first part only when its channels differ, and
    the second only when its clip differs.  A port of the old state
    alone gets RELEASEPORT at the preparation time.  The commands of
    other ports are not among them. *)
Theorem diffStates_by_port (oldState newState : QuantelState) (t : Z)
    (pid : string) :
  NoDup (keys (port oldState)) → NoDup (keys (port newState)) →
  inherited pid = false →
  let prepare := Z.min t (Z.max (t - 1000) (time oldState + 50)) in
  let setup (newPort : QuantelStatePort) :=
    match channels newPort with
    | channel :: _ =>
        if channel =? 0 then []
        else [SetupPort prepare pid (timelineObjId newPort) channel]
    | [] => []
    end in
  let show (newPort : QuantelStatePort) :=
    match clip newPort with
    | Some c =>
        [ LoadClipFragments prepare pid (timelineObjId newPort) c t;
          if playing c
          then PlayClip t pid (timelineObjId newPort) c (port_mode newPort)
          else PauseClip t pid (timelineObjId newPort) c (port_mode newPort) ]
    | None => [ClearClip t pid (timelineObjId newPort)]
    end in
  filter (λ cmd, cmd_portId cmd = pid) (_diffStates oldState newState t)
  = match get (port newState) pid, get (port oldState) pid with
    | Some newPort, None => setup newPort ++ show newPort
    | Some newPort, Some oldPort =>
        (if decide (channels newPort = channels oldPort) then []
         else setup newPort)
        ++ (if decide (clip newPort = clip oldPort) then [] else show newPort)
    | None, Some oldPort => [ReleasePort prepare pid (timelineObjId oldPort)]
    | None, None => []
    end.
Proof.
  intros Hold Hnew Hpid. cbv zeta. unfold _diffStates. rewrite filter_app.
  rewrite (filter_flat_map_key cmd_portId (diffNewPort oldState t)
             (port newState) pid) by (done || apply diffNewPort_portId).
  rewrite (filter_flat_map_key cmd_portId (diffOldPort oldState newState t)
             (port oldState) pid) by (done || apply diffOldPort_portId).
  unfold diffNewPort, diffOldPort, prepareTime, IDEAL_PREPARE_TIME,
    PREPARE_TIME_WAIT.
  rewrite !(read_ordinary _ _ Hpid).
  destruct (get (port newState) pid) as [newPort|] eqn:Hn,
           (get (port oldState) pid) as [oldPort|] eqn:Ho; simpl.
  - rewrite app_nil_r.
    destruct (decide (channels newPort = channels oldPort)) as [Hch|Hch],
             (decide (clip newPort = clip oldPort)) as [Hcl|Hcl];
      rewrite ?(bool_decide_true _ Hch), ?(bool_decide_false _ Hch),
        ?(bool_decide_true _ Hcl), ?(bool_decide_false _ Hcl); done.
  - by rewrite app_nil_r.
  - done.
  - done.
Qed.

(** X9.  A port whose channels and clip are the same in both states
    gets no command, whatever its mode and its [timelineObjId] are in the
    two states: a change of the mode of a port alone is not sent to the
    server. *)
Theorem mode_change_gives_no_command (oldState newState : QuantelState) (t : Z)
    (pid : string) (oldPort newPort : QuantelStatePort) (cmd : QuantelCommand) :
  NoDup (keys (port newState)) →
  get (port oldState) pid = Some oldPort →
  get (port newState) pid = Some newPort →
  channels newPort = channels oldPort →
  clip newPort = clip oldPort →
  cmd ∈ _diffStates oldState newState t →
  cmd_portId cmd ≠ pid.
Proof.
  intros Hnd Hold Hnew Hch Hclip Hin Hpid. unfold _diffStates in Hin.
  apply elem_of_app in Hin as [Hin|Hin];
    apply list_elem_of_In, in_flat_map in Hin as ([k v] & Hentry & Hin);
    apply list_elem_of_In in Hentry, Hin.
  - pose proof (diffNewPort_portId _ _ _ _ _ Hin) as Hk.
    rewrite Hpid in Hk. subst k.
    apply (elem_get_Some _ _ _ Hnd) in Hentry.
    rewrite Hnew in Hentry. injection Hentry as <-.
    unfold diffNewPort in Hin.
    rewrite (read_own _ _ _ Hold), Hch, Hclip in Hin.
    rewrite !bool_decide_true in Hin by done. by apply elem_of_nil in Hin.
  - pose proof (diffOldPort_portId _ _ _ _ _ _ Hin) as Hk.
    rewrite Hpid in Hk. subst k.
    unfold diffOldPort in Hin. rewrite (read_own _ _ _ Hnew) in Hin.
    by apply elem_of_nil in Hin.
Qed.

(** Whether every LOADCLIPFRAGMENTS is directly followed by the PLAYCLIP
    (for a playing clip) or PAUSECLIP (for a clip that is not playing)
    of the same port, object and clip, at the time of play of the load,
    and no PLAYCLIP or PAUSECLIP comes without its load. *)
Fixpoint paired (cmds : list QuantelCommand) : bool :=
  match cmds with
  | [] => true
  | LoadClipFragments _ p i c timeOfPlay :: rest =>
      match rest with
      | PlayClip t' p' i' c' _ :: rest' =>
          playing c
          && bool_decide (t' = timeOfPlay ∧ p' = p ∧ i' = i ∧ c' = c)
          && paired rest'
      | PauseClip t' p' i' c' _ :: rest' =>
          negb (playing c)
          && bool_decide (t' = timeOfPlay ∧ p' = p ∧ i' = i ∧ c' = c)
          && paired rest'
      | _ => false
      end
  | PlayClip _ _ _ _ _ :: _ | PauseClip _ _ _ _ _ :: _ => false
  | _ :: rest => paired rest
  end.

Lemma paired_app (l1 l2 : list QuantelCommand) :
  paired l1 = true → paired (l1 ++ l2) = paired l2.
Proof.
  remember (List.length l1) as n eqn:Hn.
  assert (List.length l1 ≤ n)%nat as Hle by lia. clear Hn.
  revert l1 Hle. induction n as [|n IH]; intros l1 Hle.
  - destruct l1; [done | simpl in Hle; lia].
  - destruct l1 as [|cmd rest]; [done|]. simpl in Hle.
    destruct cmd; simpl; try done; try (apply IH; lia).
    destruct rest as [|cmd' rest']; [done|]. simpl in Hle.
    destruct cmd'; simpl; try done;
      intros [Hp Hrest]%andb_true_iff; rewrite Hp; simpl;
      apply IH; (lia || done).
Qed.

Lemma paired_flat_map {X : Type} (f : X → list QuantelCommand) (l : list X) :
  (∀ x, paired (f x) = true) → paired (flat_map f l) = true.
Proof.
  intros Hf. induction l as [|x l IH]; simpl; [done|].
  by rewrite paired_app.
Qed.

(** X10.  In the commands of the differ, a clip is loaded right before
    it is played or paused: every LOADCLIPFRAGMENTS is directly followed
    by a PLAYCLIP, if the clip is playing, or by a PAUSECLIP, if it is
    not, for the same port, timeline object and clip, at the time of play
    that the load names; and there is no PLAYCLIP or PAUSECLIP without
    such a load before it. *)
Theorem load_comes_with_play_or_pause (oldState newState : QuantelState) (t : Z) :
  paired (_diffStates oldState newState t) = true.
Proof.
  unfold _diffStates. rewrite paired_app; apply paired_flat_map.
  - intros [portId oldPort]. unfold diffOldPort.
    by destruct (read (port newState) portId).
  - intros [portId newPort]. unfold diffNewPort.
    rewrite paired_app.
    + destruct (match read (port oldState) portId with
                | Own _ => _ | Inherited => _ | Missing => _ end);
        [|done].
      destruct (clip newPort) as [c|]; [|done].
      destruct (playing c) eqn:Hp; simpl; rewrite Hp; simpl;
        by rewrite bool_decide_true.
    + destruct (match read (port oldState) portId with
                | Own _ => _ | Inherited => _ | Missing => _ end);
        [|done].
      destruct (channels newPort) as [|channel ?]; [done|].
      by destruct (channel =? 0).
Qed.

Lemma projected_channels (mappings : Mappings) (tl : TimelineState)
    (state : QuantelState) (pid : string) :
  convertStateToQuantel mappings tl = Return state →
  channels <$> get (port state) pid
  = channels <$> get (foldl portOfMapping [] (map snd mappings)) pid.
Proof.
  intros Hstate.
  pose proof (returned_ordinary mappings tl state Hstate) as Hordinary.
  revert Hstate.
  pose proof (portsOf_mappings (map snd mappings)) as H1.
  set (ports1 := foldl portOfMapping [] (map snd mappings)) in *.
  destruct (clipsOf_layers mappings ports1 (layers tl)) as (ports & Hfold & H2).
  { intros name m p cid Hg Hq. specialize (H1 p).
    destruct (get ports1 p) as [p1|]; [by eexists|].
    exfalso. eapply H1; [|exact Hq].
    apply get_Some_elem in Hg.
    change m with (snd (name, m)). by apply list_elem_of_fmap_2. }
  { intros p p1 Hp1. specialize (H1 p). rewrite Hp1 in H1. tauto. }
  unfold convertStateToQuantel.
  rewrite foldl_portFromMapping_ordinary by done.
  fold ports1. rewrite Hfold. intros [= <-]. simpl.
  specialize (H2 pid). destruct (get ports1 pid) as [p1|].
  - destruct H2 as (p & -> & Hch & _). simpl. by rewrite Hch.
  - by rewrite H2.
Qed.

(** The ports of a state that the projector returns, and so the ports
    of the commands that the differ gives for it, have no name of
    [Object.prototype]: the tracked state of the manager, which is keyed
    by the ports of these commands, is read for such ports only. *)
Lemma projected_ports_ordinary (mappings : Mappings) (tl : TimelineState)
    (state : QuantelState) (pid : string) :
  convertStateToQuantel mappings tl = Return state →
  pid ∈ keys (port state) → inherited pid = false.
Proof.
  intros Hstate Hpid.
  pose proof (returned_ordinary mappings tl state Hstate) as Hordinary.
  destruct (convertStateToQuantel_spec mappings tl Hordinary)
    as (s & Hs & _ & Hports).
  rewrite Hstate in Hs. injection Hs as <-. specialize (Hports pid).
  destruct (get (port state) pid) as [p|] eqn:Hg;
    [|by apply get_None_not_key in Hg].
  destruct Hports as (_ & _ & (m0 & Hfind & _) & _).
  apply List.find_some in Hfind as [Hin Hq%bool_decide_eq_true].
  destruct (inherited pid) eqn:Hi; [|done].
  assert (existsb inheritedPort (map snd mappings) = true) as Hyes.
  { apply existsb_exists. exists m0. split; [done|].
    unfold inheritedPort. destruct (quantelMapping m0) as [[p0 c0]|]; [|done].
    simpl in Hq. by injection Hq as ->. }
  congruence.
Qed.

(** X11.  As long as the mappings stay the same, a change of the
    timeline sets up no port and releases none: the differ on two states
    that the projector returns for the same mappings gives only
    LOADCLIPFRAGMENTS, PLAYCLIP, PAUSECLIP and CLEARCLIP. *)
Theorem same_mappings_keep_the_ports (mappings : Mappings)
    (tl1 tl2 : TimelineState) (state1 state2 : QuantelState) (t : Z)
    (cmd : QuantelCommand) :
  convertStateToQuantel mappings tl1 = Return state1 →
  convertStateToQuantel mappings tl2 = Return state2 →
  cmd ∈ _diffStates state1 state2 t →
  cmd_type cmd ∈ [LOADCLIPFRAGMENTS; PLAYCLIP; PAUSECLIP; CLEARCLIP].
Proof.
  intros H1 H2 Hin.
  pose proof (DeviceFacts.convertStateToQuantel_NoDup _ _ _ H1) as Hnd1.
  pose proof (DeviceFacts.convertStateToQuantel_NoDup _ _ _ H2) as Hnd2.
  assert (∀ pid, channels <$> get (port state2) pid
                 = channels <$> get (port state1) pid) as Hsame.
  { intros pid. rewrite (projected_channels _ _ _ pid H1).
    apply (projected_channels _ _ _ pid H2). }
  unfold _diffStates in Hin.
  apply elem_of_app in Hin as [Hin|Hin];
    apply list_elem_of_In, in_flat_map in Hin as ([k v] & Hentry & Hin);
    apply list_elem_of_In in Hentry, Hin.
  - apply (elem_get_Some _ _ _ Hnd2) in Hentry.
    specialize (Hsame k). rewrite Hentry in Hsame. simpl in Hsame.
    unfold diffNewPort in Hin.
    destruct (get (port state1) k) as [oldPort|] eqn:Hold; [|done].
    rewrite (read_own _ _ _ Hold) in Hin.
    injection Hsame as Hch. rewrite Hch, bool_decide_true in Hin by done.
    simpl in Hin. destruct (negb _); [|by apply elem_of_nil in Hin].
    destruct (clip v) as [c|].
    + apply elem_of_cons in Hin as [->|Hin]; [left|].
      apply list_elem_of_singleton in Hin as ->.
      destruct (playing c); simpl; [right; left | right; right; left].
    + apply list_elem_of_singleton in Hin as ->. simpl. do 3 right. left.
  - apply (elem_get_Some _ _ _ Hnd1) in Hentry.
    specialize (Hsame k). rewrite Hentry in Hsame. simpl in Hsame.
    unfold diffOldPort in Hin.
    destruct (get (port state2) k) as [newPort|] eqn:Hnew; [|done].
    rewrite (read_own _ _ _ Hnew) in Hin. by apply elem_of_nil in Hin.
Qed.

(** X12.  The channel of a SETUPPORT command, for a new state that the
    projector returns, is the lowest channel id that the mappings give
    the port, and it is not 0: a port whose lowest channel is 0 is never
    set up. *)
Theorem setup_is_for_the_lowest_channel (mappings : Mappings)
    (tl : TimelineState) (oldState newState : QuantelState) (t time : Z)
    (pid i : string) (channel : Z) :
  convertStateToQuantel mappings tl = Return newState →
  SetupPort time pid i channel ∈ _diffStates oldState newState t →
  channel ≠ 0
  ∧ (∃ m, m ∈ map snd mappings ∧ quantelMapping m = Some (pid, channel))
  ∧ ∀ m cid, m ∈ map snd mappings → quantelMapping m = Some (pid, cid) →
             channel ≤ cid.
Proof.
  intros Hnew Hin.
  pose proof (DeviceFacts.convertStateToQuantel_NoDup _ _ _ Hnew) as Hnd.
  unfold _diffStates in Hin.
  apply elem_of_app in Hin as [Hin|Hin];
    apply list_elem_of_In, in_flat_map in Hin as ([k v] & Hentry & Hin);
    apply list_elem_of_In in Hentry, Hin.
  - pose proof (diffNewPort_portId _ _ _ _ _ Hin) as Hk. simpl in Hk. subst k.
    apply (elem_get_Some _ _ _ Hnd) in Hentry.
    destruct (ports_of_the_channels mappings tl newState pid v Hnew Hentry)
      as [Hsorted Hch].
    unfold diffNewPort in Hin. apply elem_of_app in Hin as [Hin|Hin].
    + destruct (match read (port oldState) pid with
                | Own _ => _ | Inherited => _ | Missing => _ end);
        [|by apply elem_of_nil in Hin].
      destruct (channels v) as [|c rest] eqn:Hcs; [by apply elem_of_nil in Hin|].
      destruct (Z.eqb_spec c 0) as [->|Hc0]; [by apply elem_of_nil in Hin|].
      apply list_elem_of_singleton in Hin. injection Hin as -> -> ->.
      split; [done|]. split; [apply Hch; left|].
      intros m cid Hm Hq.
      assert (cid ∈ c :: rest) as Hcid by (apply Hch; eauto).
      apply StronglySorted_inv in Hsorted as [_ Hall].
      apply elem_of_cons in Hcid as [->|Hcid]; [lia|].
      rewrite Forall_forall in Hall. specialize (Hall cid Hcid). lia.
    + destruct (match read (port oldState) pid with
                | Own _ => _ | Inherited => _ | Missing => _ end);
        [|by apply elem_of_nil in Hin].
      destruct (clip v) as [c|].
      * apply elem_of_cons in Hin as [Hin|Hin]; [done|].
        apply list_elem_of_singleton in Hin. by destruct (playing c).
      * by apply list_elem_of_singleton in Hin.
  - unfold diffOldPort in Hin.
    destruct (read (port newState) k);
      [by apply elem_of_nil in Hin|by apply elem_of_nil in Hin|].
    by apply list_elem_of_singleton in Hin.
Qed.

Lemma diffStates_by_port_witness :
  filter (λ cmd, cmd_portId cmd = "P1")
    (_diffStates (emptyAt 0) (playNews 10000) 10000)
  = [ SetupPort 9000 "P1" "obj0" 1;
      LoadClipFragments 9000 "P1" "obj0" newsClip 10000;
      PlayClip 10000 "P1" "obj0" newsClip QUALITY ].
Proof.
  apply (diffStates_by_port (emptyAt 0) (playNews 10000) 10000 "P1").
  - constructor.
  - apply (bool_decide_unpack _). vm_compute. exact I.
  - reflexivity.
Defined.

(** The port P1 in another mode and for another object, and a new port
    P2. *)
Definition speedP1 : QuantelStatePort :=
  {| timelineObjId := "obj1"; clip := Some newsClip; port_mode := SPEED;
     channels := [1] |}.

Definition emptyP2 : QuantelStatePort :=
  {| timelineObjId := ""; clip := None; port_mode := QUALITY; channels := [2] |}.

Definition speedNews (t : Z) : QuantelState :=
  {| time := t; port := [("P1", speedP1); ("P2", emptyP2)] |}.

Lemma mode_change_gives_no_command_witness :
  _diffStates (playNews 10000) (speedNews 20000) 20000
  = [SetupPort 19000 "P2" "" 2; ClearClip 20000 "P2" ""]
  ∧ cmd_portId (SetupPort 19000 "P2" "" 2) ≠ "P1".
Proof.
  split; [reflexivity|].
  apply (mode_change_gives_no_command (playNews 10000) (speedNews 20000) 20000
           "P1" portP1 speedP1).
  - apply (bool_decide_unpack _). vm_compute. exact I.
  - reflexivity.
  - reflexivity.
  - reflexivity.
  - reflexivity.
  - vm_compute. left.
Defined.

Definition onlyFirst : TimelineState :=
  {| tl_time := 20000; layers := [("L1", clipLayer "obj1" "NEWS" 10000)] |}.

Definition firstOnP1 : QuantelStatePort :=
  {| timelineObjId := "obj1";
     clip := Some {| title := "NEWS"; clipId := None; playing := true;
                     playTime := Some 10000; pauseTime := None; inPoint := None;
                     length := None |};
     port_mode := SPEED;
     channels := [1; 2] |}.

Lemma same_mappings_keep_the_ports_witness :
  cmd_type (PlayClip 20000 "P1" "obj1"
              {| title := "NEWS"; clipId := None; playing := true;
                 playTime := Some 10000; pauseTime := None; inPoint := None;
                 length := None |} SPEED)
  ∈ [LOADCLIPFRAGMENTS; PLAYCLIP; PAUSECLIP; CLEARCLIP].
Proof.
  apply (same_mappings_keep_the_ports twoOnP1 bothPlaying onlyFirst
           {| time := 10000; port := [("P1", bothOnP1)] |}
           {| time := 20000; port := [("P1", firstOnP1)] |} 20000).
  - reflexivity.
  - reflexivity.
  - vm_compute. right. left.
Defined.

Lemma setup_is_for_the_lowest_channel_witness :
  1 ≠ 0
  ∧ (∃ m, m ∈ map snd twoOnP1 ∧ quantelMapping m = Some ("P1", 1))
  ∧ ∀ m cid, m ∈ map snd twoOnP1 → quantelMapping m = Some ("P1", cid) → 1 ≤ cid.
Proof.
  apply (setup_is_for_the_lowest_channel twoOnP1 bothPlaying (emptyAt 0)
           {| time := 10000; port := [("P1", bothOnP1)] |} 10000 9000 "P1" "obj2").
  - reflexivity.
  - vm_compute. left.
Defined.

End QuantelDifferFacts.

(** ** More on the Quantel manager *)

Module QuantelPortFacts.
Import Quantel QuantelDifferFacts.

Section Manager.
Variable quantel : QuantelGateway.
Variable getCurrentTime : nat → Z.
Variable Date_now : nat → Z.

Ltac run :=
  unfold Cache_getSet;
  unfold try_catch, await, not_awaited, throw, writePort, readPort, wait,
    trackedPortOf, getTrackedPort, currentTime, Cache_exists, Cache_get,
    Cache_set;
  unfold write, called;
  unfold mbind, mret, Async_bind, Async_ret;
  simpl.

Ltac branch :=
  first
    [ match goal with
      | |- context [match ?x with _ => _ end] =>
          lazymatch x with
          | context [match _ with _ => _ end] => fail
          | _ => destruct x
          end
      end
    | match goal with
      | |- context [if ?b then _ else _] =>
          lazymatch type of b with
          | bool => destruct b
          end
      end ];
  simpl.

(** The error of [getTrackedPort]. *)
Definition missing (port : string) : Exception :=
  Error ("Port " +:+ port +:+ " missing in tracked quantel state").

Lemma execute_untracked (cmd : QuantelCommand) (m : Manager) :
  cmd_type cmd ∈ [LOADCLIPFRAGMENTS; PLAYCLIP; PAUSECLIP; CLEARCLIP] →
  ts_port (_quantelState m) !! cmd_portId cmd = None →
  execute quantel getCurrentTime Date_now cmd m
  = (Throw (missing (cmd_portId cmd)), m, []).
Proof.
  intros Hty Hport. destruct cmd; simpl in *.
  - repeat (apply elem_of_cons in Hty as [?|Hty]; [done|]).
    by apply elem_of_nil in Hty.
  - unfold loadClipFragments. run. by rewrite Hport.
  - unfold playClip, prepareClipJump. run. by rewrite Hport.
  - unfold pauseClip, prepareClipJump. run. by rewrite Hport.
  - unfold clearClip. run. by rewrite Hport.
  - repeat (apply elem_of_cons in Hty as [?|Hty]; [done|]).
    by apply elem_of_nil in Hty.
Qed.

(** X13.  LOADCLIPFRAGMENTS, PLAYCLIP, PAUSECLIP and CLEARCLIP for a port
    that is not in the tracked state throw the error that the port is
    missing, before any call to the gateway, and leave the manager as it
    was. *)
Theorem untracked_port_refuses_clips (cmd : QuantelCommand) (m : Manager) :
  cmd_type cmd ∈ [LOADCLIPFRAGMENTS; PLAYCLIP; PAUSECLIP; CLEARCLIP] →
  ts_port (_quantelState m) !! cmd_portId cmd = None →
  execute quantel getCurrentTime Date_now cmd m
  = (Throw (Error ("Port " +:+ cmd_portId cmd
                   +:+ " missing in tracked quantel state")), m, []).
Proof. apply execute_untracked. Qed.

(** X14.  When [releasePort] returns, which it does when the gateway
    acknowledges the release and also when it rejects it with status
    404, the port is out of the tracked state and the other ports are as
    they were; a clip command for the port then fails, the port missing,
    without a call to the gateway. *)
Theorem released_port_is_forgotten (port : string) (m : Manager)
    (cmd : QuantelCommand) :
  let released := snd (fst (releasePort quantel port m)) in
  fst (fst (releasePort quantel port m)) = Return () →
  cmd_type cmd ∈ [LOADCLIPFRAGMENTS; PLAYCLIP; PAUSECLIP; CLEARCLIP] →
  cmd_portId cmd = port →
  ts_port (_quantelState released) = delete port (ts_port (_quantelState m))
  ∧ execute quantel getCurrentTime Date_now cmd released
    = (Throw (Error ("Port " +:+ port +:+ " missing in tracked quantel state")),
       released, []).
Proof.
  cbv zeta. intros Hret Hty Hport.
  assert (ts_port (_quantelState (snd (fst (releasePort quantel port m))))
          = delete port (ts_port (_quantelState m))) as Hdel.
  { revert Hret. unfold releasePort. run.
    repeat branch; first [reflexivity | discriminate]. }
  split; [done|]. subst port. apply execute_untracked; [done|].
  rewrite Hdel. apply lookup_delete_eq.
Qed.

(** The entry that [setupPort] stores. *)
Definition freshPort (channel : Z) : QuantelTrackedStatePort :=
  {| loadedFragments := ∅; offset := 0; tp_playing := false; jumpOffset := None;
     scheduledStop := None; tp_channel := channel |}.

(** X15.  When [setupPort] returns, the port is tracked on the channel
    asked for and the other ports are as they were: either the port was
    tracked on that channel already and nothing was done, or it was
    created anew, with nothing loaded.  A second [setupPort] for the same
    port and channel then does nothing: no call to the gateway, no
    change. *)
Theorem setupPort_settles (port : string) (channel : Z) (m : Manager) :
  let ready := snd (fst (setupPort quantel port channel m)) in
  fst (fst (setupPort quantel port channel m)) = Return () →
  ((∃ t, ts_port (_quantelState m) !! port = Some t ∧ tp_channel t = channel
         ∧ setupPort quantel port channel m = (Return (), m, []))
   ∨ ts_port (_quantelState ready)
     = <[port := freshPort channel]> (ts_port (_quantelState m)))
  ∧ (∃ t, ts_port (_quantelState ready) !! port = Some t ∧ tp_channel t = channel)
  ∧ (∀ other, other ≠ port →
       ts_port (_quantelState ready) !! other
       = ts_port (_quantelState m) !! other)
  ∧ setupPort quantel port channel ready = (Return (), ready, []).
Proof.
  cbv zeta. intros Hret.
  assert (∀ m', (∃ t, ts_port (_quantelState m') !! port = Some t
                      ∧ tp_channel t = channel) →
                setupPort quantel port channel m' = (Return (), m', [])) as Hidle.
  { intros m' (t & Ht & Hch). unfold setupPort. run. rewrite Ht, Hch.
    by rewrite Z.eqb_refl. }
  destruct (ts_port (_quantelState m) !! port) as [t|] eqn:Ht.
  - destruct (Z.eqb_spec (tp_channel t) channel) as [Hch|Hch].
    + rewrite (Hidle m) by eauto. simpl.
      split; [left; eauto|]. split; [eauto|]. split; [done|]. apply Hidle. eauto.
    + assert (ts_port (_quantelState (snd (fst (setupPort quantel port channel m))))
              = <[port := freshPort channel]> (ts_port (_quantelState m))) as Hnew.
      { revert Hret. unfold setupPort. run. rewrite Ht. simpl.
        destruct (Z.eqb_spec (tp_channel t) channel); [done|]. simpl.
        repeat branch; first [reflexivity | discriminate]. }
      split; [by right|]. rewrite Hnew.
      split; [exists (freshPort channel); by rewrite lookup_insert_eq|].
      split; [intros other Hne; by rewrite lookup_insert_ne|].
      apply Hidle. rewrite Hnew. exists (freshPort channel).
      by rewrite lookup_insert_eq.
  - assert (ts_port (_quantelState (snd (fst (setupPort quantel port channel m))))
            = <[port := freshPort channel]> (ts_port (_quantelState m))) as Hnew.
    { revert Hret. unfold setupPort. run. rewrite Ht. simpl.
      repeat branch; first [reflexivity | discriminate]. }
    split; [by right|]. rewrite Hnew.
    split; [exists (freshPort channel); by rewrite lookup_insert_eq|].
    split; [intros other Hne; by rewrite lookup_insert_ne|].
    apply Hidle. rewrite Hnew. exists (freshPort channel).
    by rewrite lookup_insert_eq.
Qed.

(** The gateway calls of the lookup of a clip id. *)
Definition lookupOnly (e : Event) : bool :=
  match e with
  | Awaited GetServer _ | Awaited SearchClip _ | Write ClipIdOfTitle
  | CleanScheduled => true
  | _ => false
  end.

(** [getClipId] leaves the tracked ports alone. *)
Lemma getClipId_keeps_ports (clip : QuantelStatePortClip) (m : Manager) :
  ts_port (_quantelState (snd (fst (getClipId quantel Date_now clip m))))
  = ts_port (_quantelState m)
  ∧ forallb lookupOnly (snd (getClipId quantel Date_now clip m)) = true.
Proof.
  unfold getClipId, getServer. run. repeat branch; split; reflexivity.
Qed.

(** The port calls of [prepareClipJump]. *)
Definition portCall (e : Event) : bool :=
  match e with
  | Awaited (PortPrepareJump | PortTriggerJump | PortStop | PortPlay) _
  | NotAwaited _ => true
  | _ => false
  end.

Lemma prepareClipJump_nothing_loaded (port : string) (clip : QuantelStatePortClip)
    (mode : QuantelControlMode) (alsoDoAction : option Action) (m : Manager) :
  (∀ t, ts_port (_quantelState m) !! port = Some t → loadedFragments t = ∅) →
  let r := prepareClipJump quantel getCurrentTime Date_now port clip mode
             alsoDoAction m in
  (∃ e, fst (fst r) = Throw e)
  ∧ ts_port (_quantelState (snd (fst r))) = ts_port (_quantelState m)
  ∧ forallb lookupOnly (snd r) = true.
Proof.
  intros Hempty. cbv zeta. unfold prepareClipJump.
  pose proof (getClipId_keeps_ports clip m) as [Hports Hevents].
  run. destruct (ts_port (_quantelState m) !! port) as [t|] eqn:Ht; simpl.
  - destruct (getClipId quantel Date_now clip m) as [[[clipId|e] m1] events1];
      simpl in *; [|eauto].
    rewrite Hports, Ht. simpl. rewrite (Hempty t) by done.
    rewrite lookup_empty. simpl. rewrite app_nil_r. eauto.
  - eauto.
Qed.

(** X16.  After [clearClip] has returned, nothing is loaded on the port:
    a PLAYCLIP or PAUSECLIP that comes without a new LOADCLIPFRAGMENTS
    fails, whatever the gateway replies.  It makes no call for the port
    (at most the lookup of the clip id) and leaves the tracked ports as
    they are. *)
Theorem cleared_port_has_nothing_to_play (port : string) (m : Manager)
    (clip : QuantelStatePortClip) (mode : QuantelControlMode)
    (alsoDoAction : option Action) :
  let cleared := snd (fst (clearClip quantel port m)) in
  let r := prepareClipJump quantel getCurrentTime Date_now port clip mode
             alsoDoAction cleared in
  fst (fst (clearClip quantel port m)) = Return () →
  (∃ e, fst (fst r) = Throw e)
  ∧ ts_port (_quantelState (snd (fst r))) = ts_port (_quantelState cleared)
  ∧ forallb lookupOnly (snd r) = true.
Proof.
  cbv zeta. intros Hret. apply prepareClipJump_nothing_loaded.
  revert Hret. unfold clearClip. run.
  destruct (ts_port (_quantelState m) !! port) as [t0|] eqn:Ht0; simpl; [|done].
  destruct (gw_portClear quantel (calls m) port); simpl; [|done].
  intros _ t. rewrite !lookup_alter_eq, Ht0. simpl. by intros [= <-].
Qed.

(** X17.  When PLAYCLIP or PAUSECLIP returns, the tracked port says so:
    after a play the port is playing and scheduled to stop at the out
    point of the fragments that the port holds for the clip played, the
    ones under the id that [getClipId] gives for it (no stop for an out
    point 0); after a pause it is not playing.  Either leaves the channel
    and the loaded fragments of the port as they were. *)
Theorem play_and_pause_are_tracked (port : string) (clip : QuantelStatePortClip)
    (mode : QuantelControlMode) (action : Action) (m : Manager) :
  let r := prepareClipJump quantel getCurrentTime Date_now port clip mode
             (Some action) m in
  let lookup := getClipId quantel Date_now clip m in
  fst (fst r) = Return () →
  ∃ t t' cid loaded,
    ts_port (_quantelState m) !! port = Some t
    ∧ ts_port (_quantelState (snd (fst r))) !! port = Some t'
    ∧ fst (fst lookup) = Return cid
    ∧ loadedFragments t !! cid = Some loaded
    ∧ loadedFragments t' = loadedFragments t
    ∧ tp_channel t' = tp_channel t
    ∧ match action with
      | play =>
          tp_playing t' = true
          ∧ scheduledStop t'
            = if portOutPoint loaded =? 0 then None else Some (portOutPoint loaded)
      | pause => tp_playing t' = false
      end.
Proof.
  cbv zeta. unfold prepareClipJump, pausePlayback, triggerJump.
  pose proof (getClipId_keeps_ports clip m) as [Hports _].
  run. destruct (ts_port (_quantelState m) !! port) as [t|] eqn:Ht; simpl; [|done].
  destruct (getClipId quantel Date_now clip m) as [[[cid|e] m1] events1];
    simpl in *; [|done].
  rewrite Hports, Ht. simpl.
  destruct (loadedFragments t !! cid) as [loaded|] eqn:Hloaded; simpl; [|done].
  destruct (portOutPoint loaded) eqn:Hout; destruct action; simpl.
  all: repeat (first [ progress (rewrite ?lookup_alter_eq, ?Hports, ?Ht; simpl)
                     | branch ]).
  all: try discriminate.
  all: intros _; exists t; eexists; exists cid, loaded;
    rewrite ?lookup_alter_eq, ?Hports, ?Ht, ?Hout; simpl;
    split; [reflexivity|]; split; [reflexivity|]; split; [reflexivity|];
    split; [exact Hloaded|]; simpl; repeat split; reflexivity.
Qed.

Ltac branch_eq :=
  first
    [ match goal with
      | |- context [match ?x with _ => _ end] =>
          lazymatch x with
          | context [match _ with _ => _ end] => fail
          | _ => destruct x eqn:?
          end
      end
    | match goal with
      | |- context [if ?b then _ else _] =>
          lazymatch type of b with
          | bool => destruct b eqn:?
          end
      end ];
  simpl.

(** The key of the clip id of a title in the cache. *)
Definition clipKey (clip : QuantelStatePortClip) : string :=
  "clip." +:+ title clip +:+ ".clipId".

Lemma getClipId_stores (clip : QuantelStatePortClip) (m : Manager) (cid : Z) :
  let r := getClipId quantel Date_now clip m in
  truthy_number (clipId clip) = false →
  fst (fst r) = Return cid →
  Awaited SearchClip Resolved ∈ snd r →
  data (_cache (snd (fst r))) !! clipKey clip
  = Some {| endTime := Date_now (calls (snd (fst r))) + 30000; value := cid |}
  ∧ cid ≠ 0 ∧ title clip ≠ EmptyString.
Proof.
  cbv zeta. intros Hfalsy. unfold getClipId, getServer. run. rewrite Hfalsy. simpl.
  fold (clipKey clip).
  destruct (String.eqb_spec (title clip) EmptyString) as [Hempty|Hempty]; simpl.
  - destruct (clipId clip) as [c|]; simpl in *.
    + destruct (Z.eqb_spec c 0); [done|]. done.
    + done.
  - repeat branch_eq; try discriminate; intros [= <-] Hin;
      first
        [ by apply elem_of_nil in Hin
        | split; [by rewrite lookup_insert_eq|]; split; [|done];
          lazymatch goal with
          | H : negb (ClipID _ =? 0) = true |- _ =>
              by apply negb_true_iff, Z.eqb_neq in H
          end ].
Qed.

(** X18.  The clip id of a title is looked up once in 30 seconds.  After
    a lookup that searched the clip and returned its id, the next lookup
    of the same title returns that id without a call to the gateway as
    long as the clock is at most 30000 ms past the time of the first
    lookup, also when the clip of that title has got another id in the
    meantime; after that, it asks the gateway again. *)
Theorem clip_id_is_cached (clip : QuantelStatePortClip) (m later : Manager)
    (cid : Z) :
  let r := getClipId quantel Date_now clip m in
  truthy_number (clipId clip) = false →
  fst (fst r) = Return cid →
  Awaited SearchClip Resolved ∈ snd r →
  _cache later = _cache (snd (fst r)) →
  (Date_now (calls later) ≤ Date_now (calls (snd (fst r))) + 30000 →
   getClipId quantel Date_now clip later = (Return cid, later, []))
  ∧ (Date_now (calls later) > Date_now (calls (snd (fst r))) + 30000 →
     ∃ completion,
       head (snd (getClipId quantel Date_now clip later))
       = Some (Awaited GetServer completion)).
Proof.
  cbv zeta. intros Hfalsy Hret Hin Hcache.
  destruct (getClipId_stores clip m cid Hfalsy Hret Hin) as (Hentry & Hcid & Htitle).
  rewrite <- Hcache in Hentry.
  apply String.eqb_neq in Htitle. apply Z.eqb_neq in Hcid.
  split; intros Hclock.
  - apply Z.leb_le in Hclock.
    unfold getClipId. run. rewrite Hfalsy, Htitle. simpl. fold (clipKey clip).
    rewrite Hentry. simpl. rewrite Hclock. simpl.
    rewrite !Hentry. simpl. rewrite !Hclock. simpl. by destruct cid.
  - assert ((Date_now (calls later)
             <=? Date_now (calls (snd (fst (getClipId quantel Date_now clip m))))
                 + 30000) = false) as Hlate by (apply Z.leb_gt; lia).
    unfold getClipId at 1, getServer. run. rewrite Hfalsy, Htitle. simpl.
    fold (clipKey clip). rewrite Hentry. simpl. rewrite Hlate. simpl.
    repeat branch; eauto.
Qed.

(** X19.  In the mode SPEED, a PAUSECLIP for a port without a prepared
    jump never asks the gateway to stop the port.  When it returns, all
    it has done for the port is the hard jump, whose outcome it does not
    wait for, and the port is tracked as not playing at the offset of the
    jump. *)
Theorem speed_pause_only_jumps (port : string) (clip : QuantelStatePortClip)
    (m : Manager) (t : QuantelTrackedStatePort) :
  let r := pauseClip quantel getCurrentTime Date_now port clip SPEED m in
  ts_port (_quantelState m) !! port = Some t →
  jumpOffset t = None →
  fst (fst r) = Return () →
  ∃ lookup t',
    snd r = lookup ++ [NotAwaited PortHardJump; Write Offset; Write Playing]
    ∧ forallb lookupOnly lookup = true
    ∧ ts_port (_quantelState (snd (fst r))) !! port = Some t'
    ∧ tp_playing t' = false
    ∧ scheduledStop t' = scheduledStop t.
Proof.
  cbv zeta. intros Ht Hjump. unfold pauseClip, prepareClipJump.
  pose proof (getClipId_keeps_ports clip m) as [Hports Hevents].
  run. rewrite Ht. simpl.
  destruct (getClipId quantel Date_now clip m) as [[[cid|e] m1] events1];
    simpl in *; [|done].
  rewrite Hports, Ht. simpl.
  destruct (loadedFragments t !! cid) as [loaded|]; simpl; [|done].
  repeat (progress (rewrite ?Hports, ?Ht, ?Hjump; unfold staleJump; simpl)).
  intros _. exists events1. eexists. split; [reflexivity|]. split; [done|].
  rewrite ?lookup_alter_eq, ?Hports, ?Ht. simpl. done.
Qed.

(** A clip that has its id needs no lookup. *)
Lemma getClipId_given (clip : QuantelStatePortClip) (m : Manager) (c : Z) :
  clipId clip = Some c → c ≠ 0 →
  getClipId quantel Date_now clip m = (Return c, m, []).
Proof.
  intros Hc Hne. unfold getClipId. run. rewrite Hc. simpl.
  destruct (Z.eqb_spec c 0) as [|_]; [done|]. simpl.
  by destruct c.
Qed.

Lemma reusable_Some (stored : option LoadedFragments) (inFrames outFrames : Z)
    (reused : LoadedFragments) :
  reusable stored inFrames outFrames = Some reused →
  stored = Some reused ∧ lf_inPoint reused = inFrames
  ∧ lf_outPoint reused = outFrames.
Proof.
  unfold reusable. destruct stored as [l|]; [|done].
  destruct (Z.eqb_spec (lf_inPoint l) inFrames); [|done].
  destruct (Z.eqb_spec (lf_outPoint l) outFrames); [|done].
  by intros [= <-].
Qed.

(** Whether the gateway has prepared a jump. *)
Definition jumpPrepared (e : Event) : bool :=
  match e with
  | Awaited PortPrepareJump Resolved => true
  | _ => false
  end.

(** X28.  When LOADCLIPFRAGMENTS returns, the fragments of the clip are
    tracked for the port under the id of the clip, with the in point
    computed from the clip, so that a PLAYCLIP or PAUSECLIP of that clip
    finds them; the fragments of other clips, the channel, the offset
    and the playing flag of the port are as they were.  The prepared jump
    is either as it was, or, when the gateway has prepared the jump, at
    the port in point of these fragments. *)
Theorem loaded_clip_is_tracked (port : string) (clip : QuantelStatePortClip)
    (timeOfPlay : Z) (m : Manager) :
  let r := loadClipFragments quantel getCurrentTime Date_now port clip timeOfPlay
             m in
  fst (fst r) = Return () →
  ∃ t t' cid loaded,
    ts_port (_quantelState m) !! port = Some t
    ∧ ts_port (_quantelState (snd (fst r))) !! port = Some t'
    ∧ loadedFragments t' !! cid = Some loaded
    ∧ lf_inPoint loaded = inPointFrames clip
    ∧ (∀ other, other ≠ cid →
         loadedFragments t' !! other = loadedFragments t !! other)
    ∧ tp_channel t' = tp_channel t
    ∧ offset t' = offset t
    ∧ tp_playing t' = tp_playing t
    ∧ (if existsb jumpPrepared (snd r)
       then jumpOffset t' = Some (portInPoint loaded)
       else jumpOffset t' = jumpOffset t)
    ∧ (∀ c, clipId clip = Some c → c ≠ 0 → cid = c).
Proof.
  cbv zeta. unfold loadClipFragments, getServer. run.
  destruct (ts_port (_quantelState m) !! port) as [t|] eqn:Ht; simpl; [|done].
  destruct (gw_getServer quantel (calls m)) as [[server|]|]; simpl; [|done|done].
  destruct (pools server) as [[|pool pools]|] eqn:Hpools; simpl; [done| |done].
  match goal with
  | |- context [getClipId quantel Date_now clip ?M] =>
      pose proof (getClipId_keeps_ports clip M) as [Hports Hlookup];
      pose proof (getClipId_given clip M) as Hgiven;
      destruct (getClipId quantel Date_now clip M) as [[[cid|e] m1] events1]
  end; simpl in *; [|done].
  assert (∀ c, clipId clip = Some c → c ≠ 0 → cid = c) as Hcid.
  { intros c Hc Hne. specialize (Hgiven c Hc Hne). congruence. }
  clear Hgiven.
  assert (existsb jumpPrepared events1 = false) as Hquiet.
  { clear - Hlookup. induction events1 as [|e events1 IH]; [done|].
    simpl in *. apply andb_true_iff in Hlookup as [He Hrest].
    rewrite (IH Hrest). by destruct e as [[] []| | | |]. }
  destruct (gw_getClip quantel (calls m1) cid) as [[clipData|]|]; simpl;
    [|done|done].
  destruct (negb (truthy_number (PoolID clipData))); simpl; [done|].
  destruct (negb (bool_decide _)); simpl; [done|].
  rewrite Hports, Ht. simpl.
  destruct (reusable (loadedFragments t !! cid) (inPointFrames clip)
              (outPointFrames clip clipData)) as [reused|] eqn:Hreuse; simpl.
  - apply reusable_Some in Hreuse as (Hloaded & Hin & Hout).
    repeat (first [ progress (rewrite ?lookup_alter_eq, ?Hports, ?Ht,
                                ?existsb_app, ?Hquiet; simpl)
                  | branch ]).
    all: try discriminate.
    all: intros _; exists t; eexists; exists cid, reused;
      rewrite ?lookup_alter_eq, ?Hports, ?Ht; simpl;
      (split; [reflexivity|]); (split; [reflexivity|]); simpl; done.
  - clear Hreuse.
    repeat (first [ progress (rewrite ?lookup_alter_eq, ?Hports, ?Ht,
                                ?existsb_app, ?Hquiet; simpl)
                  | branch ]).
    all: try discriminate.
    all: intros _; exists t; eexists; exists cid; eexists;
      rewrite ?lookup_alter_eq, ?Hports, ?Ht; simpl;
      (split; [reflexivity|]); (split; [reflexivity|]); simpl;
      (split; [apply lookup_insert_eq|]); simpl;
      (split; [reflexivity|]);
      (split; [intros other Hne; by rewrite lookup_insert_ne|]); done.
Qed.

(** X29.  In the mode QUALITY, when PLAYCLIP or PAUSECLIP returns, the
    port is tracked at the offset of its prepared jump.  That is the
    offset the clip asks for (the port in point of its fragments plus the
    frames since its play time), unless a jump was prepared before: a
    prepared jump at most JUMP_ERROR_MARGIN frames off, or one to the
    offset 0 however far off, is the one that is taken. *)
Theorem quality_jump_is_the_prepared_one (port : string)
    (clip : QuantelStatePortClip) (alsoDoAction : option Action) (m : Manager) :
  let r := prepareClipJump quantel getCurrentTime Date_now port clip QUALITY
             alsoDoAction m in
  let lookup := getClipId quantel Date_now clip m in
  fst (fst r) = Return () →
  ∃ t t' cid loaded,
    ts_port (_quantelState m) !! port = Some t
    ∧ ts_port (_quantelState (snd (fst r))) !! port = Some t'
    ∧ fst (fst lookup) = Return cid
    ∧ loadedFragments t !! cid = Some loaded
    ∧ jumpOffset t' = Some (offset t')
    ∧ let target :=
          jumpToOffsetOf loaded clip (getCurrentTime (calls (snd (fst lookup)))) in
      match jumpOffset t with
      | Some j =>
          if (j =? 0) || (Z.abs (j - target) <=? JUMP_ERROR_MARGIN)
          then offset t' = j else offset t' = target
      | None => offset t' = target
      end.
Proof.
  cbv zeta. unfold prepareClipJump, pausePlayback, triggerJump.
  pose proof (getClipId_keeps_ports clip m) as [Hports _].
  run. destruct (ts_port (_quantelState m) !! port) as [t|] eqn:Ht; simpl; [|done].
  destruct (getClipId quantel Date_now clip m) as [[[cid|e] m1] events1];
    simpl in *; [|done].
  rewrite Hports, Ht. simpl.
  destruct (loadedFragments t !! cid) as [loaded|] eqn:Hloaded; simpl; [|done].
  remember (jumpToOffsetOf loaded clip (getCurrentTime (calls m1))) as target
    eqn:Htarget.
  unfold staleJump.
  destruct (jumpOffset t) as [j|] eqn:Hjump.
  - rewrite Hports, Ht. cbn [from_option]. rewrite Hjump.
    cbn [from_option]. unfold Datatypes.id. rewrite Z.gtb_ltb.
    destruct (JUMP_ERROR_MARGIN <? Z.abs (j - target)) eqn:Hoff;
      destruct j as [|j|j]; simpl.
    all: repeat (first [ progress (rewrite ?lookup_alter_eq, ?Hports, ?Ht, ?Hjump; simpl)
                     | branch ]).
    all: try discriminate.
    all: intros _; subst target; exists t; eexists; exists cid, loaded;
        rewrite ?lookup_alter_eq, ?Hports, ?Ht;
        (split; [reflexivity|]); (split; [reflexivity|]);
        (split; [reflexivity|]); (split; [exact Hloaded|]);
        cbv zeta; (split; [simpl; rewrite ?Hjump; reflexivity|]);
        rewrite Hjump, Z.leb_antisym, Hoff; reflexivity.
  - repeat (first [ progress (rewrite ?lookup_alter_eq, ?Hports, ?Ht, ?Hjump; simpl)
                     | branch ]).
    all: try discriminate.
    all: intros _; exists t; eexists; exists cid, loaded;
        rewrite ?lookup_alter_eq, ?Hports, ?Ht; simpl;
        (split; [reflexivity|]); (split; [reflexivity|]);
        (split; [reflexivity|]); (split; [exact Hloaded|]);
        cbv zeta; (split; [reflexivity|]); rewrite Hjump; subst target;
        reflexivity.
Qed.

End Manager.

(** *** Runs of the manager *)

Import QuantelManagerFacts.

(** A gateway that does what it is asked. *)
Definition obligingGateway : QuantelGateway :=
  {| serverId := 1100;
     gw_getServer := λ _, Resolve (Some {| ident := 1100; pools := Some [11] |});
     gw_getPort := λ _ _, Resolve (Some {| endOfData := Some 100 |});
     gw_createPort := λ _ _ _, Resolve ();
     gw_releasePort := λ _ _, Resolve ();
     gw_searchClip := λ _ _, Resolve [newsClipData];
     gw_getClip := λ _ _, Resolve (Some newsClipData);
     gw_getClipFragments := λ _ _ _, Resolve [{| finish := 500 |}];
     gw_loadFragmentsOntoPort := λ _ _ _ _, Resolve (Some {| endOfData := Some 600 |});
     gw_portPrepareJump := λ _ _ _, Resolve ();
     gw_portTriggerJump := λ _ _, Resolve ();
     gw_portHardJump := λ _ _ _, Resolve ();
     gw_portStop := λ _ _ _, Resolve ();
     gw_portPlay := λ _ _, Resolve ();
     gw_portClear := λ _ _, Resolve () |}.

(** The manager before any command. *)
Definition newManager : Manager :=
  {| _quantelState := {| ts_clipId := ∅; ts_port := ∅ |};
     _cache := {| data := ∅; callCount := 0 |};
     calls := 0 |}.

(** A clock that advances by a second with every call of the gateway. *)
Definition clock (n : nat) : Z := 9000 + 1000 * Z.of_nat n.

Lemma untracked_port_refuses_clips_witness :
  execute obligingGateway clock clock (ClearClip 10000 "P1" "obj0") newManager
  = (Throw (Error "Port P1 missing in tracked quantel state"), newManager, []).
Proof.
  apply (untracked_port_refuses_clips obligingGateway clock clock
           (ClearClip 10000 "P1" "obj0") newManager).
  - vm_compute. do 3 right. left.
  - reflexivity.
Defined.

Lemma released_port_is_forgotten_witness :
  ts_port (_quantelState (snd (fst (releasePort obligingGateway "P1" managerWithClip))))
  = delete "P1" (ts_port (_quantelState managerWithClip))
  ∧ execute obligingGateway clock clock (PlayClip 10000 "P1" "obj0" clip42 QUALITY)
      (snd (fst (releasePort obligingGateway "P1" managerWithClip)))
    = (Throw (Error "Port P1 missing in tracked quantel state"),
       snd (fst (releasePort obligingGateway "P1" managerWithClip)), []).
Proof.
  apply (released_port_is_forgotten obligingGateway clock clock "P1"
           managerWithClip (PlayClip 10000 "P1" "obj0" clip42 QUALITY)).
  - reflexivity.
  - vm_compute. right. left.
  - reflexivity.
Defined.

Lemma setupPort_settles_witness :
  ((∃ t, ts_port (_quantelState managerWithClip) !! "P1" = Some t
         ∧ tp_channel t = 2
         ∧ setupPort obligingGateway "P1" 2 managerWithClip
           = (Return (), managerWithClip, []))
   ∨ ts_port (_quantelState
                (snd (fst (setupPort obligingGateway "P1" 2 managerWithClip))))
     = <["P1" := freshPort 2]> (ts_port (_quantelState managerWithClip)))
  ∧ (∃ t, ts_port (_quantelState
                     (snd (fst (setupPort obligingGateway "P1" 2 managerWithClip))))
          !! "P1" = Some t ∧ tp_channel t = 2)
  ∧ (∀ other, other ≠ "P1" →
       ts_port (_quantelState
                  (snd (fst (setupPort obligingGateway "P1" 2 managerWithClip))))
       !! other
       = ts_port (_quantelState managerWithClip) !! other)
  ∧ setupPort obligingGateway "P1" 2
      (snd (fst (setupPort obligingGateway "P1" 2 managerWithClip)))
    = (Return (), snd (fst (setupPort obligingGateway "P1" 2 managerWithClip)), []).
Proof.
  apply (setupPort_settles obligingGateway "P1" 2 managerWithClip). reflexivity.
Defined.

Lemma cleared_port_has_nothing_to_play_witness :
  (∃ e, fst (fst (prepareClipJump obligingGateway clock clock "P1" clip42 QUALITY
                    (Some play)
                    (snd (fst (clearClip obligingGateway "P1" managerWithClip)))))
        = Throw e)
  ∧ ts_port (_quantelState
               (snd (fst (prepareClipJump obligingGateway clock clock "P1" clip42
                            QUALITY (Some play)
                            (snd (fst (clearClip obligingGateway "P1"
                                         managerWithClip)))))))
    = ts_port (_quantelState
                 (snd (fst (clearClip obligingGateway "P1" managerWithClip))))
  ∧ forallb lookupOnly
      (snd (prepareClipJump obligingGateway clock clock "P1" clip42 QUALITY
              (Some play)
              (snd (fst (clearClip obligingGateway "P1" managerWithClip)))))
    = true.
Proof.
  apply (cleared_port_has_nothing_to_play obligingGateway clock clock "P1"
           managerWithClip clip42 QUALITY (Some play)).
  reflexivity.
Defined.

Lemma play_and_pause_are_tracked_witness :
  ∃ t t' cid loaded,
    ts_port (_quantelState managerWithClip) !! "P1" = Some t
    ∧ ts_port (_quantelState
                 (snd (fst (prepareClipJump obligingGateway clock clock "P1" clip42
                              QUALITY (Some play) managerWithClip))))
      !! "P1" = Some t'
    ∧ fst (fst (getClipId obligingGateway clock clip42 managerWithClip))
      = Return cid
    ∧ loadedFragments t !! cid = Some loaded
    ∧ loadedFragments t' = loadedFragments t
    ∧ tp_channel t' = tp_channel t
    ∧ tp_playing t' = true
    ∧ scheduledStop t'
      = if portOutPoint loaded =? 0 then None else Some (portOutPoint loaded).
Proof.
  apply (play_and_pause_are_tracked obligingGateway clock clock "P1" clip42
           QUALITY play managerWithClip).
  reflexivity.
Defined.

Lemma loaded_clip_is_tracked_witness :
  let r := loadClipFragments obligingGateway clock clock "P1" clip42 10000
             managerWithP1 in
  ∃ t t' cid loaded,
    ts_port (_quantelState managerWithP1) !! "P1" = Some t
    ∧ ts_port (_quantelState (snd (fst r))) !! "P1" = Some t'
    ∧ loadedFragments t' !! cid = Some loaded
    ∧ lf_inPoint loaded = inPointFrames clip42
    ∧ (∀ other, other ≠ cid → loadedFragments t' !! other = loadedFragments t !! other)
    ∧ tp_channel t' = tp_channel t ∧ offset t' = offset t
    ∧ tp_playing t' = tp_playing t
    ∧ (if existsb jumpPrepared (snd r)
       then jumpOffset t' = Some (portInPoint loaded)
       else jumpOffset t' = jumpOffset t)
    ∧ (∀ c, clipId clip42 = Some c → c ≠ 0 → cid = c).
Proof.
  apply (loaded_clip_is_tracked obligingGateway clock clock "P1" clip42 10000
           managerWithP1).
  reflexivity.
Defined.

Lemma quality_jump_is_the_prepared_one_witness :
  let r := prepareClipJump obligingGateway clock clock "P1" clip42 QUALITY
             (Some play) managerWithClip in
  let lookup := getClipId obligingGateway clock clip42 managerWithClip in
  ∃ t t' cid loaded,
    ts_port (_quantelState managerWithClip) !! "P1" = Some t
    ∧ ts_port (_quantelState (snd (fst r))) !! "P1" = Some t'
    ∧ fst (fst lookup) = Return cid
    ∧ loadedFragments t !! cid = Some loaded
    ∧ jumpOffset t' = Some (offset t')
    ∧ let target :=
          jumpToOffsetOf loaded clip42 (clock (calls (snd (fst lookup)))) in
      match jumpOffset t with
      | Some j =>
          if (j =? 0) || (Z.abs (j - target) <=? JUMP_ERROR_MARGIN)
          then offset t' = j else offset t' = target
      | None => offset t' = target
      end.
Proof.
  apply (quality_jump_is_the_prepared_one obligingGateway clock clock "P1" clip42
           (Some play) managerWithClip).
  reflexivity.
Defined.

(** The first lookup of the title NEWS, and a manager with the cache it
    leaves, 25 calls of the gateway later. *)
Definition firstLookup : result Exception Z * Manager * list Event :=
  getClipId obligingGateway clock QuantelFacts.newsClip newManager.

Definition soonAfter : Manager :=
  {| _quantelState := _quantelState (snd (fst firstLookup));
     _cache := _cache (snd (fst firstLookup));
     calls := 27 |}.

Lemma clip_id_is_cached_witness :
  (clock (calls soonAfter) ≤ clock (calls (snd (fst firstLookup))) + 30000 →
   getClipId obligingGateway clock QuantelFacts.newsClip soonAfter
   = (Return 42, soonAfter, []))
  ∧ (clock (calls soonAfter) > clock (calls (snd (fst firstLookup))) + 30000 →
     ∃ completion,
       head (snd (getClipId obligingGateway clock QuantelFacts.newsClip soonAfter))
       = Some (Awaited GetServer completion)).
Proof.
  apply (clip_id_is_cached obligingGateway clock QuantelFacts.newsClip newManager
           soonAfter 42).
  - reflexivity.
  - reflexivity.
  - vm_compute. right. left.
  - reflexivity.
Defined.

Lemma speed_pause_only_jumps_witness :
  ∃ lookup t',
    snd (pauseClip obligingGateway clock clock "P1" clip42 SPEED managerWithClip)
    = lookup ++ [NotAwaited PortHardJump; Write Offset; Write Playing]
    ∧ forallb lookupOnly lookup = true
    ∧ ts_port (_quantelState
                 (snd (fst (pauseClip obligingGateway clock clock "P1" clip42 SPEED
                              managerWithClip))))
      !! "P1" = Some t'
    ∧ tp_playing t' = false
    ∧ scheduledStop t' = None.
Proof.
  apply (speed_pause_only_jumps obligingGateway clock clock "P1" clip42
           managerWithClip
           {| loadedFragments :=
                {[ 42 := {| portInPoint := 100; portOutPoint := 599;
                            lf_inPoint := 0; lf_outPoint := 500 |} ]};
              tp_channel := 1; offset := 0; tp_playing := false;
              jumpOffset := None; scheduledStop := None |}).
  - reflexivity.
  - reflexivity.
  - reflexivity.
Defined.

End QuantelPortFacts.

(** ** More on the CasparCG projector *)

Module CasparCGOrderFacts.
Import CasparCG JSObject CasparCGFacts.

(** Where the projector puts a timeline object: the channel and the
    layer of its mapping, and whether it goes to the background of the
    layer. *)
Definition place (mappings : Mappings)
    (entry : string * ResolvedTimelineObjectInstanceExtended)
    : option (Z * Z * bool) :=
  match findMapping mappings (fst entry) (snd entry) ≫= casparMapping with
  | Some (channel, layerNo) =>
      Some (channel, layerNo, truthy_bool (isLookahead (snd entry)))
  | None => None
  end.

Lemma placeLayer_commute
    (a b : ResolvedTimelineObjectInstanceExtended) (la lb : Z)
    (sa sb : ILayerBase) (channelLayers : gmap Z ILayer) :
  (la, truthy_bool (isLookahead a)) ≠ (lb, truthy_bool (isLookahead b)) →
  placeLayer b lb sb (placeLayer a la sa channelLayers)
  = placeLayer a la sa (placeLayer b lb sb channelLayers).
Proof.
  intros Hne. unfold placeLayer.
  destruct (decide (la = lb)) as [->|Hl].
  - destruct (truthy_bool (isLookahead a)) eqn:Ha,
      (truthy_bool (isLookahead b)) eqn:Hb; try done; simpl.
    + rewrite lookup_insert_eq.
      destruct (channelLayers !! lb) as [res|]; simpl;
        rewrite lookup_insert_eq; simpl; by rewrite !insert_insert_eq.
    + rewrite lookup_insert_eq.
      destruct (channelLayers !! lb) as [res|]; simpl;
        rewrite lookup_insert_eq; simpl; by rewrite !insert_insert_eq.
  - destruct (truthy_bool (isLookahead a)), (truthy_bool (isLookahead b)); simpl.
    + destruct (channelLayers !! la) as [ra|] eqn:Hra,
        (channelLayers !! lb) as [rb|] eqn:Hrb;
        rewrite !lookup_insert_ne, ?Hra, ?Hrb by done;
        by rewrite insert_insert_ne.
    + destruct (channelLayers !! la) as [ra|] eqn:Hra;
        rewrite !lookup_insert_ne, ?Hra by done;
        by rewrite insert_insert_ne.
    + destruct (channelLayers !! lb) as [rb|] eqn:Hrb;
        rewrite !lookup_insert_ne, ?Hrb by done;
        by rewrite insert_insert_ne.
    + rewrite !lookup_insert_ne by done. by rewrite insert_insert_ne.
Qed.

(** Two timeline objects that the projector puts in different places,
    neither on channel 0, can be converted in either order. *)
Lemma convertLayer_commute (mappings : Mappings) (caspar : State)
    (a b : string * ResolvedTimelineObjectInstanceExtended) :
  (∀ c l k, place mappings a = Some (c, l, k) → c ≠ 0) →
  (∀ c l k, place mappings b = Some (c, l, k) → c ≠ 0) →
  place mappings a = None ∨ place mappings a ≠ place mappings b →
  convertLayer mappings (convertLayer mappings caspar a) b
  = convertLayer mappings (convertLayer mappings caspar b) a.
Proof.
  destruct a as [na a], b as [nb b]. unfold place, convertLayer. simpl.
  intros Ha Hb Hne.
  destruct (findMapping mappings na a) as [ma|]; simpl in *; [|done].
  destruct (casparMapping ma) as [[ca la]|]; simpl in *; [|done].
  destruct (findMapping mappings nb b) as [mb|]; simpl in *; [|done].
  destruct (casparMapping mb) as [[cb lb]|]; simpl in *; [|done].
  specialize (Ha _ _ _ eq_refl). specialize (Hb _ _ _ eq_refl).
  destruct Hne as [|Hne]; [done|].
  destruct (Z.eqb_spec ca 0) as [|_]; [done|].
  destruct (Z.eqb_spec cb 0) as [|_]; [done|].
  f_equal. destruct (decide (ca = cb)) as [->|Hc].
  - rewrite !lookup_insert_eq, !insert_insert_eq. f_equal. f_equal. simpl.
    apply placeLayer_commute. congruence.
  - rewrite !lookup_insert_ne by done. by rewrite insert_insert_ne.
Qed.

(** A fold whose steps can be swapped for the elements of the list gives
    the same for every order of the list. *)
Lemma foldl_permutation {A B : Type} (f : A → B → A) (l1 l2 : list B) :
  (∀ i j x y a, i ≠ j → l1 !! i = Some x → l1 !! j = Some y →
     f (f a x) y = f (f a y) x) →
  l1 ≡ₚ l2 → ∀ a, foldl f a l1 = foldl f a l2.
Proof.
  intros Hf Hperm. induction Hperm as [|x l1 l2 _ IH|x y l|l1 l2 l3 H12 IH _ IH'];
    intros a; simpl.
  - done.
  - apply IH. intros i j x' y' a' Hij Hi Hj. by apply (Hf (S i) (S j)); [lia|..].
  - f_equal. by apply (Hf 0%nat 1%nat).
  - rewrite IH by done. apply IH'.
    intros i j x y a' Hij Hi Hj.
    symmetry in H12. apply Permutation_inj in H12 as [_ (g & Hg & Hlook)].
    apply (Hf (g i) (g j)); [naive_solver | by rewrite <- Hlook ..].
Qed.

(** X20.  The state that the CasparCG projector returns does not depend
    on the order of the layers of the timeline state, as long as no
    mapping in use is on channel 0 and no two timeline objects go to the
    same place: the foreground, or the background, of the same layer of
    the same channel. *)
Theorem convertStateToCaspar_order (mappings : Mappings)
    (timelineState timelineState' : TimelineState) :
  (∀ entry c l k, entry ∈ layers timelineState →
     place mappings entry = Some (c, l, k) → c ≠ 0) →
  (∀ i j a b, i ≠ j →
     layers timelineState !! i = Some a → layers timelineState !! j = Some b →
     place mappings a = None ∨ place mappings a ≠ place mappings b) →
  layers timelineState ≡ₚ layers timelineState' →
  convertStateToCaspar mappings timelineState
  = convertStateToCaspar mappings timelineState'.
Proof.
  intros Hch Hplaces Hperm. unfold convertStateToCaspar.
  apply foldl_permutation; [|done].
  intros i j x y caspar Hij Hi Hj. apply convertLayer_commute.
  - intros c l k. apply Hch. by eapply list_elem_of_lookup_2.
  - intros c l k. apply Hch. by eapply list_elem_of_lookup_2.
  - by apply (Hplaces i j).
Qed.

(** *** The shape of the state *)

(** A layer of the state that is filed under its own number, with a
    [nextUp] of that number that does not start by itself. *)
Definition layerFiled (layerNo : Z) (l : ILayer) : Prop :=
  CasparCG.layerNo (base l) = layerNo
  ∧ ∀ next, nextUp l = Some next →
      CasparCG.layerNo next = layerNo ∧ auto next = Some false.

(** A channel of the state that is filed under its own number, which is
    not 0, with the frame rate 25/1000 and its layers filed. *)
Definition channelFiled (channel : Z) (ch : Channel) : Prop :=
  channel ≠ 0
  ∧ channelNo ch = Some channel
  ∧ fps ch = Some (25, 1000)
  ∧ ∀ layerNo l, ch_layers ch !! layerNo = Some l → layerFiled layerNo l.

Definition filed (caspar : State) : Prop :=
  ∀ channel ch, channels caspar !! channel = Some ch → channelFiled channel ch.

Lemma stateLayerOf_layerNo (mappings : Mappings) (layerNo : Z)
    (layer : ResolvedTimelineObjectInstanceExtended) :
  CasparCG.layerNo (stateLayerOf mappings layerNo layer) = layerNo.
Proof. done. Qed.

Lemma placeLayer_filed (layerExt : ResolvedTimelineObjectInstanceExtended)
    (layerNo : Z) (stateLayer : ILayerBase) (channelLayers : gmap Z ILayer) :
  CasparCG.layerNo stateLayer = layerNo →
  (∀ n l, channelLayers !! n = Some l → layerFiled n l) →
  ∀ n l, placeLayer layerExt layerNo stateLayer channelLayers !! n = Some l →
         layerFiled n l.
Proof.
  intros Hno Hlayers n l. unfold placeLayer.
  destruct (negb (truthy_bool (isLookahead layerExt))).
  - destruct (decide (layerNo = n)) as [<-|Hn].
    + rewrite lookup_insert_eq. intros [= <-]. split; [done|]. simpl.
      destruct (channelLayers !! layerNo) as [prev|] eqn:Hprev; [|done].
      apply (Hlayers _ _ Hprev).
    + rewrite lookup_insert_ne by done. apply Hlayers.
  - destruct (channelLayers !! layerNo) as [res|] eqn:Hres.
    + destruct (decide (layerNo = n)) as [<-|Hn].
      * rewrite lookup_insert_eq. intros [= <-]. split; simpl.
        -- by destruct (Hlayers _ _ Hres).
        -- by intros next [= <-].
      * rewrite lookup_insert_ne by done. apply Hlayers.
    + destruct (decide (layerNo = n)) as [<-|Hn].
      * rewrite lookup_insert_eq. intros [= <-]. split; simpl; [done|].
        by intros next [= <-].
      * rewrite lookup_insert_ne by done. apply Hlayers.
Qed.

Lemma convertLayer_filed (mappings : Mappings) (caspar : State)
    (entry : string * ResolvedTimelineObjectInstanceExtended) :
  filed caspar → filed (convertLayer mappings caspar entry).
Proof.
  intros Hfiled. destruct entry as [layerName layerExt]. unfold convertLayer.
  destruct (findMapping mappings layerName layerExt) as [m|]; [|done].
  destruct (casparMapping m) as [[c l]|]; [|done].
  intros channel ch. simpl.
  destruct (decide ((if c =? 0 then 1 else c) = channel)) as [<-|Hne].
  - rewrite lookup_insert_eq. intros [= <-].
    split; [by destruct (Z.eqb_spec c 0)|]. split; [done|]. split; [done|]. simpl.
    apply placeLayer_filed; [done|].
    destruct (channels caspar !! c) as [ch|] eqn:Hch; simpl.
    + apply (Hfiled _ _ Hch).
    + intros n l'. by rewrite lookup_empty.
  - rewrite lookup_insert_ne by done. apply Hfiled.
Qed.

Lemma empty_filed : filed {| channels := ∅ |}.
Proof. intros channel ch. simpl. by rewrite lookup_empty. Qed.

Lemma convertLayers_filed (mappings : Mappings) (caspar : State)
    (layers : list (string * ResolvedTimelineObjectInstanceExtended)) :
  filed caspar → filed (foldl (convertLayer mappings) caspar layers).
Proof.
  revert caspar. induction layers as [|entry rest IH]; intros caspar Hfiled; [done|].
  simpl. apply IH. by apply convertLayer_filed.
Qed.

(** X21.  In the state that the CasparCG projector returns, every
    channel is filed under its own number, which is never 0, and has the
    frame rate 25/1000; every layer of a channel is filed under its own
    number, and a [nextUp] of a layer has the number of the layer and
    [auto] false. *)
Theorem convertStateToCaspar_filed (mappings : Mappings)
    (timelineState : TimelineState) (channel : Z) (ch : Channel) :
  channels (convertStateToCaspar mappings timelineState) !! channel = Some ch →
  channel ≠ 0
  ∧ channelNo ch = Some channel
  ∧ fps ch = Some (25, 1000)
  ∧ ∀ layerNo l, ch_layers ch !! layerNo = Some l →
      CasparCG.layerNo (base l) = layerNo
      ∧ ∀ next, nextUp l = Some next →
          CasparCG.layerNo next = layerNo ∧ auto next = Some false.
Proof.
  intros Hch.
  pose proof (convertLayers_filed mappings {| channels := ∅ |}
                (layers timelineState) empty_filed) as Hfiled.
  destruct (Hfiled channel ch Hch) as (Hno & Hnumber & Hfps & Hlayers).
  split; [done|]. split; [done|]. split; [done|].
  intros layerNo l Hl. apply (Hlayers layerNo l Hl).
Qed.

Lemma convertStateToCaspar_snoc (mappings : Mappings) (t : Z)
    (before : list (string * ResolvedTimelineObjectInstanceExtended))
    (entry : string * ResolvedTimelineObjectInstanceExtended) :
  convertStateToCaspar mappings {| time := t; layers := before ++ [entry] |}
  = convertLayer mappings
      (convertStateToCaspar mappings {| time := t; layers := before |}) entry.
Proof. unfold convertStateToCaspar. simpl. by rewrite foldl_app. Qed.

(** X22.  A timeline object with a mapping on channel 0 goes to channel
    1 and takes the whole channel: after it, channel 1 has the layer of
    that object and no other, whatever the objects before it had put on
    channel 1.  So of the objects mapped to channel 0, only the last one
    is in the state. *)
Theorem channel_0_takes_channel_1 (mappings : Mappings) (t : Z)
    (before : list (string * ResolvedTimelineObjectInstanceExtended))
    (layerName : string) (layerExt : ResolvedTimelineObjectInstanceExtended)
    (foundMapping : Mapping) (layerNo : Z) :
  findMapping mappings layerName layerExt = Some foundMapping →
  casparMapping foundMapping = Some (0, layerNo) →
  ∃ ch,
    channels (convertStateToCaspar mappings
                {| time := t; layers := before ++ [(layerName, layerExt)] |}) !! 1
    = Some ch
    ∧ ch_layers ch
      = placeLayer layerExt layerNo (stateLayerOf mappings layerNo layerExt) ∅
    ∧ dom (ch_layers ch) = {[ layerNo ]}.
Proof.
  intros Hfound Hmapping. rewrite convertStateToCaspar_snoc.
  pose proof (convertLayers_filed mappings {| channels := ∅ |} before empty_filed)
    as Hfiled.
  unfold convertStateToCaspar. cbn [layers].
  unfold convertLayer. rewrite Hfound, Hmapping. simpl.
  rewrite lookup_insert_eq. eexists. split; [done|]. simpl.
  destruct (channels _ !! 0) as [ch0|] eqn:Hch0.
  { exfalso. by destruct (Hfiled _ _ Hch0) as [? _]. }
  simpl. split; [done|]. unfold placeLayer.
  destruct (negb (truthy_bool (isLookahead layerExt))).
  - by rewrite dom_insert_L, dom_empty_L, (right_id_L ∅ (∪)).
  - by rewrite lookup_empty, dom_insert_L, dom_empty_L, (right_id_L ∅ (∪)).
Qed.

Definition lookaheadFirst : TimelineState :=
  {| time := 1000; layers := reverse (layers foregroundAndLookahead) |}.

Lemma convertStateToCaspar_order_witness :
  convertStateToCaspar [("M1", casparLayer 2 10)] foregroundAndLookahead
  = convertStateToCaspar [("M1", casparLayer 2 10)] lookaheadFirst.
Proof.
  apply convertStateToCaspar_order.
  - intros entry c l k Hin.
    repeat (apply elem_of_cons in Hin as [->|Hin]; [by intros [= <- <- <-]|]).
    by apply elem_of_nil in Hin.
  - intros [|[|i]] [|[|j]] a b Hij; simpl; try done;
      intros [= <-] [= <-]; right; vm_compute; congruence.
  - apply Permutation_swap.
Defined.

Lemma convertStateToCaspar_filed_witness :
  2 ≠ 0
  ∧ channelNo {| channelNo := Some 2; fps := Some (25, 1000);
                 ch_layers :=
                   {[ 10 := {| base := stateLayerOf [("M1", casparLayer 2 10)] 10
                                         {| id := "obj0";
                                            content := mediaContent "AMB";
                                            start := 1000; isLookahead := None;
                                            lookaheadForLayer := None |};
                               nextUp := None |} ]} |} = Some 2
  ∧ fps {| channelNo := Some 2; fps := Some (25, 1000);
           ch_layers :=
             {[ 10 := {| base := stateLayerOf [("M1", casparLayer 2 10)] 10
                                   {| id := "obj0"; content := mediaContent "AMB";
                                      start := 1000; isLookahead := None;
                                      lookaheadForLayer := None |};
                         nextUp := None |} ]} |} = Some (25, 1000)
  ∧ ∀ layerNo l,
      ch_layers {| channelNo := Some 2; fps := Some (25, 1000);
                   ch_layers :=
                     {[ 10 := {| base := stateLayerOf [("M1", casparLayer 2 10)] 10
                                           {| id := "obj0";
                                              content := mediaContent "AMB";
                                              start := 1000; isLookahead := None;
                                              lookaheadForLayer := None |};
                                 nextUp := None |} ]} |} !! layerNo = Some l →
      CasparCG.layerNo (base l) = layerNo
      ∧ ∀ next, nextUp l = Some next →
          CasparCG.layerNo next = layerNo ∧ auto next = Some false.
Proof.
  apply (convertStateToCaspar_filed [("M1", casparLayer 2 10)]
           {| time := 1000; layers := take 1 (layers foregroundAndLookahead) |} 2).
  vm_compute. reflexivity.
Defined.

Lemma channel_0_takes_channel_1_witness :
  ∃ ch,
    channels (convertStateToCaspar [("M1", casparLayer 0 10)]
                {| time := 1000;
                   layers := take 1 (layers foregroundAndLookahead)
                             ++ [("M1_lookahead",
                                  {| id := "obj1"; content := mediaContent "NEXT";
                                     start := 0; isLookahead := Some true;
                                     lookaheadForLayer := Some "M1" |})] |}) !! 1
    = Some ch
    ∧ ch_layers ch
      = placeLayer
          {| id := "obj1"; content := mediaContent "NEXT"; start := 0;
             isLookahead := Some true; lookaheadForLayer := Some "M1" |}
          10
          (stateLayerOf [("M1", casparLayer 0 10)] 10
             {| id := "obj1"; content := mediaContent "NEXT"; start := 0;
                isLookahead := Some true; lookaheadForLayer := Some "M1" |}) ∅
    ∧ dom (ch_layers ch) = {[ 10 ]}.
Proof.
  apply (channel_0_takes_channel_1 [("M1", casparLayer 0 10)] 1000
           (take 1 (layers foregroundAndLookahead)) "M1_lookahead"
           {| id := "obj1"; content := mediaContent "NEXT"; start := 0;
              isLookahead := Some true; lookaheadForLayer := Some "M1" |}
           (casparLayer 0 10) 10).
  - reflexivity.
  - reflexivity.
Defined.

End CasparCGOrderFacts.

(** ** The CasparCG device: scheduled commands *)

Module CasparCGQueueFacts.
Import JSObject JSObjectFacts CasparCGQueue.

Lemma remove_absent {V : Type} (obj : list (string * V)) (key : string) :
  key ∉ keys obj → remove obj key = obj.
Proof.
  induction obj as [|[k v] obj IH]; simpl; [done|].
  intros [Hk Hin]%not_elem_of_cons.
  destruct (String.eqb_spec k key) as [->|_]; [done|]. by rewrite IH.
Qed.

Lemma remove_middle {V : Type} (before after : list (string * V))
    (key : string) (v : V) :
  key ∉ keys before →
  remove (before ++ (key, v) :: after) key = before ++ after.
Proof.
  induction before as [|[k w] before IH]; simpl.
  - intros _. by rewrite String.eqb_refl.
  - intros [Hk Hin]%not_elem_of_cons.
    destruct (String.eqb_spec k key) as [->|_]; [done|]. by rewrite IH.
Qed.

Lemma length_set {V : Type} (obj : list (string * V)) (key : string) (v : V) :
  List.length (JSObject.set obj key v)
  = match get obj key with
    | Some _ => List.length obj
    | None => S (List.length obj)
    end.
Proof.
  unfold JSObject.set. destruct (get obj key).
  - pose proof (DeviceFacts.keys_replace obj key v) as Hkeys. unfold keys in Hkeys.
    by rewrite <- (List.length_map fst (replace obj key v)), Hkeys, List.length_map.
  - pose proof (DeviceFacts.keys_add obj key v) as Hkeys. unfold keys in Hkeys.
    apply Permutation_length in Hkeys. simpl in Hkeys.
    by rewrite !List.length_map in Hkeys.
Qed.

Section Queue.
Context {CommandVO Payload : Type}.
Variable isEqual : Payload → Payload → bool.
Variable deSerialize : CommandVO → IAMCPCommand Payload.
Variable toString36 : Z → string.

(** What [_clearScheduledFutureCommands] does with the entries of the
    queue, one after the other: the entries that stay, the commands left
    to send, and what was sent. *)
Fixpoint cleared (now time : Z) (entries : list (string * QueueEntry Payload))
    (commandsToSendNow : list CommandVO)
    : list (string * QueueEntry Payload) * list CommandVO * list (Sent Payload) :=
  match entries with
  | [] => ([], commandsToSendNow, [])
  | (token, q) :: rest =>
      if q_time q <? now
      then cleared now time rest commandsToSendNow
      else if q_time q >=? time
      then
        match (if q_time q =? time
               then matchingCommandI isEqual deSerialize q commandsToSendNow
               else None) with
        | Some i =>
            let '(kept, commands, sent) :=
              cleared now time rest (delete i commandsToSendNow) in
            ((token, q) :: kept, commands, sent)
        | None =>
            let '(kept, commands, sent) :=
              cleared now time rest commandsToSendNow in
            (kept, commands, ScheduleRemove token :: sent)
        end
      else
        let '(kept, commands, sent) := cleared now time rest commandsToSendNow in
        ((token, q) :: kept, commands, sent)
  end.

Lemma clearEntries_cleared (now time : Z) (kept todo : list (string * QueueEntry Payload))
    (commands : list CommandVO) (sent : list (Sent Payload)) :
  NoDup (keys (kept ++ todo)) →
  foldl (clearEntry isEqual deSerialize now time) (kept ++ todo, commands, sent) todo
  = let '(kept', commands', sent') := cleared now time todo commands in
    (kept ++ kept', commands', sent ++ sent').
Proof.
  revert kept commands sent.
  induction todo as [|[token q] todo IH]; intros kept commands sent Hnd; simpl.
  - by rewrite !app_nil_r.
  - assert (token ∉ keys kept) as Hfresh.
    { unfold keys in *. rewrite fmap_app in Hnd.
      apply NoDup_app in Hnd as (_ & Hdisj & _).
      intros Hin. apply (Hdisj _ Hin). left. }
    assert (NoDup (keys (kept ++ todo))) as Hnd'.
    { unfold keys in *. rewrite fmap_app in *. simpl in Hnd.
      apply NoDup_app in Hnd as (Hk & Hdisj & [_ Ht]%NoDup_cons).
      apply NoDup_app. split; [done|]. split; [|done].
      intros k Hin Hin'. apply (Hdisj k Hin). by right. }
    assert (NoDup (keys ((kept ++ [(token, q)]) ++ todo))) as Hnd''.
    { by rewrite <- app_assoc. }
    destruct (q_time q <? now).
    { rewrite remove_middle by done. by apply IH. }
    destruct (q_time q >=? time).
    + destruct (if q_time q =? time then _ else None) as [i|].
      * rewrite (cons_middle _ kept todo), app_assoc, IH by done.
        destruct (cleared now time todo (delete i commands)) as [[k c] s].
        by rewrite <- app_assoc.
      * rewrite remove_middle, IH by done.
        destruct (cleared now time todo commands) as [[k c] s].
        by rewrite <- app_assoc.
    + rewrite (cons_middle _ kept todo), app_assoc, IH by done.
      destruct (cleared now time todo commands) as [[k c] s].
      by rewrite <- app_assoc.
Qed.

Lemma clearScheduledFutureCommands_cleared (now time : Z) (queue : list (string * QueueEntry Payload))
    (commands : list CommandVO) :
  NoDup (keys queue) →
  _clearScheduledFutureCommands isEqual deSerialize now queue time commands
  = cleared now time queue commands.
Proof.
  intros Hnd. unfold _clearScheduledFutureCommands.
  pose proof (clearEntries_cleared now time [] queue commands [] Hnd) as Hfold.
  simpl in Hfold. rewrite Hfold.
  by destruct (cleared now time queue commands) as [[k c] s].
Qed.

(** The inner loop finds the last command that is the one of the queue
    entry, if there is one. *)
Lemma matchingCommandI_fold (q : QueueEntry Payload) (n : nat)
    (found : option nat) (commands : list CommandVO) :
  let r := foldl (λ found ic, if sameCommand isEqual deSerialize q (snd ic)
                              then Some (fst ic) else found)
             found (zip (seq n (List.length commands)) commands) in
  (r = found ∧ Forall (λ cmd, sameCommand isEqual deSerialize q cmd = false) commands)
  ∨ ∃ k cmd, r = Some (n + k)%nat ∧ commands !! k = Some cmd
             ∧ sameCommand isEqual deSerialize q cmd = true.
Proof.
  cbv zeta. revert n found.
  induction commands as [|cmd commands IH]; intros n found; simpl.
  - left. by split.
  - destruct (IH (S n) (if sameCommand isEqual deSerialize q cmd
                        then Some n else found))
      as [[-> Hall]|(k & cmd' & -> & Hk & Hsame)].
    + destruct (sameCommand isEqual deSerialize q cmd) eqn:Hcmd.
      * right. exists 0%nat, cmd. by rewrite Nat.add_0_r.
      * left. split; [done|]. by constructor.
    + right. exists (S k), cmd'. split; [f_equal; lia | done].
Qed.

Lemma matchingCommandI_Some (q : QueueEntry Payload) (commands : list CommandVO)
    (i : nat) :
  matchingCommandI isEqual deSerialize q commands = Some i →
  ∃ cmd, commands !! i = Some cmd ∧ sameCommand isEqual deSerialize q cmd = true.
Proof.
  unfold matchingCommandI.
  destruct (matchingCommandI_fold q 0 None commands)
    as [[-> _]|(k & cmd & -> & Hk & Hsame)]; [done|].
  intros [= <-]. eauto.
Qed.

Lemma matchingCommandI_None (q : QueueEntry Payload) (commands : list CommandVO)
    (cmd : CommandVO) :
  matchingCommandI isEqual deSerialize q commands = None →
  cmd ∈ commands → sameCommand isEqual deSerialize q cmd = false.
Proof.
  unfold matchingCommandI.
  destruct (matchingCommandI_fold q 0 None commands)
    as [[_ Hall]|(k & cmd' & -> & Hk & Hsame)]; [|done].
  intros _ Hin. rewrite Forall_forall in Hall. by apply Hall.
Qed.

(** Whether an entry of the queue is for the time of the new state. *)
Definition atTime (time : Z) (entry : string * QueueEntry Payload) : bool :=
  q_time (snd entry) =? time.

Lemma cleared_spec (now time : Z) (entries : list (string * QueueEntry Payload))
    (commands : list CommandVO) :
  let r := cleared now time entries commands in
  let kept := fst (fst r) in
  fst (fst r) `sublist_of` entries
  ∧ (∀ token q, (token, q) ∈ kept →
       now ≤ q_time q ∧ q_time q ≤ time
       ∧ (q_time q = time →
          ∃ cmd, cmd ∈ commands ∧ sameCommand isEqual deSerialize q cmd = true))
  ∧ (∀ token q, (token, q) ∈ entries → now ≤ q_time q → q_time q < time →
       (token, q) ∈ kept)
  ∧ (∀ token, ScheduleRemove token ∈ snd r →
       ∃ q, (token, q) ∈ entries ∧ now ≤ q_time q ∧ time ≤ q_time q
            ∧ (q_time q = time →
               ∀ cmd, cmd ∈ snd (fst r) →
                      sameCommand isEqual deSerialize q cmd = false))
  ∧ (∀ token q, (token, q) ∈ entries → now ≤ q_time q → time ≤ q_time q →
       (token, q) ∈ kept ∨ ScheduleRemove token ∈ snd r)
  ∧ (∀ s, s ∈ snd r → ∃ token, s = ScheduleRemove token ∧ token ∈ keys entries)
  ∧ snd (fst r) `sublist_of` commands
  ∧ List.length commands
    = (List.length (snd (fst r)) + List.length (List.filter (atTime time) kept))%nat.
Proof.
  cbv zeta. revert commands.
  induction entries as [|[token q] entries IH]; intros commands.
  { simpl. split; [done|].
    split; [intros ? ? Hin; by apply elem_of_nil in Hin|].
    split; [intros ? ? Hin; by apply elem_of_nil in Hin|].
    split; [intros ? Hin; by apply elem_of_nil in Hin|].
    split; [intros ? ? Hin; by apply elem_of_nil in Hin|].
    split; [intros ? Hin; by apply elem_of_nil in Hin|].
    split; [done | lia]. }
  simpl. destruct (Z.ltb_spec (q_time q) now) as [Hexpired|Hdue].
  { destruct (IH commands) as (Hsub & Hkept & Hstay & Hsent & Hall & Honly & Hcmds & Hlen).
    split; [by apply sublist_cons|]. split; [done|].
    split.
    { intros t' q' [[= -> ->]|Hin]%elem_of_cons Hnow Hlt; [lia|]. by apply Hstay. }
    split.
    { intros t' Hin. destruct (Hsent t' Hin) as (q' & Hq' & ?).
      exists q'. split; [by right | done]. }
    split.
    { intros t' q' [[= -> ->]|Hin]%elem_of_cons Hnow Hge; [lia|]. by apply Hall. }
    split; [|done].
    intros s' Hin. destruct (Honly s' Hin) as (t' & -> & Ht').
    exists t'. split; [done | by right]. }
  destruct (Z.geb_spec (q_time q) time) as [Hfuture|Hbefore].
  - destruct (if q_time q =? time then _ else None) as [i|] eqn:Hmatch.
    + destruct (Z.eqb_spec (q_time q) time) as [Hat|]; [|done].
      apply matchingCommandI_Some in Hmatch as (cmd & Hi & Hsame).
      destruct (IH (delete i commands))
        as (Hsub & Hkept & Hstay & Hsent & Hall & Honly & Hcmds & Hlen).
      destruct (cleared now time entries (delete i commands)) as [[kept c] sent].
      simpl in *.
      assert (delete i commands `sublist_of` commands) as Hdel
        by apply sublist_delete.
      split; [by apply sublist_skip|]. split.
      { intros t' q' [[= -> ->]|Hin]%elem_of_cons.
        - split; [lia|]. split; [lia|]. intros _. exists cmd.
          split; [by eapply list_elem_of_lookup_2 | done].
        - destruct (Hkept t' q' Hin) as (? & ? & Hcmd).
          split; [done|]. split; [done|]. intros Heq.
          destruct (Hcmd Heq) as (cmd' & Hin' & Hsame').
          exists cmd'. split; [|done]. by eapply elem_of_sublist. }
      split.
      { intros t' q' [[= -> ->]|Hin]%elem_of_cons Hnow Hlt; [by left|].
        right. by apply Hstay. }
      split.
      { intros t' Hin. destruct (Hsent t' Hin) as (q' & Hq' & ?).
        exists q'. split; [by right | done]. }
      split.
      { intros t' q' [[= -> ->]|Hin]%elem_of_cons Hnow Hge; [left; by left|].
        destruct (Hall t' q' Hin Hnow Hge) as [?|?]; [left; by right | by right]. }
      split.
      { intros s' Hin. destruct (Honly s' Hin) as (t' & -> & Ht').
        exists t'. split; [done | by right]. }
      split; [by etrans|].
      unfold atTime at 1. simpl. apply Z.eqb_eq in Hat. rewrite Hat. simpl.
      rewrite length_delete in Hlen by eauto.
      apply lookup_lt_Some in Hi. lia.
    + destruct (IH commands)
        as (Hsub & Hkept & Hstay & Hsent & Hall & Honly & Hcmds & Hlen).
      assert (q_time q = time →
              ∀ cmd, cmd ∈ commands →
                     sameCommand isEqual deSerialize q cmd = false) as Hnone.
      { intros Hat cmd Hin. apply Z.eqb_eq in Hat. rewrite Hat in Hmatch.
        by eapply matchingCommandI_None. }
      destruct (cleared now time entries commands) as [[kept c] sent].
      simpl in *.
      split; [by apply sublist_cons|]. split; [done|]. split.
      { intros t' q' [[= -> ->]|Hin]%elem_of_cons Hnow Hlt; [lia|]. by apply Hstay. }
      split.
      { intros t' [[= ->]|Hin]%elem_of_cons.
        - exists q. split; [by left|]. split; [lia|]. split; [lia|].
          intros Hat cmd Hin. apply (Hnone Hat). by eapply elem_of_sublist.
        - destruct (Hsent t' Hin) as (q' & Hq' & ?).
          exists q'. split; [by right | done]. }
      split.
      { intros t' q' [[= -> ->]|Hin]%elem_of_cons Hnow Hge; [right; by left|].
        destruct (Hall t' q' Hin Hnow Hge) as [?|?]; [by left | right; by right]. }
      split; [|done].
      intros s' [->|Hin]%elem_of_cons.
      * exists token. split; [done | by left].
      * destruct (Honly s' Hin) as (t' & -> & Ht').
        exists t'. split; [done | by right].
  - destruct (IH commands)
      as (Hsub & Hkept & Hstay & Hsent & Hall & Honly & Hcmds & Hlen).
    destruct (cleared now time entries commands) as [[kept c] sent].
    simpl in *.
    split; [by apply sublist_skip|]. split.
    { intros t' q' [[= -> ->]|Hin]%elem_of_cons.
      - split; [lia|]. split; [lia|]. lia.
      - by apply (Hkept t' q'). }
    split.
    { intros t' q' [[= -> ->]|Hin]%elem_of_cons Hnow Hlt; [by left|].
      right. by apply Hstay. }
    split.
    { intros t' Hin. destruct (Hsent t' Hin) as (q' & Hq' & ?).
      exists q'. split; [by right | done]. }
    split.
    { intros t' q' [[= -> ->]|Hin]%elem_of_cons Hnow Hge; [lia|].
      destruct (Hall t' q' Hin Hnow Hge) as [?|?]; [left; by right | by right]. }
    split.
    { intros s' Hin. destruct (Honly s' Hin) as (t' & -> & Ht').
      exists t'. split; [done | by right]. }
    split; [done|].
    unfold atTime at 1. simpl.
    destruct (Z.eqb_spec (q_time q) time); [lia|]. done.
Qed.

Lemma cleared_exclusive (now time : Z)
    (entries : list (string * QueueEntry Payload)) (commands : list CommandVO)
    (token : string) :
  NoDup (keys entries) →
  ScheduleRemove token ∈ snd (cleared now time entries commands) →
  token ∉ keys (fst (fst (cleared now time entries commands))).
Proof.
  revert commands. induction entries as [|[t q] entries IH]; intros commands Hnd.
  { simpl. intros Hin. by apply elem_of_nil in Hin. }
  simpl in Hnd. apply NoDup_cons in Hnd as [Ht Hnd]. simpl.
  assert (∀ c, ScheduleRemove token ∈ snd (cleared now time entries c) →
               token ∈ keys entries) as Hsent.
  { intros c Hin.
    destruct (cleared_spec now time entries c) as (_ & _ & _ & _ & _ & Honly & _).
    destruct (Honly _ Hin) as (t' & [= <-] & Hin'). done. }
  assert (∀ c, keys (fst (fst (cleared now time entries c))) ⊆ keys entries)
    as Hkeys.
  { intros c k Hin.
    destruct (cleared_spec now time entries c) as (Hsub & _).
    eapply elem_of_sublist; [exact Hin|]. unfold keys. by apply fmap_sublist. }
  destruct (q_time q <? now); [by apply IH|].
  destruct (q_time q >=? time).
  - destruct (if q_time q =? time then _ else None) as [i|].
    + specialize (IH (delete i commands) Hnd).
      specialize (Hsent (delete i commands)).
      destruct (cleared now time entries (delete i commands)) as [[kept c] sent].
      simpl in *. intros Hin [->|Hin']%elem_of_cons; [by apply Ht, Hsent|].
      by apply IH.
    + specialize (IH commands Hnd). specialize (Hkeys commands).
      destruct (cleared now time entries commands) as [[kept c] sent].
      simpl in *. intros [[= ->]|Hin]%elem_of_cons; [|by apply IH].
      intros Hin. by apply Ht, Hkeys.
  - specialize (IH commands Hnd). specialize (Hsent commands).
    destruct (cleared now time entries commands) as [[kept c] sent].
    simpl in *. intros Hin [->|Hin']%elem_of_cons; [by apply Ht, Hsent|].
    by apply IH.
Qed.

(** X23.  What [_clearScheduledFutureCommands] does with the queue, for
    a queue with distinct tokens.  An entry whose time is before the
    current time is dropped without a command.  An entry that is due
    from now on but before the time of the new state stays.  An entry
    later than the time of the new state is dropped and removed from
    CasparCG with a SCHEDULE REMOVE.  An entry at the time of the new
    state stays if one of the commands to send is its command (same
    name, channel, layer and payload), and is removed otherwise.  No
    entry is added or changed, nothing but SCHEDULE REMOVE is sent, and
    of the commands to send one is taken out for every entry that stays
    at the time of the new state. *)
Theorem clear_leaves_what_is_due (now time : Z)
    (queue : list (string * QueueEntry Payload)) (commands : list CommandVO) :
  let r := _clearScheduledFutureCommands isEqual deSerialize now queue time
             commands in
  let queue' := fst (fst r) in
  let commands' := snd (fst r) in
  let sent := snd r in
  NoDup (keys queue) →
  (∀ token q, get queue token = Some q →
     (q_time q < now →
      get queue' token = None ∧ ScheduleRemove token ∉ sent)
     ∧ (now ≤ q_time q → q_time q < time →
        get queue' token = Some q ∧ ScheduleRemove token ∉ sent)
     ∧ (now ≤ q_time q → time < q_time q →
        get queue' token = None ∧ ScheduleRemove token ∈ sent)
     ∧ (now ≤ q_time q → q_time q = time →
        (get queue' token = Some q ∧ (ScheduleRemove token ∉ sent)
         ∧ (∃ cmd, cmd ∈ commands
                   ∧ sameCommand isEqual deSerialize q cmd = true))
        ∨ (get queue' token = None ∧ ScheduleRemove token ∈ sent
           ∧ (∀ cmd, cmd ∈ commands' →
                     sameCommand isEqual deSerialize q cmd = false))))
  ∧ (∀ token q, get queue' token = Some q → get queue token = Some q)
  ∧ (∀ s, s ∈ sent → ∃ token, s = ScheduleRemove token ∧ token ∈ keys queue)
  ∧ commands' `sublist_of` commands
  ∧ List.length commands
    = (List.length commands'
       + List.length (List.filter (atTime time) queue'))%nat.
Proof.
  cbv zeta. intros Hnd.
  rewrite clearScheduledFutureCommands_cleared by done.
  pose proof (cleared_exclusive now time queue commands) as Hexcl.
  destruct (cleared_spec now time queue commands)
    as (Hsub & Hkept & Hstay & Hsent & Hall & Honly & Hcmds & Hlen).
  destruct (cleared now time queue commands) as [[kept commands'] sent].
  simpl in *.
  assert (NoDup (keys kept)) as Hnd'.
  { eapply sublist_NoDup; [exact Hnd|]. unfold keys. by apply fmap_sublist. }
  assert (∀ token q q', get queue token = Some q → get kept token = Some q' →
                        q' = q) as Hsame.
  { intros token q q' Hq Hq'. apply get_Some_elem in Hq'.
    eapply elem_of_sublist in Hq'; [|exact Hsub].
    apply (elem_get_Some _ _ _ Hnd) in Hq'. congruence. }
  assert (∀ token, ScheduleRemove token ∈ sent → get kept token = None) as Hgone.
  { intros token Hin. apply get_None_not_key. by apply Hexcl. }
  assert (∀ token q, get kept token = Some q → ScheduleRemove token ∉ sent)
    as Hquiet.
  { intros token q Hq Hin. apply Hgone in Hin. congruence. }
  split; [|split; [|split; [done|split; [done|exact Hlen]]]].
  - intros token q Hq. pose proof (get_Some_elem _ _ _ Hq) as Hin.
    split; [|split; [|split]].
    + intros Hexpired.
      assert (get kept token = None) as Hnone.
      { destruct (get kept token) as [q'|] eqn:Hq'; [|done].
        rewrite (Hsame _ _ _ Hq Hq') in Hq'.
        apply get_Some_elem, Hkept in Hq'. lia. }
      split; [done|]. intros Hrem.
      destruct (Hsent _ Hrem) as (q' & Hin' & ? & _).
      apply (elem_get_Some _ _ _ Hnd) in Hin'. assert (q' = q) by congruence.
      subst. lia.
    + intros Hnow Hlt.
      pose proof (elem_get_Some _ _ _ Hnd' (Hstay _ _ Hin Hnow Hlt)) as Hq'.
      split; [done | by eapply Hquiet].
    + intros Hnow Hgt.
      assert (get kept token = None) as Hnone.
      { destruct (get kept token) as [q'|] eqn:Hq'; [|done].
        rewrite (Hsame _ _ _ Hq Hq') in Hq'.
        apply get_Some_elem, Hkept in Hq'. lia. }
      split; [done|].
      destruct (Hall _ _ Hin Hnow) as [Hk|Hs]; [lia| |done].
      apply (elem_get_Some _ _ _ Hnd') in Hk. congruence.
    + intros Hnow Hat.
      destruct (Hall _ _ Hin Hnow) as [Hk|Hs]; [lia| |].
      * left. pose proof (elem_get_Some _ _ _ Hnd' Hk) as Hq'.
        split; [done|]. split; [by eapply Hquiet|].
        by destruct (Hkept _ _ Hk) as (_ & _ & Hcmd); apply Hcmd.
      * right. split; [by apply Hgone|]. split; [done|].
        destruct (Hsent _ Hs) as (q' & Hin' & _ & _ & Hno).
        apply (elem_get_Some _ _ _ Hnd) in Hin'. assert (q' = q) by congruence.
        subst. by apply Hno.
  - intros token q Hq. apply get_Some_elem in Hq.
    eapply elem_of_sublist in Hq; [|exact Hsub].
    by apply (elem_get_Some _ _ _ Hnd).
Qed.

(** *** Adding to the queue *)

(** The entry of the queue for a command scheduled at [time]. *)
Definition scheduled (time : Z) (cmd : CommandVO) : QueueEntry Payload :=
  {| q_time := time; q_command := deSerialize cmd |}.

(** What [_addToQueue] hands over for the [i]-th command, when it
    schedules. *)
Definition scheduleSet (time : Z) (i : nat) (cmd : CommandVO) : Sent Payload :=
  ScheduleSet (tokenOf toString36 time i) time (channel (deSerialize cmd))
    (deSerialize cmd).

(** The loop of [_addToQueue] when it schedules: the commands for a time
    that is still to come, with scheduling in use. *)
Lemma addCommands_snoc (_useScheduling : option bool) (now time : Z)
    (acc : list (string * QueueEntry Payload) * nat * list (Sent Payload))
    (commands : list CommandVO) (cmd : CommandVO) :
  foldl (addCommand deSerialize toString36 _useScheduling now time) acc
    (commands ++ [cmd])
  = addCommand deSerialize toString36 _useScheduling now time
      (foldl (addCommand deSerialize toString36 _useScheduling now time) acc
         commands) cmd.
Proof. by rewrite foldl_app. Qed.

Lemma addCommands_scheduling (_useScheduling : option bool) (now time : Z)
    (queue : list (string * QueueEntry Payload)) (commands : list CommandVO) :
  truthy_bool _useScheduling = true → now < time →
  let r := foldl (addCommand deSerialize toString36 _useScheduling now time)
             (queue, 0%nat, []) commands in
  snd (fst r) = List.length commands
  ∧ snd r = imap (scheduleSet time) commands
  ∧ (List.length (fst (fst r)) ≤ List.length queue + List.length commands)%nat
  ∧ ∀ token,
      ((∀ k, (k < List.length commands)%nat →
             tokenOf toString36 time k ≠ token) →
       get (fst (fst r)) token = get queue token)
      ∧ (∀ k, (k < List.length commands)%nat →
              tokenOf toString36 time k = token →
              ∃ cmd, cmd ∈ commands
                     ∧ get (fst (fst r)) token = Some (scheduled time cmd))
      ∧ (is_Some (get queue token) →
         is_Some (get (fst (fst r)) token)
         ∧ ∀ k, (k < List.length commands)%nat →
                tokenOf toString36 time k = token →
                (List.length (fst (fst r)) + 1
                 ≤ List.length queue + List.length commands)%nat).
Proof.
  intros Hsched Hfuture. cbv zeta.
  induction commands as [|cmd commands IH] using rev_ind.
  { simpl. split; [done|]. split; [done|]. split; [lia|].
    intros token. split; [done|]. split; [intros; simpl in *; lia|].
    intros Hsome. split; [done|]. intros; simpl in *; lia. }
  rewrite addCommands_snoc.
  destruct IH as (Hi & Hsent & Hlen & Htokens).
  destruct (foldl _ _ commands) as [[queue' i] sent]. simpl in *. subst i sent.
  unfold addCommand. rewrite Hsched.
  destruct (Z.leb_spec time now) as [|_]; [lia|]. simpl.
  rewrite length_app. simpl.
  split; [lia|]. split.
  { rewrite imap_app. simpl. by rewrite Nat.add_0_r. }
  split.
  { rewrite length_set. destruct (get queue' _); lia. }
  intros token. destruct (Htokens token) as (Hsame & Hnew & Hless).
  rewrite JSObjectUpdateFacts.get_set, length_set.
  split; [|split].
  - intros Hfresh.
    destruct (String.eqb_spec (tokenOf toString36 time (List.length commands)) token)
      as [Heq|_].
    + exfalso. apply (Hfresh (List.length commands)); [lia | done].
    + apply Hsame. intros k Hk. apply Hfresh. lia.
  - intros k Hk Htoken.
    destruct (String.eqb_spec (tokenOf toString36 time (List.length commands)) token)
      as [Heq|Hne].
    + exists cmd. split; [apply elem_of_app; right; by left | done].
    + assert (k < List.length commands)%nat as Hk'.
      { destruct (decide (k = List.length commands)) as [->|]; [done | lia]. }
      destruct (Hnew k Hk' Htoken) as (cmd' & Hin & Hget).
      exists cmd'. split; [apply elem_of_app; by left | done].
  - intros Hsome. destruct (Hless Hsome) as [[q' Hq'] Hcount]. split.
    + destruct (String.eqb _ token); by eexists.
    + intros k Hk Htoken.
      destruct (decide (k = List.length commands)) as [->|Hne].
      * rewrite Htoken, Hq'. simpl. lia.
      * assert (k < List.length commands)%nat as Hk' by lia.
        specialize (Hcount k Hk' Htoken).
        destruct (get queue' (tokenOf toString36 time (List.length commands)));
          simpl; lia.
Qed.

(** X24.  [_addToQueue] takes the token of a scheduled command from the
    time and from the position of the command in the call; it does not
    look whether the queue has an entry under that token.  So an entry
    that the queue holds under the token of one of the commands (as the
    queue does for a command that an earlier call has scheduled for the
    same time, and that the clearing has kept) is overwritten: afterwards
    the queue has a command of this call under the token, it has fewer
    entries than the entries before and the commands together, and a
    SCHEDULE SET with that token is sent. *)
Theorem scheduled_tokens_are_reused (_useScheduling : option bool)
    (now time : Z) (queue : list (string * QueueEntry Payload))
    (commands : list CommandVO) (k : nat) (cmd : CommandVO)
    (q : QueueEntry Payload) :
  let r := _addToQueue deSerialize toString36 _useScheduling now queue commands
             time in
  truthy_bool _useScheduling = true → now < time →
  commands !! k = Some cmd →
  get queue (tokenOf toString36 time k) = Some q →
  (∃ cmd', cmd' ∈ commands
           ∧ get (fst r) (tokenOf toString36 time k) = Some (scheduled time cmd'))
  ∧ (List.length (fst r) < List.length queue + List.length commands)%nat
  ∧ snd r !! k
    = Some (ScheduleSet (tokenOf toString36 time k) time
              (channel (deSerialize cmd)) (deSerialize cmd)).
Proof.
  cbv zeta. intros Hsched Hfuture Hk Hq. unfold _addToQueue.
  destruct (addCommands_scheduling _useScheduling now time queue commands
              Hsched Hfuture) as (_ & Hsent & _ & Htokens).
  destruct (Htokens (tokenOf toString36 time k)) as (_ & Hnew & Hless).
  destruct (foldl _ _ commands) as [[queue' i] sent]. simpl in *.
  pose proof (lookup_lt_Some _ _ _ Hk) as Hlt.
  split; [by apply (Hnew k)|]. split.
  - destruct Hless as [_ Hless]; [by eexists|].
    specialize (Hless k Hlt eq_refl). lia.
  - rewrite Hsent, list_lookup_imap, Hk. done.
Qed.

(** The command that is handed over. *)
Definition commandOf (s : Sent Payload) : option (IAMCPCommand Payload) :=
  match s with
  | Do command | ScheduleSet _ _ _ command | DoOnTimeQueue _ command =>
      Some command
  | ScheduleRemove _ | ClearQueueNowAndAfter _ => None
  end.

(** [_addToQueue] hands over every command once, in the order of the
    commands. *)
Lemma addToQueue_hands_over (_useScheduling : option bool) (now time : Z)
    (queue : list (string * QueueEntry Payload)) (commands : list CommandVO) :
  map commandOf
    (snd (_addToQueue deSerialize toString36 _useScheduling now queue commands
            time))
  = map (λ cmd, Some (deSerialize cmd)) commands.
Proof.
  unfold _addToQueue.
  assert (∀ acc,
            map commandOf
              (snd (foldl (addCommand deSerialize toString36 _useScheduling now
                             time) acc commands))
            = map commandOf (snd acc)
              ++ map (λ cmd, Some (deSerialize cmd)) commands) as Hfold.
  { induction commands as [|cmd commands IH]; intros acc; simpl.
    - by rewrite app_nil_r.
    - rewrite IH. destruct acc as [[queue' i] sent]. unfold addCommand.
      destruct (truthy_bool _useScheduling); [destruct (time <=? now)|];
        simpl; rewrite map_app, <- app_assoc; done. }
  specialize (Hfold (queue, 0%nat, [])).
  destruct (foldl _ _ commands) as [[queue' i] sent]. done.
Qed.

(** A command that the clearing takes out of the commands to send is
    the command of an entry that stays in the queue for the time of the
    new state. *)
Lemma cleared_dropped (now time : Z)
    (entries : list (string * QueueEntry Payload)) (commands : list CommandVO)
    (cmd : CommandVO) :
  cmd ∈ commands →
  cmd ∈ snd (fst (cleared now time entries commands))
  ∨ ∃ token q, (token, q) ∈ fst (fst (cleared now time entries commands))
               ∧ q_time q = time
               ∧ sameCommand isEqual deSerialize q cmd = true.
Proof.
  revert commands. induction entries as [|[token q] entries IH];
    intros commands Hin; simpl; [by left|].
  destruct (q_time q <? now); [by apply IH|].
  destruct (q_time q >=? time).
  - destruct (if q_time q =? time then _ else None) as [i|] eqn:Hmatch.
    + destruct (Z.eqb_spec (q_time q) time) as [Hat|]; [|done].
      apply matchingCommandI_Some in Hmatch as (cmd' & Hi & Hsame).
      assert (cmd ∈ delete i commands ∨ cmd = cmd') as [Hin'| ->].
      { apply list_elem_of_lookup in Hin as [j Hj].
        destruct (decide (j = i)) as [->|Hne]; [right; congruence|].
        left. destruct (decide (j < i)%nat).
        - apply (list_elem_of_lookup_2 _ j). by rewrite list_lookup_delete_lt.
        - apply (list_elem_of_lookup_2 _ (pred j)).
          rewrite list_lookup_delete_ge by lia. by replace (S (pred j)) with j by lia. }
      * specialize (IH _ Hin').
        destruct (cleared now time entries (delete i commands)) as [[kept c] sent].
        simpl in *. destruct IH as [?|(t' & q' & Hk & ?)]; [by left|].
        right. exists t', q'. split; [by right | done].
      * destruct (cleared now time entries (delete i commands)) as [[kept c] sent].
        simpl. right. exists token, q. split; [by left | done].
    + specialize (IH _ Hin).
      destruct (cleared now time entries commands) as [[kept c] sent]. done.
  - specialize (IH _ Hin).
    destruct (cleared now time entries commands) as [[kept c] sent].
    simpl in *. destruct IH as [?|(t' & q' & Hk & ?)]; [by left|].
    right. exists t', q'. split; [by right | done].
Qed.

(** Nothing that [_addToQueue] hands over is a SCHEDULE REMOVE. *)
Lemma addToQueue_removes_nothing (_useScheduling : option bool) (now time : Z)
    (queue : list (string * QueueEntry Payload)) (commands : list CommandVO)
    (token : string) :
  ScheduleRemove token
  ∉ snd (_addToQueue deSerialize toString36 _useScheduling now queue commands time).
Proof.
  intros Hin.
  apply (list_elem_of_fmap_2 commandOf) in Hin.
  rewrite addToQueue_hands_over in Hin. simpl in Hin.
  apply list_elem_of_fmap in Hin as (cmd & Hcmd & _). done.
Qed.

(** When [_addToQueue] does not schedule, it leaves the queue as it
    is. *)
Lemma addToQueue_not_scheduling (_useScheduling : option bool) (now time : Z)
    (queue : list (string * QueueEntry Payload)) (commands : list CommandVO) :
  truthy_bool _useScheduling = false ∨ time ≤ now →
  fst (_addToQueue deSerialize toString36 _useScheduling now queue commands time)
  = queue.
Proof.
  intros Hno. unfold _addToQueue.
  assert (∀ i sent,
            fst (fst (foldl (addCommand deSerialize toString36 _useScheduling now
                               time) (queue, i, sent) commands)) = queue) as Hfold.
  { induction commands as [|cmd commands IH]; intros i sent; simpl; [done|].
    destruct (truthy_bool _useScheduling) eqn:Hs; [|apply IH].
    destruct (Z.leb_spec time now) as [_|Hlt]; [apply IH|].
    destruct Hno as [?|?]; [done | lia]. }
  specialize (Hfold 0%nat []).
  by destruct (foldl _ _ commands) as [[queue' i] sent].
Qed.

(** An entry of the queue is still there after [_addToQueue], or the
    queue has the entry of one of the commands under its token. *)
Lemma addToQueue_keeps_or_replaces (_useScheduling : option bool) (now time : Z)
    (queue : list (string * QueueEntry Payload)) (commands : list CommandVO)
    (token : string) (q : QueueEntry Payload) :
  let r := _addToQueue deSerialize toString36 _useScheduling now queue commands
             time in
  get queue token = Some q →
  get (fst r) token = Some q
  ∨ ∃ cmd, cmd ∈ commands ∧ get (fst r) token = Some (scheduled time cmd).
Proof.
  cbv zeta. intros Hq.
  destruct (truthy_bool _useScheduling) eqn:Hsched;
    [|left; rewrite addToQueue_not_scheduling by (by left); done].
  destruct (Z.leb_spec time now) as [Hpast|Hfuture];
    [left; rewrite addToQueue_not_scheduling by (by right); done|].
  unfold _addToQueue.
  destruct (addCommands_scheduling _useScheduling now time queue commands
              Hsched Hfuture) as (_ & _ & _ & Htokens).
  destruct (Htokens token) as (Hsame & Hnew & _).
  destruct (foldl _ _ commands) as [[queue' i] sent]. simpl in *.
  destruct (List.find (λ k, String.eqb (tokenOf toString36 time k) token)
              (seq 0 (List.length commands))) as [k|] eqn:Hfind.
  - apply List.find_some in Hfind as [Hk Heq%String.eqb_eq].
    apply in_seq in Hk. right. apply (Hnew k); [lia | done].
  - left. rewrite Hsame; [done|]. intros k Hk Heq.
    pose proof (List.find_none _ _ Hfind k) as Hnone. simpl in Hnone.
    rewrite Heq, String.eqb_refl in Hnone.
    assert (In k (seq 0 (List.length commands))) as Hin by (apply in_seq; lia).
    by specialize (Hnone Hin).
Qed.

Variable diffStatesOrderedCommands :
  CasparCG.State → CasparCG.State → Z → list CommandVO.

(** X25.  What becomes of a command that the state library gives for
    the change of state.  [handleState] hands it over (sent at once,
    scheduled, or queued); or, with scheduling, it is the command of an
    entry that the queue held for the time of the new state and that the
    clearing has kept, so that no SCHEDULE REMOVE is sent for the entry.
    In that case the entry is still in the queue after the call, or the
    queue has under its token the entry of another command, which this
    call has scheduled: [_addToQueue] does not look whether the token is
    taken, and the kept command is in the queue no more. *)
Theorem handleState_hands_over_or_keeps (mappings : Mappings)
    (_useScheduling : option bool)
    (getStateBefore : Z → option CasparCG.TimelineState)
    (nowHandle nowClear nowAdd : Z)
    (queue : list (string * QueueEntry Payload))
    (newState : CasparCG.TimelineState) (cmd : CommandVO) :
  let previousStateTime := Z.max nowHandle (CasparCG.time newState) in
  let oldState :=
    default {| CasparCG.time := 0; CasparCG.layers := [] |}
      (getStateBefore previousStateTime) in
  let r := handleState isEqual deSerialize toString36 diffStatesOrderedCommands
             true mappings _useScheduling getStateBefore nowHandle nowClear nowAdd
             queue newState in
  let handedOver (c : CommandVO) :=
    ∃ s, Command s ∈ snd r ∧ commandOf s = Some (deSerialize c) in
  NoDup (keys queue) →
  cmd ∈ diffStatesOrderedCommands
          (CasparCG.convertStateToCaspar mappings oldState)
          (CasparCG.convertStateToCaspar mappings newState)
          (CasparCG.time newState) →
  handedOver cmd
  ∨ (truthy_bool _useScheduling = true
     ∧ ∃ token q,
         get queue token = Some q
         ∧ q_time q = CasparCG.time newState
         ∧ sameCommand isEqual deSerialize q cmd = true
         ∧ (Command (ScheduleRemove token) ∉ snd r)
         ∧ (get (fst r) token = Some q
            ∨ ∃ other,
                handedOver other
                ∧ get (fst r) token
                  = Some {| q_time := CasparCG.time newState;
                            q_command := deSerialize other |})).
Proof.
  cbv zeta. intros Hnd Hin. unfold handleState. simpl.
  set (commands := diffStatesOrderedCommands _ _ _) in *.
  assert (∀ queue1 commands1 sent1 c,
            c ∈ commands1 →
            ∃ s, Command s
                 ∈ map Command
                     (sent1 ++ snd (_addToQueue deSerialize toString36
                                      _useScheduling nowAdd queue1 commands1
                                      (CasparCG.time newState)))
                   ++ [SetState newState (CasparCG.time newState)]
                 ∧ commandOf s = Some (deSerialize c)) as Hadd.
  { intros queue1 commands1 sent1 c Hin1.
    pose proof (addToQueue_hands_over _useScheduling nowAdd
                  (CasparCG.time newState) queue1 commands1) as Hover.
    assert (Some (deSerialize c)
            ∈ map commandOf
                (snd (_addToQueue deSerialize toString36 _useScheduling nowAdd
                        queue1 commands1 (CasparCG.time newState)))) as Hs.
    { rewrite Hover. by apply (list_elem_of_fmap_2 (λ c, Some (deSerialize c))). }
    apply list_elem_of_fmap in Hs as (s & Hs & Hin').
    exists s. split; [|done].
    apply elem_of_app. left. apply list_elem_of_fmap_2, elem_of_app. by right. }
  destruct (truthy_bool _useScheduling) eqn:Hsched.
  - rewrite clearScheduledFutureCommands_cleared by done.
    pose proof (cleared_dropped nowClear (CasparCG.time newState) queue commands
                  cmd Hin) as Hdropped.
    pose proof (cleared_exclusive nowClear (CasparCG.time newState) queue
                  commands) as Hexcl.
    destruct (cleared_spec nowClear (CasparCG.time newState) queue commands)
      as (Hsub & _ & _ & _ & _ & _ & Hcmds & _).
    destruct (cleared _ _ queue commands) as [[queue1 commands1] sent1].
    simpl in *.
    assert (NoDup (keys queue1)) as Hnd1.
    { eapply sublist_NoDup; [exact Hnd|]. unfold keys. by apply fmap_sublist. }
    pose proof (Hadd queue1 commands1 sent1) as Hadd1.
    pose proof (addToQueue_removes_nothing _useScheduling nowAdd
                  (CasparCG.time newState) queue1 commands1) as Hquiet.
    pose proof (addToQueue_keeps_or_replaces _useScheduling nowAdd
                  (CasparCG.time newState) queue1 commands1) as Hlater.
    destruct (_addToQueue _ _ _ _ queue1 commands1 _) as [queue2 sent2].
    simpl in *.
    destruct Hdropped as [Hin1|(token & q & Hk & Hat & Hsame)].
    + left. by apply Hadd1.
    + right. split; [done|]. exists token, q.
      split; [apply (elem_get_Some _ _ _ Hnd); by eapply elem_of_sublist|].
      split; [done|]. split; [done|]. split.
      * intros [Hrem|Hrem]%elem_of_app;
          [|by apply list_elem_of_singleton in Hrem].
        apply list_elem_of_fmap in Hrem as (s & [= <-] & Hs).
        apply elem_of_app in Hs as [Hs|Hs]; [|by apply (Hquiet token)].
        apply (Hexcl token Hnd Hs).
        change token with (fst (token, q)). by apply list_elem_of_fmap_2.
      * destruct (Hlater token q (elem_get_Some _ _ _ Hnd1 Hk))
          as [Hstill|(other & Hother & Hget)]; [by left|].
        right. exists other. split; [by apply Hadd1 | done].
  - left.
    pose proof (Hadd queue commands
                  [ClearQueueNowAndAfter
                     (Z.max nowHandle (CasparCG.time newState))] cmd Hin) as Hs.
    by destruct (_addToQueue _ _ _ _ queue commands _) as [queue2 sent2].
Qed.

End Queue.

(** *** Runs of the queue *)

(** [n.toString(36)] for an integer. *)
Definition digit36 (d : N) : Ascii.ascii :=
  if (d <? 10)%N then Ascii.ascii_of_N (48 + d) else Ascii.ascii_of_N (87 + d).

Fixpoint digits36 (fuel : nat) (n : N) (acc : string) : string :=
  match fuel with
  | O => acc
  | S fuel' =>
      let acc' := String (digit36 (n mod 36)) acc in
      if (n / 36 =? 0)%N then acc' else digits36 fuel' (n / 36) acc'
  end.

Definition toString36 (z : Z) : string :=
  if z <? 0 then "-" +:+ digits36 64 (Z.to_N (- z)) EmptyString
  else digits36 64 (Z.to_N z) EmptyString.

(** Commands with a string as payload, that are their own serialised
    form. *)
Definition play (file : string) : IAMCPCommand string :=
  {| name := "PlayCommand"; channel := Some 1; layer := Some 10; payload := file |}.

Definition entryAt (t : Z) (file : string) : QueueEntry string :=
  {| q_time := t; q_command := play file |}.

(** A queue with an entry that has expired at 5000, one that is due
    before 10000, two for 10000 and one for later. *)
Definition sampleQueue : list (string * QueueEntry string) :=
  [ ("338_0000", entryAt 4000 "A"); ("5eg_0000", entryAt 7000 "B");
    ("7ps_0000", entryAt 10000 "C"); ("7ps_0001", entryAt 10000 "D");
    ("99c_0000", entryAt 12000 "E") ].

Example clear_sampleQueue :
  _clearScheduledFutureCommands String.eqb (λ c, c) 5000 sampleQueue 10000
    [play "C"; play "F"]
  = ([("5eg_0000", entryAt 7000 "B"); ("7ps_0000", entryAt 10000 "C")],
     [play "F"],
     [ScheduleRemove "7ps_0001"; ScheduleRemove "99c_0000"]).
Proof. reflexivity. Qed.

Lemma clear_leaves_what_is_due_witness :
  let r := _clearScheduledFutureCommands String.eqb (λ c, c) 5000 sampleQueue 10000
             [play "C"; play "F"] in
  let queue' := fst (fst r) in
  let commands' := snd (fst r) in
  let sent := snd r in
  (∀ token q, get sampleQueue token = Some q →
     (q_time q < 5000 →
      get queue' token = None ∧ ScheduleRemove token ∉ sent)
     ∧ (5000 ≤ q_time q → q_time q < 10000 →
        get queue' token = Some q ∧ ScheduleRemove token ∉ sent)
     ∧ (5000 ≤ q_time q → 10000 < q_time q →
        get queue' token = None ∧ ScheduleRemove token ∈ sent)
     ∧ (5000 ≤ q_time q → q_time q = 10000 →
        (get queue' token = Some q ∧ (ScheduleRemove token ∉ sent)
         ∧ (∃ cmd, cmd ∈ [play "C"; play "F"]
                   ∧ sameCommand String.eqb (λ c, c) q cmd = true))
        ∨ (get queue' token = None ∧ ScheduleRemove token ∈ sent
           ∧ (∀ cmd, cmd ∈ commands' →
                     sameCommand String.eqb (λ c, c) q cmd = false))))
  ∧ (∀ token q, get queue' token = Some q → get sampleQueue token = Some q)
  ∧ (∀ s, s ∈ sent → ∃ token, s = ScheduleRemove token ∧ token ∈ keys sampleQueue)
  ∧ commands' `sublist_of` [play "C"; play "F"]
  ∧ List.length [play "C"; play "F"]
    = (List.length commands'
       + List.length (List.filter (atTime 10000) queue'))%nat.
Proof.
  apply (clear_leaves_what_is_due String.eqb (λ c, c) 5000 10000 sampleQueue
           [play "C"; play "F"]).
  apply (bool_decide_unpack _). vm_compute. exact I.
Defined.

Example tokenOf_10000 :
  tokenOf toString36 10000 0 = "7ps_0000"
  ∧ tokenOf toString36 1700000000000 12 = "loyw3v28_0012".
Proof. split; vm_compute; reflexivity. Qed.

Lemma scheduled_tokens_are_reused_witness :
  let r := _addToQueue (λ c, c) toString36 (Some true) 5000
             [("7ps_0000", entryAt 10000 "C")] [play "F"] 10000 in
  (∃ cmd', cmd' ∈ [play "F"]
           ∧ get (fst r) (tokenOf toString36 10000 0)
             = Some (scheduled (λ c, c) 10000 cmd'))
  ∧ (List.length (fst r)
     < List.length [("7ps_0000", entryAt 10000 "C")] + List.length [play "F"])%nat
  ∧ snd r !! 0%nat
    = Some (ScheduleSet (tokenOf toString36 10000 0) 10000
              (channel (play "F")) (play "F")).
Proof.
  apply (scheduled_tokens_are_reused (λ c, c) toString36 (Some true) 5000 10000
           [("7ps_0000", entryAt 10000 "C")] [play "F"] 0 (play "F")
           (entryAt 10000 "C")).
  - reflexivity.
  - reflexivity.
  - reflexivity.
  - reflexivity.
Defined.

(** A state library that wants the clips C and D played at first, and
    the clips C and F after a change of the timeline. *)
Definition wantsCD (old new : CasparCG.State) (t : Z) : list (IAMCPCommand string) :=
  [play "C"; play "D"].

Definition wantsCF (old new : CasparCG.State) (t : Z) : list (IAMCPCommand string) :=
  [play "C"; play "F"].

Definition stateAt (t : Z) : CasparCG.TimelineState :=
  {| CasparCG.time := t; CasparCG.layers := [] |}.

Definition firstCall : list (string * QueueEntry string) :=
  fst (handleState String.eqb (λ c, c) toString36 wantsCD true [] (Some true)
         (λ _, None) 5000 5000 5000 [] (stateAt 10000)).

(** Two calls of [handleState] for the time 10000, at 5000 and at 6000.
    The first schedules C and D.  The second keeps C, removes D and
    schedules F under the token of C: C is not in the queue any more,
    though no SCHEDULE REMOVE was sent for it. *)
Example rescheduling_loses_a_command :
  firstCall = [("7ps_0000", entryAt 10000 "C"); ("7ps_0001", entryAt 10000 "D")]
  ∧ handleState String.eqb (λ c, c) toString36 wantsCF true [] (Some true)
      (λ _, None) 6000 6000 6000 firstCall (stateAt 10000)
    = ([("7ps_0000", entryAt 10000 "F")],
       [ Command (ScheduleRemove "7ps_0001");
         Command (ScheduleSet "7ps_0000" 10000 (Some 1) (play "F"));
         SetState (stateAt 10000) 10000 ]).
Proof. split; vm_compute; reflexivity. Qed.

Lemma handleState_hands_over_or_keeps_witness :
  let r := handleState String.eqb (λ c, c) toString36 wantsCF true []
             (Some true) (λ _, None) 6000 6000 6000 firstCall (stateAt 10000) in
  let handedOver (c : IAMCPCommand string) :=
    ∃ s, Command s ∈ snd r ∧ commandOf s = Some c in
  handedOver (play "C")
  ∨ (truthy_bool (Some true) = true
     ∧ ∃ token q,
         get firstCall token = Some q
         ∧ q_time q = CasparCG.time (stateAt 10000)
         ∧ sameCommand String.eqb (λ c, c) q (play "C") = true
         ∧ (Command (ScheduleRemove token) ∉ snd r)
         ∧ (get (fst r) token = Some q
            ∨ ∃ other,
                handedOver other
                ∧ get (fst r) token
                  = Some {| q_time := CasparCG.time (stateAt 10000);
                            q_command := other |})).
Proof.
  apply (handleState_hands_over_or_keeps String.eqb (λ c, c) toString36 wantsCF []
           (Some true) (λ _, None) 6000 6000 6000 firstCall (stateAt 10000)
           (play "C")).
  - apply (bool_decide_unpack _). vm_compute. exact I.
  - vm_compute. left.
Defined.

End CasparCGQueueFacts.

(** ** The CasparCG device: making ready *)

Module CasparCGReadyFacts.
Import CasparCGReady.

Definition isTimeCommand (channel : Z) (e : Event) : bool :=
  match e with
  | TimeCommand c _ => c =? channel
  | _ => false
  end.

(** The number of TIME commands for a channel. *)
Definition timeCommands (channel : Z) (events : list Event) : nat :=
  List.length (List.filter (isTimeCommand channel) events).

(** Whether the [n]-th TIME command took longer than allowed. *)
Definition slow (clock : nat → Z * Z) (n : nat) : bool :=
  snd (clock n) >? MAX_TIMESYNC_DURATION.

(** The attempts of one channel: the depth of the recursion is at most
    6, and with that much fuel the result does not depend on the
    fuel. *)
Lemma attemptSync_bounded (fuel : nat) (clock : nat → Z * Z) (n : nat)
    (channelNo : Z) :
  ∃ events sent,
    attemptSync (6 + fuel) clock n channelNo 1 = Some (events, (n + sent)%nat)
    ∧ (1 ≤ sent ≤ 6)%nat
    ∧ timeCommands channelNo events = sent
    ∧ (∀ other, other ≠ channelNo → timeCommands other events = 0%nat)
    ∧ (∀ k, (k < sent - 1)%nat → slow clock (n + k) = true)
    ∧ (EmitError tookTooLong ∈ events
       ↔ sent = 6%nat ∧ slow clock (n + 5) = true)
    ∧ (sent < 6 → slow clock (n + sent - 1) = false)%nat
    ∧ (∀ e, e ∈ events →
         e = EmitError tookTooLong ∨ e = Wait MAX_TIMESYNC_DURATION
         ∨ ∃ t, e = TimeCommand channelNo t).
Proof.
  assert (Z.eqb channelNo channelNo = true) as Hsame by apply Z.eqb_refl.
  assert (∀ other, other ≠ channelNo → Z.eqb channelNo other = false) as Hother.
  { intros other Hne. apply Z.eqb_neq. congruence. }
  change (6 + fuel)%nat with (S (S (S (S (S (S fuel)))))).
  unfold attemptSync; fold attemptSync.
  replace (S n) with (n + 1)%nat by lia.
  replace (S (n + 1)) with (n + 2)%nat by lia.
  replace (S (n + 2)) with (n + 3)%nat by lia.
  replace (S (n + 3)) with (n + 4)%nat by lia.
  replace (S (n + 4)) with (n + 5)%nat by lia.
  replace (S (n + 5)) with (n + 6)%nat by lia.
  replace (clock n) with (clock (n + 0)%nat) by (f_equal; lia).
  change (1 >? MAX_TIMESYNC_TRIES) with false.
  change (1 + 1 >? MAX_TIMESYNC_TRIES) with false.
  change (1 + 1 + 1 >? MAX_TIMESYNC_TRIES) with false.
  change (1 + 1 + 1 + 1 >? MAX_TIMESYNC_TRIES) with false.
  change (1 + 1 + 1 + 1 + 1 >? MAX_TIMESYNC_TRIES) with false.
  change (1 + 1 + 1 + 1 + 1 + 1 >? MAX_TIMESYNC_TRIES) with true.
  cbv iota.
  fold (slow clock (n + 0)). fold (slow clock (n + 1)). fold (slow clock (n + 2)).
  fold (slow clock (n + 3)). fold (slow clock (n + 4)). fold (slow clock (n + 5)).
  destruct (slow clock (n + 0)) eqn:H0;
    [destruct (slow clock (n + 1)) eqn:H1;
       [destruct (slow clock (n + 2)) eqn:H2;
          [destruct (slow clock (n + 3)) eqn:H3;
             [destruct (slow clock (n + 4)) eqn:H4;
                [destruct (slow clock (n + 5)) eqn:H5|]|]|]|]|].
  all: eexists _, _; split; [reflexivity|].
  all: split; [lia|].
  all: split; [unfold timeCommands; simpl; rewrite ?Hsame; reflexivity|].
  all: split;
    [intros other Hne; unfold timeCommands; simpl;
     rewrite ?(Hother other Hne); reflexivity|].
  all: split;
    [intros k Hk; destruct k as [|[|[|[|[|k]]]]]; simpl in Hk;
     first [lia | assumption]|].
  all: split;
    [split;
     [intros Hin; apply list_elem_of_In in Hin; simpl in Hin;
      first [by split | intuition discriminate]
     |intros [Hsent Hslow];
      first [lia | congruence
            | apply list_elem_of_In; simpl; tauto]]|].
  all: split;
    [intros Hlt;
     first [ lia
           | replace (n + 1 - 1)%nat with (n + 0)%nat by lia; assumption
           | replace (n + 2 - 1)%nat with (n + 1)%nat by lia; assumption
           | replace (n + 3 - 1)%nat with (n + 2)%nat by lia; assumption
           | replace (n + 4 - 1)%nat with (n + 3)%nat by lia; assumption
           | replace (n + 5 - 1)%nat with (n + 4)%nat by lia; assumption ]|].
  all: intros e Hin; apply list_elem_of_In in Hin; simpl in Hin;
    intuition (subst; eauto).
Qed.

(** X26.  The time sync of a channel sends at most six TIME commands,
    one more than the five tries that its error message names.  It
    stops at the first command that has settled within 40 ms; it waits
    40 ms between two commands; and it emits its error exactly when six
    commands in a row took longer than 40 ms. *)
Theorem attemptSync_tries (clock : nat → Z * Z) (n : nat) (channelNo : Z) :
  ∃ events sent,
    (∀ fuel, attemptSync (6 + fuel) clock n channelNo 1
             = Some (events, (n + sent)%nat))
    ∧ (1 ≤ sent ≤ 6)%nat
    ∧ timeCommands channelNo events = sent
    ∧ (∀ k, (k < sent - 1)%nat → slow clock (n + k) = true)
    ∧ (sent < 6 → slow clock (n + sent - 1) = false)%nat
    ∧ (EmitError tookTooLong ∈ events
       ↔ sent = 6%nat ∧ slow clock (n + 5) = true)
    ∧ List.length (List.filter (λ e, bool_decide (e = Wait 40)) events)
      = (sent - 1)%nat.
Proof.
  destruct (attemptSync_bounded 0 clock n channelNo)
    as (events & sent & Hrun & Hsent & Htime & _ & Hslow & Herror & Hfast & Honly).
  exists events, sent. split; [|split; [done|split; [done|split; [done|]]]].
  - intros fuel.
    destruct (attemptSync_bounded fuel clock n channelNo)
      as (events' & sent' & Hrun' & _).
    revert Hrun Hrun'. simpl.
    destruct (snd (clock n) >? MAX_TIMESYNC_DURATION); [|congruence].
    destruct (snd (clock (S n)) >? MAX_TIMESYNC_DURATION); [|congruence].
    destruct (snd (clock (S (S n))) >? MAX_TIMESYNC_DURATION); [|congruence].
    destruct (snd (clock (S (S (S n)))) >? MAX_TIMESYNC_DURATION); [|congruence].
    destruct (snd (clock (S (S (S (S n))))) >? MAX_TIMESYNC_DURATION);
      [|congruence].
    destruct (snd (clock (S (S (S (S (S n)))))) >? MAX_TIMESYNC_DURATION);
      congruence.
  - split; [done|]. split; [done|].
    revert Hrun Htime. unfold timeCommands. simpl.
    assert (Z.eqb channelNo channelNo = true) as Hsame by apply Z.eqb_refl.
    destruct (snd (clock n) >? MAX_TIMESYNC_DURATION);
      [|intros [= <- ?]; simpl; rewrite Hsame; simpl; lia].
    destruct (snd (clock (S n)) >? MAX_TIMESYNC_DURATION);
      [|intros [= <- ?]; simpl; rewrite Hsame; simpl; lia].
    destruct (snd (clock (S (S n))) >? MAX_TIMESYNC_DURATION);
      [|intros [= <- ?]; simpl; rewrite Hsame; simpl; lia].
    destruct (snd (clock (S (S (S n)))) >? MAX_TIMESYNC_DURATION);
      [|intros [= <- ?]; simpl; rewrite Hsame; simpl; lia].
    destruct (snd (clock (S (S (S (S n))))) >? MAX_TIMESYNC_DURATION);
      [|intros [= <- ?]; simpl; rewrite Hsame; simpl; lia].
    destruct (snd (clock (S (S (S (S (S n)))))) >? MAX_TIMESYNC_DURATION);
      intros [= <- ?]; simpl; rewrite Hsame; simpl; lia.
Qed.

(** How often a channel is among the channels of the server. *)
Definition occurrences (channel : Z) (channels : list Z) : nat :=
  List.length (List.filter (Z.eqb channel) channels).

Lemma timeCommands_app (channel : Z) (events events' : list Event) :
  timeCommands channel (events ++ events')
  = (timeCommands channel events + timeCommands channel events')%nat.
Proof. unfold timeCommands. by rewrite List.filter_app, length_app. Qed.

Definition syncEvent (e : Event) : bool :=
  match e with
  | TimeCommand _ _ | Wait _ | EmitError _ => true
  | _ => false
  end.

Lemma syncChannels_bounded (fuel : nat) (clock : nat → Z * Z) (n : nat)
    (channels : list Z) :
  ∃ events n',
    syncChannels (6 + fuel) clock n channels = Some (events, n')
    ∧ (∀ channel,
         (occurrences channel channels ≤ timeCommands channel events
          ≤ 6 * occurrences channel channels)%nat)
    ∧ forallb syncEvent events = true.
Proof.
  revert n. induction channels as [|channelNo channels IH]; intros n.
  { exists [], n. split; [done|]. split; [|done]. intros channel.
    unfold occurrences, timeCommands. simpl. lia. }
  destruct (attemptSync_bounded fuel clock n channelNo)
    as (events & sent & Hrun & Hsent & Htime & Hother & _ & _ & _ & Honly).
  destruct (IH (n + sent)%nat) as (events' & n' & Hrest & Hcount & Hsync).
  exists (events ++ events'), n'. split; [|split].
  - cbn [syncChannels]. by rewrite Hrun, Hrest.
  - intros channel. rewrite timeCommands_app. specialize (Hcount channel).
    unfold occurrences in *. cbn [List.filter].
    destruct (Z.eqb_spec channel channelNo) as [->|Hne]; simpl.
    + rewrite Htime. lia.
    + rewrite (Hother channel Hne). lia.
  - rewrite forallb_app, Hsync, andb_true_r. apply forallb_forall.
    intros e Hin%list_elem_of_In.
    destruct (Honly e Hin) as [->|[->|[t ->]]]; done.
Qed.

(** X27.  What [makeReady] does.  When the INFO command is rejected, it
    throws and does nothing else.  Otherwise it returns, after at most
    six TIME commands for every channel of the server when scheduling is
    in use, and none when it is not; it sends a CLEAR for every channel,
    and resets the states of the device, exactly when it is told that it
    is ok to destroy stuff. *)
Theorem makeReady_runs (fuel : nat) (info : InfoResponse)
    (_useScheduling : option bool) (clock : nat → Z * Z)
    (okToDestroyStuff : option bool) :
  ∃ r events,
    makeReady (6 + fuel) info _useScheduling clock okToDestroyStuff
    = Some (r, events)
    ∧ head events = Some InfoCommand
    ∧ match info with
      | InfoRejected => r = Throw () ∧ events = [InfoCommand]
      | InfoData channels =>
          r = Return ()
          ∧ (∀ channel,
               if truthy_bool _useScheduling
               then (occurrences channel channels ≤ timeCommands channel events
                     ≤ 6 * occurrences channel channels)%nat
               else timeCommands channel events = 0%nat)
          ∧ List.filter (λ e, negb (syncEvent e)) events
            = InfoCommand
              :: if truthy_bool okToDestroyStuff
                 then map ClearCommand channels ++ [ClearStates]
                 else []
      end.
Proof.
  destruct info as [channels|]; [|by eexists _, _].
  unfold makeReady.
  assert (∀ (l : list Z), List.filter (λ e, negb (syncEvent e)) (map ClearCommand l)
                          = map ClearCommand l) as Hclear.
  { induction l as [|c l IH]; simpl; [done | by rewrite IH]. }
  assert (∀ (l : list Z) channel, timeCommands channel (map ClearCommand l) = 0%nat)
    as Hnotime.
  { intros l channel. unfold timeCommands. induction l as [|c l IH]; done. }
  assert (∀ events, forallb syncEvent events = true →
                    List.filter (λ e, negb (syncEvent e)) events = []) as Hsynced.
  { induction events as [|e events IH]; simpl; [done|].
    intros [-> ?]%andb_true_iff. simpl. auto. }
  destruct (truthy_bool _useScheduling).
  - destruct (syncChannels_bounded fuel clock 0 channels)
      as (synced & n' & -> & Hcount & Hsync).
    eexists _, _. split; [done|]. split; [done|]. split; [done|]. split.
    + intros channel. change (InfoCommand :: ?l) with ([InfoCommand] ++ l).
      rewrite !timeCommands_app.
      replace (timeCommands channel (if truthy_bool okToDestroyStuff
                                     then map ClearCommand channels else []))
        with 0%nat by (destruct (truthy_bool okToDestroyStuff); by rewrite ?Hnotime).
      replace (timeCommands channel (if truthy_bool okToDestroyStuff
                                     then [ClearStates] else []))
        with 0%nat by (by destruct (truthy_bool okToDestroyStuff)).
      change (timeCommands channel [InfoCommand]) with 0%nat.
      specialize (Hcount channel). lia.
    + cbn [List.filter syncEvent negb]. f_equal.
      rewrite !List.filter_app, (Hsynced _ Hsync).
      destruct (truthy_bool okToDestroyStuff); simpl; [|done].
      by rewrite Hclear.
  - eexists _, _. split; [done|]. split; [done|]. split; [done|]. split.
    + intros channel. simpl. change (InfoCommand :: ?l) with ([InfoCommand] ++ l).
      rewrite !timeCommands_app.
      destruct (truthy_bool okToDestroyStuff); by rewrite ?Hnotime.
    + cbn [List.filter syncEvent negb app]. f_equal.
      rewrite !List.filter_app.
      destruct (truthy_bool okToDestroyStuff); simpl; [|done].
      by rewrite Hclear.
Qed.

End CasparCGReadyFacts.
